(** * csvq: the one-shot runner, the built-in scalar functions and SET FLAG

    A shallow embedding of

    - [lib/action/run.go]            ([Run], [showStats]),
    - the built-in function file of package [query]
      ([roundParams], [Ceil], [Floor], [round], [Round], [execMath1Arg],
      [execMath2Args], [Rand], [execStringsPadding], [Substr], [Instr],
      [truncateDate], [TruncTime], the [Functions] table),
    - the statement file of package [query] ([SetFlag]).

    Go values are modelled as the code has them: [int]/[int64] as [Z] with
    the wrap-around written out, [float64] as IEEE-754 binary64
    ([spec_float] at precision 53), [string] as a sequence of bytes
    (Rocq's [string], whose characters are 8-bit), [rune] as [Z].
    A Go function returning [(value, error)] returns a [result]; a run-time
    panic is a third outcome. *)

From Stdlib Require Import ZArith List String Ascii Bool Lia.
From Stdlib Require Import Floats.SpecFloat.
From stdpp Require Import base option list gmap strings.

Local Open Scope string_scope.
Local Open Scope list_scope.
Local Open Scope Z_scope.

(** ** Errors of the program *)

(** The error constructors the embedded functions use; each carries what
    the Go constructor is given. *)
Inductive error : Type :=
| SyntaxError (msg : string)
| ErrorsNew (msg : string)
| FunctionArgumentLengthError (name : string) (lens : list Z)
| FunctionArgumentLengthErrorWithCustomArgs (name : string) (msg : string)
| FunctionInvalidArgumentError (name : string) (msg : string)
| InvalidFlagNameError (name : string)
| FlagValueNotAllowedFormatError
| InvalidFlagValueError (msg : string)
| QueryError (msg : string).

(** * [lib/action/run.go] *)

Module Action.

(** [query.Flow]: what [Procedure.Execute] bubbles up. *)
Inductive Flow : Type := Terminate | Exit | Break | Continue | Return.

#[global] Instance Flow_eq_dec : EqDecision Flow.
Proof. solve_decision. Defined.

(** The calls [Run] makes to its collaborators, in the order it makes
    them, each with what the callee answered. *)
Inductive Call : Type :=
| CallParse (ok : bool)
| CallExists (path : string) (found : bool)
| CallCreate (path : string) (ok : bool)
| CallSetOutFile (path : string)
| CallExecute (flow : Flow) (err : option error)
| CallCommit (err : option error)
| CallRollback (err : option error)
| CallReleaseResourcesWithErrors (err : option error)
| CallLogError (msg : string)
| CallLog (msg : string)
| CallStat (path : string) (size : option Z)
| CallRemove (path : string)
| CallClose (path : string).

Definition is_CallCommit (c : Call) : bool :=
  match c with CallCommit _ => true | _ => false end.
Definition is_CallRollback (c : Call) : bool :=
  match c with CallRollback _ => true | _ => false end.
Definition is_CallExecute (c : Call) : bool :=
  match c with CallExecute _ _ => true | _ => false end.
Definition is_file_write (c : Call) : bool :=
  match c with
  | CallCreate _ _ | CallRemove _ | CallSetOutFile _ => true
  | _ => false
  end.

Section Run.

(** The session: everything behind [proc], the view cache, the
    uncommitted views and the flags. [Stmt] is a parsed statement. *)
Context {Sess Stmt : Type}.

(** What a call can see and change: the session and the files on disk
    (path to content). [OutFile] is the package variable [query.OutFile]. *)
Record Env : Type := mkEnv {
  sess : Sess;
  disk : gmap string string;
  OutFile : option string;
}.

(** The collaborators of [Run] that are not part of the file: the parser,
    the procedure runtime, the transaction manager, the logger. Each is a
    transformer of [Env]; [Run] is verified for all of them. *)
Class Collaborators : Type := {
  parser_Parse : string -> string -> list Stmt + string;
  filepath_Abs : Env -> string -> option string;
  file_Create_error : Env -> string -> option string;
  proc_Execute : list Stmt -> Env -> (Flow * option error) * Env;
  query_Commit : Env -> option error * Env;
  query_Rollback : Env -> option error * Env;
  query_ReleaseResourcesWithErrors : Env -> option error * Env;
  query_LogError : string -> Env -> Env;
  query_Log : string -> Env -> Env;
  error_text : error -> string;
  flags_Stats : Env -> bool;
  stats_report : Env -> string;
}.

Context `{Collaborators}.

(** State of a run: the environment and the calls made so far (latest
    last). The collaborators cannot touch the call log. *)
Record RunState : Type := mkRun { env : Env; calls : list Call }.

Definition M (A : Type) : Type := RunState -> A * RunState.

Definition ret {A} (a : A) : M A := fun s => (a, s).
Definition bind {A B} (c : M A) (k : A -> M B) : M B :=
  fun s => let '(a, s') := c s in k a s'.

Notation "x <- c ;; k" := (bind c (fun x => k))
  (at level 100, c at next level, right associativity).
Notation "c ;;; k" := (bind c (fun _ => k))
  (at level 100, right associativity).

Definition log (c : Call) : M unit :=
  fun s => (tt, mkRun (env s) (calls s ++ [c])).

(** A collaborator call: run it on the environment, log what it answered. *)
Definition call {A} (f : Env -> A * Env) (ev : A -> Call) : M A :=
  fun s => let '(a, e') := f (env s) in (a, mkRun e' (calls s ++ [ev a])).

Definition call_ (f : Env -> Env) (ev : Call) : M unit :=
  fun s => (tt, mkRun (f (env s)) (calls s ++ [ev])).

Definition LogError (msg : string) : M unit :=
  call_ (query_LogError msg) (CallLogError msg).

(** [csvqfile.Exists]: a query on the disk. *)
Definition Exists (path : string) : M bool :=
  call (fun e => (bool_decide (is_Some (disk e !! path)), e)) (CallExists path).

(** [file.Create]: fails with the collaborator's message, or creates the
    empty file. *)
Definition Create (path : string) : M (option string) :=
  call (fun e =>
          match file_Create_error e path with
          | Some msg => (Some msg, e)
          | None => (None, mkEnv (sess e) (<[path := ""]> (disk e)) (OutFile e))
          end)
       (fun r => CallCreate path (bool_decide (r = None))).

(** [fp.Stat()] followed by [info.Size()]; [None] when Stat fails. *)
Definition StatSize (path : string) : M (option Z) :=
  call (fun e => (Z.of_nat ∘ String.length <$> disk e !! path, e)) (CallStat path).

Definition Remove (path : string) : M unit :=
  call_ (fun e => mkEnv (sess e) (delete path (disk e)) (OutFile e)) (CallRemove path).

Definition Close (path : string) : M unit := log (CallClose path).

Definition SetOutFile (path : string) : M unit :=
  call_ (fun e => mkEnv (sess e) (disk e) (Some path)) (CallSetOutFile path).

(** [showStats]: nothing unless the [stats] flag is set. *)
Definition showStats : M unit :=
  fun s =>
    if flags_Stats (env s)
    then let msg := String "010" (stats_report (env s)) in
         call_ (query_Log msg) (CallLog msg) s
    else (tt, s).

(** The two deferred closures of [Run], in the order they are pushed. *)
Inductive Deferred : Type :=
| DeferCleanup
| DeferCloseOutfile (outfile : string).

Definition run_deferred (d : Deferred) : M unit :=
  match d with
  | DeferCleanup =>
      e <- call query_Rollback CallRollback ;;
      match e with Some e => LogError (error_text e) | None => ret tt end ;;;
      err <- call query_ReleaseResourcesWithErrors CallReleaseResourcesWithErrors ;;
      match err with Some err => LogError (error_text err) | None => ret tt end ;;;
      showStats
  | DeferCloseOutfile outfile =>
      sz <- StatSize outfile ;;
      match sz with
      | Some n => if n <? 1 then Remove outfile else ret tt
      | None => ret tt
      end ;;;
      Close outfile
  end.

(** Deferred calls, given in the order they were pushed, run last pushed
    first, after the result is set. *)
Fixpoint run_defers (ds : list Deferred) : M unit :=
  match ds with
  | [] => ret tt
  | d :: ds' => run_defers ds' ;;; run_deferred d
  end.

(** The part of [Run] from [proc.Execute] to [return err]. *)
Definition execute_and_commit (statements : list Stmt) : M (option error) :=
  r <- call (proc_Execute statements) (fun r => CallExecute (fst r) (snd r)) ;;
  let '(flow, err) := r in
  (if bool_decide (err = None) && bool_decide (flow = Terminate)
   then e <- call query_Commit CallCommit ;;
        match e with Some e => LogError (error_text e) | None => ret tt end
   else ret tt) ;;;
  ret err.

(** The body of [Run]: the result and the deferred calls pushed on the
    way, oldest first. *)
Definition Run_body (input sourceFile outfile : string)
  : M (option error * list Deferred) :=
  let defers := [DeferCleanup] in
  match parser_Parse input sourceFile with
  | inr msg =>
      log (CallParse false) ;;;
      ret (Some (SyntaxError msg), defers)
  | inl statements =>
      log (CallParse true) ;;;
      if 0 <? Z.of_nat (String.length outfile) then
        fun s =>
          let outfile := default outfile (filepath_Abs (env s) outfile) in
          (found <- Exists outfile ;;
           if found then
             ret (Some (ErrorsNew ("file " +:+ outfile +:+ " already exists")), defers)
           else
             r <- Create outfile ;;
             match r with
             | Some msg =>
                 ret (Some (ErrorsNew ("failed to create file: " +:+ msg)), defers)
             | None =>
                 let defers := defers ++ [DeferCloseOutfile outfile] in
                 SetOutFile outfile ;;;
                 err <- execute_and_commit statements ;;
                 ret (err, defers)
             end) s
      else
        err <- execute_and_commit statements ;;
        ret (err, defers)
  end.

Definition Run (input sourceFile outfile : string) : M (option error) :=
  r <- Run_body input sourceFile outfile ;;
  run_defers (snd r) ;;;
  ret (fst r).

(** A transformer of the environment that leaves the file at [path] as
    it is. *)
Definition keeps_file (path : string) (f : Env -> Env) : Prop :=
  forall e, disk (f e) !! path = disk e !! path.

(** The collaborators the deferred clean-up calls leave the file at
    [path] as it is. *)
Definition cleanup_keeps_file (path : string) : Prop :=
  keeps_file path (fun e => snd (query_Rollback e)) /\
  keeps_file path (fun e => snd (query_ReleaseResourcesWithErrors e)) /\
  (forall msg, keeps_file path (query_LogError msg)) /\
  (forall msg, keeps_file path (query_Log msg)).

End Run.

End Action.

(** * Go primitives the built-in functions rely on *)

(** ** Machine integers: [int] and [int64] (64-bit platform) *)

Module Int64.

Definition MaxInt64 : Z := 2 ^ 63 - 1.
Definition MinInt64 : Z := - 2 ^ 63.

(** The value a Go [int64] operation keeps of a mathematical result. *)
Definition wrap (z : Z) : Z := (z + 2 ^ 63) mod 2 ^ 64 - 2 ^ 63.

Definition add (a b : Z) : Z := wrap (a + b).
Definition sub (a b : Z) : Z := wrap (a - b).

Definition in_range (z : Z) : Prop := MinInt64 <= z <= MaxInt64.

End Int64.

(** ** [float64]: IEEE-754 binary64 *)

Module F64.

Definition float64 : Type := spec_float.

Definition prec : Z := 53.
Definition emax : Z := 1024.

Definition add : float64 -> float64 -> float64 := SFadd prec emax.
Definition sub : float64 -> float64 -> float64 := SFsub prec emax.
Definition mul : float64 -> float64 -> float64 := SFmul prec emax.
Definition div : float64 -> float64 -> float64 := SFdiv prec emax.
Definition sqrt : float64 -> float64 := SFsqrt prec emax.
Definition ltb : float64 -> float64 -> bool := SFltb.
Definition leb : float64 -> float64 -> bool := SFleb.
Definition eqb : float64 -> float64 -> bool := SFeqb.
Definition opp : float64 -> float64 := SFopp.
Definition abs : float64 -> float64 := SFabs.

(** Conversion [float64(i)] of an integer: round to nearest even. *)
Definition of_Z (z : Z) : float64 := binary_normalize prec emax z 0 false.

(** The decimal literal [n / 10^k], correctly rounded (both operands of the
    division are exact for the literals used here). *)
Definition of_decimal (n : Z) (k : Z) : float64 := div (of_Z n) (of_Z (10 ^ k)).

Definition zero : float64 := S754_zero false.
Definition one : float64 := of_Z 1.
Definition half : float64 := of_decimal 5 1.
Definition inf : float64 := S754_infinity false.
Definition nan : float64 := S754_nan.

(** [math.IsInf(f, 0)] and [math.IsNaN(f)]. *)
Definition IsInf (f : float64) : bool :=
  match f with S754_infinity _ => true | _ => false end.
Definition IsNaN (f : float64) : bool :=
  match f with S754_nan => true | _ => false end.

Definition is_finite (f : float64) : bool := negb (IsInf f) && negb (IsNaN f).

(** The integer part of the magnitude of a finite float and whether a
    fraction was cut off ([math.Modf] on a non-negative argument). *)
Definition trunc_mag (m : positive) (e : Z) : Z * bool :=
  if 0 <=? e then (Zpos m * 2 ^ e, false)
  else (Zpos m / 2 ^ (- e), negb (Zpos m mod 2 ^ (- e) =? 0)).

(** [math.Floor]: zero, NaN and the infinities are returned as they are;
    a negative argument goes through [-x] as in the library. *)
Definition Floor (x : float64) : float64 :=
  match x with
  | S754_finite true m e =>
      let '(d, fract) := trunc_mag m e in
      opp (of_Z (if fract then d + 1 else d))
  | S754_finite false m e => of_Z (fst (trunc_mag m e))
  | _ => x
  end.

(** [math.Ceil(x) = -Floor(-x)]. *)
Definition Ceil (x : float64) : float64 := opp (Floor (opp x)).

(** [int64(f)]: truncation toward zero; what does not fit (NaN, the
    infinities, a magnitude of 2^63 or more) gives the "integer
    indefinite" value [MinInt64] of the amd64 conversion. *)
Definition to_int64 (f : float64) : Z :=
  match f with
  | S754_zero _ => 0
  | S754_finite s m e =>
      let d := fst (trunc_mag m e) in
      let v := if s then - d else d in
      if (Int64.MinInt64 <=? v) && (v <=? Int64.MaxInt64) then v else Int64.MinInt64
  | _ => Int64.MinInt64
  end.

(** The loop of [math.Pow] over the bits of the integer exponent [i]:
    the answer is kept as [a1 * 2^ae], the running square as [x1 * 2^xe]. *)
Fixpoint pow_loop (i : positive) (a1 : float64) (ae : Z) (x1 : float64) (xe : Z)
  : float64 * Z :=
  if (xe <? - 2 ^ 12) || (2 ^ 12 <? xe) then (a1, ae + xe)
  else
    let odd := match i with xO _ => false | _ => true end in
    let a1' := if odd then mul a1 x1 else a1 in
    let ae' := if odd then ae + xe else ae in
    let x2 := mul x1 x1 in
    let xe2 := 2 * xe in
    let x1' := if ltb x2 half then add x2 x2 else x2 in
    let xe' := if ltb x2 half then xe2 - 1 else xe2 in
    match i with
    | xH => (a1', ae')
    | xO p | xI p => pow_loop p a1' ae' x1' xe'
    end.

(** [math.Pow(x, y)] for a finite [x > 0] and an integral [y], which is
    how the rounding functions call it ([x] is 10 and [y] is the
    [float64] of an [int64]). The library's branch for a fractional
    exponent is not part of this definition: it answers NaN there. *)
Definition Pow (x y : float64) : float64 :=
  if eqb y zero || eqb x one then one
  else if eqb y one then x
  else if IsNaN x || IsNaN y then nan
  else
    match abs y with
    | S754_finite _ m e =>
        let '(yi, yf) := trunc_mag m e in
        if yf then nan
        else if 2 ^ 63 <=? yi then
          (if Bool.eqb (ltb (abs x) one) (ltb zero y) then zero else inf)
        else
          let '(x1, xe) := SFfrexp prec emax x in
          let '(a1, ae) :=
            match yi with
            | Zpos i => pow_loop i one 0 x1 xe
            | _ => (one, 0)
            end in
          if ltb y zero then SFldexp prec emax (div one a1) (- ae)
          else SFldexp prec emax a1 ae
    | S754_infinity _ =>
        if Bool.eqb (ltb (abs x) one) (ltb zero y) then zero else inf
    | _ => nan
    end.

End F64.

(** ** Strings: byte sequences read as UTF-8 *)

Module GoString.

Definition rune : Type := Z.

(** [utf8.RuneError], U+FFFD. *)
Definition RuneError : rune := 65533.
Definition MaxRune : rune := 1114111.

Definition byte_val (a : ascii) : Z := Z.of_N (N_of_ascii a).
Definition byte_of (z : Z) : ascii := ascii_of_N (Z.to_N z).

(** [len(s)]. *)
Definition len (s : string) : Z := Z.of_nat (String.length s).

(** A continuation byte, 0x80 to 0xBF. *)
Definition is_cont (b : Z) : bool := (128 <=? b) && (b <=? 191).

(** A rune that has a UTF-8 encoding: a code point outside the
    surrogate range. *)
Definition valid_rune (r : rune) : bool :=
  ((0 <=? r) && (r <? 55296)) || ((57343 <? r) && (r <=? MaxRune)).

(** [utf8.DecodeRuneInString]: the rune at the start of a non-empty
    string and the number of bytes it takes; a byte that starts no
    well-formed sequence is [RuneError] of width 1. The second byte of a
    sequence is checked against the range its lead byte accepts, which
    excludes over-long forms, surrogates and values above [MaxRune]. *)
Definition decode_rune (s : string) : rune * nat :=
  match s with
  | EmptyString => (RuneError, 0%nat)
  | String a0 rest =>
      let b0 := byte_val a0 in
      if b0 <? 128 then (b0, 1%nat)
      else if (b0 <? 194) || (244 <? b0) then (RuneError, 1%nat)
      else
        match rest with
        | EmptyString => (RuneError, 1%nat)
        | String a1 rest1 =>
            let b1 := byte_val a1 in
            let lo := if b0 =? 224 then 160 else if b0 =? 240 then 144 else 128 in
            let hi := if b0 =? 237 then 159 else if b0 =? 244 then 143 else 191 in
            if (b1 <? lo) || (hi <? b1) then (RuneError, 1%nat)
            else if b0 <? 224 then ((b0 - 192) * 64 + (b1 - 128), 2%nat)
            else
              match rest1 with
              | EmptyString => (RuneError, 1%nat)
              | String a2 rest2 =>
                  let b2 := byte_val a2 in
                  if negb (is_cont b2) then (RuneError, 1%nat)
                  else if b0 <? 240 then
                    ((b0 - 224) * 4096 + (b1 - 128) * 64 + (b2 - 128), 3%nat)
                  else
                    match rest2 with
                    | EmptyString => (RuneError, 1%nat)
                    | String a3 _ =>
                        let b3 := byte_val a3 in
                        if negb (is_cont b3) then (RuneError, 1%nat)
                        else ((b0 - 240) * 262144 + (b1 - 128) * 4096
                              + (b2 - 128) * 64 + (b3 - 128), 4%nat)
                    end
              end
        end
  end.

(** The runes of a string, as [range s] and [[]rune(s)] see them.
    [skip] is the number of bytes still belonging to the rune decoded
    last. *)
Fixpoint runes_from (skip : nat) (s : string) : list rune :=
  match s with
  | EmptyString => []
  | String _ rest =>
      match skip with
      | S k => runes_from k rest
      | O => let '(r, sz) := decode_rune s in r :: runes_from (sz - 1) rest
      end
  end.

Definition runes (s : string) : list rune := runes_from 0 s.

(** [utf8.RuneCountInString]. *)
Definition RuneCountInString (s : string) : Z := Z.of_nat (length (runes s)).

(** [string(r)]: the UTF-8 encoding; a rune without one is encoded as
    U+FFFD. *)
Definition encode_rune (r : rune) : string :=
  let r := if valid_rune r then r else RuneError in
  if r <? 128 then String (byte_of r) ""
  else if r <? 2048 then
    String (byte_of (192 + r / 64)) (String (byte_of (128 + r mod 64)) "")
  else if r <? 65536 then
    String (byte_of (224 + r / 4096))
      (String (byte_of (128 + (r / 64) mod 64))
         (String (byte_of (128 + r mod 64)) ""))
  else
    String (byte_of (240 + r / 262144))
      (String (byte_of (128 + (r / 4096) mod 64))
         (String (byte_of (128 + (r / 64) mod 64))
            (String (byte_of (128 + r mod 64)) ""))).

(** [string(rs)] for a rune slice. *)
Fixpoint of_runes (rs : list rune) : string :=
  match rs with
  | [] => ""
  | r :: rs' => encode_rune r +:+ of_runes rs'
  end.

(** The sum of a size over runes. *)
Definition total (w : rune -> Z) (rs : list rune) : Z :=
  foldr (fun r n => w r + n) 0 rs.

(** A string that does not begin in the middle of a rune: it is empty
    or its first byte is not a continuation byte. *)
Definition starts_clean (t : string) : bool :=
  match t with
  | EmptyString => true
  | String a _ => negb (is_cont (byte_val a))
  end.

(** Well-formed UTF-8: encoding the runes gives the bytes back. *)
Definition valid_utf8 (s : string) : Prop := of_runes (runes s) = s.

(** Whether [sub] is a prefix of [s] ([strings.HasPrefix]). *)
Fixpoint HasPrefix (s sub : string) {struct sub} : bool :=
  match sub, s with
  | EmptyString, _ => true
  | String b sub', String a s' => bool_decide (a = b) && HasPrefix s' sub'
  | String _ _, EmptyString => false
  end.

Fixpoint index_from (i : Z) (s sub : string) : Z :=
  if HasPrefix s sub then i
  else match s with
       | EmptyString => -1
       | String _ s' => index_from (i + 1) s' sub
       end.

(** [strings.Index]: the byte index of the first instance of [sub] in
    [s], or -1. *)
Definition Index (s sub : string) : Z := index_from 0 s sub.

(** [sub] occurs in [s] at byte offset [i]. *)
Definition occurs_at (s sub : string) (i : Z) : Prop :=
  exists pre post, s = pre +:+ sub +:+ post /\ len pre = i.

(** [s] repeated [n] times. *)
Fixpoint repeat_nat (s : string) (n : nat) : string :=
  match n with
  | O => ""
  | S n' => s +:+ repeat_nat s n'
  end.

(** [strings.Repeat]: panics on a negative count and when the length of
    the result overflows [int]. *)
Definition Repeat (s : string) (count : Z) : option string :=
  if count <? 0 then None
  else if (0 <? len s) && (Int64.MaxInt64 / len s <? count) then None
  else Some (repeat_nat s (Z.to_nat count)).

(** ASCII upper-casing of one byte. *)
Definition upper_byte (a : ascii) : ascii :=
  let b := byte_val a in
  if (97 <=? b) && (b <=? 122) then byte_of (b - 32) else a.

(** [strings.ToUpper] on the ASCII letters; other bytes are kept (the
    library also maps letters outside ASCII, which the names compared
    against in this file do not contain). *)
Fixpoint ToUpper (s : string) : string :=
  match s with
  | EmptyString => EmptyString
  | String a s' => String (upper_byte a) (ToUpper s')
  end.

End GoString.

(** * Package [value]: the value domain *)

Module Value.

Import F64.

Inductive ternary : Type := TRUE | FALSE | UNKNOWN.

(** [time.Time]: an instant (seconds and nanoseconds since the Unix
    epoch) and the location it is shown in. *)
Record Time : Type := mkTime { unixSec : Z; nsec : Z; location : string }.

(** [value.Primary]. *)
Inductive Primary : Type :=
| Null
| Boolean (b : bool)
| Ternary (t : ternary)
| Integer (i : Z)
| Float (f : float64)
| Datetime (t : Time)
| String (s : string).

(** The conversions of package [value], which is not among the sources
    embedded here. A conversion answers a value of its target type or
    [value.Null]; [None] stands for [Null] and [Some v] for the target
    constructor applied to [v], so that the type assertion the callers
    make on a non-null answer cannot fail. The laws are the two the
    callers rely on: Null converts to Null, and a value of the target
    type converts to itself. *)
Class Conversions : Type := {
  ToString : Primary -> option string;
  ToInteger : Primary -> option Z;
  ToFloat : Primary -> option float64;
  ToBoolean : Primary -> option bool;
  ToDatetime : Primary -> option Time;
  ParseFloat64 : float64 -> Primary;
  ToString_Null : ToString Null = None;
  ToInteger_Null : ToInteger Null = None;
  ToFloat_Null : ToFloat Null = None;
  ToBoolean_Null : ToBoolean Null = None;
  ToDatetime_Null : ToDatetime Null = None;
  ToString_String : forall s, ToString (String s) = Some s;
  ToInteger_Integer : forall i, ToInteger (Integer i) = Some i;
  ToFloat_Float : forall f, ToFloat (Float f) = Some f;
  ToBoolean_Boolean : forall b, ToBoolean (Boolean b) = Some b;
  ToDatetime_Datetime : forall t, ToDatetime (Datetime t) = Some t;
}.

(** The outcome of a built-in function: a value, an error, or a
    run-time panic. *)
Inductive result (A : Type) : Type :=
| Ok (a : A)
| Err (e : error)
| Panic (msg : string).

Arguments Ok {A} a.
Arguments Err {A} e.
Arguments Panic {A} msg.

(** The smallest conversions the laws allow, to run the functions on
    concrete arguments: a conversion accepts its own type, [ToFloat]
    also accepts an Integer, and anything else is Null. [ParseFloat64]
    answers an Integer for a finite float without fraction and a Float
    otherwise. *)
Module Strict.

Definition is_integral (f : float64) : bool :=
  match f with
  | S754_zero _ => true
  | S754_finite _ m e => negb (snd (trunc_mag m e))
  | _ => false
  end.

Definition integer_or_float (f : float64) : Primary :=
  if is_integral f then Integer (to_int64 f) else Float f.

#[export] Instance conversions : Conversions.
Proof.
  refine {|
    ToString := fun p => match p with String s => Some s | _ => None end;
    ToInteger := fun p => match p with Integer i => Some i | _ => None end;
    ToFloat := fun p =>
      match p with Float f => Some f | Integer i => Some (of_Z i) | _ => None end;
    ToBoolean := fun p => match p with Boolean b => Some b | _ => None end;
    ToDatetime := fun p => match p with Datetime t => Some t | _ => None end;
    ParseFloat64 := integer_or_float;
  |}; reflexivity.
Defined.

End Strict.

End Value.

(** * Package [query]: the built-in scalar functions *)

Module Query.

Import F64 GoString Value.

(** [len(args)] and [args[i]]; every use of [arg] is behind a check of
    the length. *)
Definition nargs (args : list Primary) : Z := Z.of_nat (length args).
Definition arg (args : list Primary) (i : nat) : Primary := nth i args Null.

(** ** Rounding and the math family *)

(** [math.Pow], with the two special cases of its documentation that
    the rounding functions meet: [Pow(x, 0) = 1] and [Pow(x, 1) = x]. *)
Class MathPow : Type := {
  math_Pow : float64 -> float64 -> float64;
  math_Pow_zero : forall x, math_Pow x zero = one;
  math_Pow_one : forall x, math_Pow x one = x;
}.

(** The other functions of Go's [math] that the table hands to
    [execMath1Arg] and [execMath2Args], taken as they come. [math.Abs]
    and [math.Sqrt] are exact operations of binary64. *)
Class MathLib : Type := {
  math_Acos : float64 -> float64;
  math_Asin : float64 -> float64;
  math_Atan : float64 -> float64;
  math_Atan2 : float64 -> float64 -> float64;
  math_Cos : float64 -> float64;
  math_Sin : float64 -> float64;
  math_Tan : float64 -> float64;
  math_Exp : float64 -> float64;
  math_Exp2 : float64 -> float64;
  math_Expm1 : float64 -> float64;
  math_Log : float64 -> float64;
  math_Log10 : float64 -> float64;
  math_Log2 : float64 -> float64;
  math_Log1p : float64 -> float64;
}.

Section Math.

Context `{Conversions} `{MathPow} `{MathLib}.

Definition ten : float64 := of_Z 10.

(** The four results of [roundParams]: [number], [place], [isnull],
    [argsErr]. *)
Definition roundParams (args : list Primary) : float64 * float64 * bool * bool :=
  if (nargs args <? 1) || (2 <? nargs args) then (zero, zero, false, true)
  else
    match ToFloat (arg args 0) with
    | None => (zero, zero, true, false)
    | Some number =>
        if nargs args =? 2 then
          match ToInteger (arg args 1) with
          | None => (number, zero, true, false)
          | Some i => (number, of_Z i, false, false)
          end
        else (number, zero, false, false)
    end.

Definition Ceil (fn : string) (args : list Primary) : result Primary :=
  let '(number, place, isnull, argsErr) := roundParams args in
  if argsErr then Err (FunctionArgumentLengthError fn [1; 2])
  else if isnull then Ok Null
  else
    let pow := math_Pow ten place in
    let r := div (F64.Ceil (mul pow number)) pow in
    Ok (ParseFloat64 r).

Definition Floor (fn : string) (args : list Primary) : result Primary :=
  let '(number, place, isnull, argsErr) := roundParams args in
  if argsErr then Err (FunctionArgumentLengthError fn [1; 2])
  else if isnull then Ok Null
  else
    let pow := math_Pow ten place in
    let r := div (F64.Floor (mul pow number)) pow in
    Ok (ParseFloat64 r).

Definition round (f : float64) (place : float64) : float64 :=
  let pow := math_Pow ten place in
  if ltb f zero then div (F64.Ceil (sub (mul pow f) half)) pow
  else div (F64.Floor (add (mul pow f) half)) pow.

Definition Round (fn : string) (args : list Primary) : result Primary :=
  let '(number, place, isnull, argsErr) := roundParams args in
  if argsErr then Err (FunctionArgumentLengthError fn [1; 2])
  else if isnull then Ok Null
  else Ok (ParseFloat64 (round number place)).

Definition execMath1Arg (fn : string) (args : list Primary)
    (mathf : float64 -> float64) : result Primary :=
  if negb (nargs args =? 1) then Err (FunctionArgumentLengthError fn [1])
  else
    match ToFloat (arg args 0) with
    | None => Ok Null
    | Some f =>
        let result := mathf f in
        if IsInf result || IsNaN result then Ok Null
        else Ok (ParseFloat64 result)
    end.

Definition execMath2Args (fn : string) (args : list Primary)
    (mathf : float64 -> float64 -> float64) : result Primary :=
  if negb (nargs args =? 2) then Err (FunctionArgumentLengthError fn [2])
  else
    match ToFloat (arg args 0) with
    | None => Ok Null
    | Some f1 =>
        match ToFloat (arg args 1) with
        | None => Ok Null
        | Some f2 =>
            let result := mathf f1 f2 in
            if IsInf result || IsNaN result then Ok Null
            else Ok (ParseFloat64 result)
        end
    end.

Definition Abs fn args := execMath1Arg fn args F64.abs.
Definition Acos fn args := execMath1Arg fn args math_Acos.
Definition Asin fn args := execMath1Arg fn args math_Asin.
Definition Atan fn args := execMath1Arg fn args math_Atan.
Definition Atan2 fn args := execMath2Args fn args math_Atan2.
Definition Cos fn args := execMath1Arg fn args math_Cos.
Definition Sin fn args := execMath1Arg fn args math_Sin.
Definition Tan fn args := execMath1Arg fn args math_Tan.
Definition Exp fn args := execMath1Arg fn args math_Exp.
Definition Exp2 fn args := execMath1Arg fn args math_Exp2.
Definition Expm1 fn args := execMath1Arg fn args math_Expm1.
Definition MathLog fn args := execMath1Arg fn args math_Log.
Definition Log10 fn args := execMath1Arg fn args math_Log10.
Definition Log2 fn args := execMath1Arg fn args math_Log2.
Definition Log1p fn args := execMath1Arg fn args math_Log1p.
Definition Sqrt fn args := execMath1Arg fn args F64.sqrt.
Definition Pow fn args := execMath2Args fn args math_Pow.

(** The entries of the table that go through [execMath1Arg] and
    [execMath2Args], each with the function of [math] it passes. *)
Definition one_arg_math
  : list ((string -> list Primary -> result Primary) * (float64 -> float64)) :=
  [(Abs, F64.abs); (Acos, math_Acos); (Asin, math_Asin); (Atan, math_Atan);
   (Cos, math_Cos); (Sin, math_Sin); (Tan, math_Tan); (Exp, math_Exp);
   (Exp2, math_Exp2); (Expm1, math_Expm1); (MathLog, math_Log);
   (Log10, math_Log10); (Log2, math_Log2); (Log1p, math_Log1p);
   (Sqrt, F64.sqrt)].

Definition two_arg_math
  : list ((string -> list Primary -> result Primary)
          * (float64 -> float64 -> float64)) :=
  [(Atan2, math_Atan2); (Pow, math_Pow)].

(** The largest float below one half, 0.49999999999999994. *)
Definition below_half : float64 := SFpred prec emax half.

End Math.

(** ** RAND *)

(** The generator behind [cmd.GetRand()]: [Float64] answers a float in
    [[0, 1)] and [Int63n n], for [0 < n], an integer in [[0, n)], as
    [math/rand] documents them. *)
Class RandLib : Type := {
  RandState : Type;
  rand_Float64 : RandState -> float64 * RandState;
  rand_Int63n : Z -> RandState -> Z * RandState;
  rand_Float64_range :
    forall r, leb zero (fst (rand_Float64 r)) = true /\
              ltb (fst (rand_Float64 r)) one = true;
  rand_Int63n_range :
    forall n r, 0 < n -> 0 <= fst (rand_Int63n n r) < n;
}.

Section Rand.

Context `{Conversions} `{RandLib}.

(** [Rand] on the state of the generator. [Int63n] panics on an
    argument that is not positive. *)
Definition Rand (fn : string) (args : list Primary) (r : RandState)
  : result Primary * RandState :=
  if (0 <? nargs args) && negb (nargs args =? 2) then
    (Err (FunctionArgumentLengthError fn [0; 2]), r)
  else if nargs args =? 0 then
    let '(f, r') := rand_Float64 r in (Ok (Float f), r')
  else
    match ToInteger (arg args 0) with
    | None =>
        (Err (FunctionInvalidArgumentError fn "the first argument must be an integer"), r)
    | Some low =>
        match ToInteger (arg args 1) with
        | None =>
            (Err (FunctionInvalidArgumentError fn "the second argument must be an integer"), r)
        | Some high =>
            if high <=? low then
              (Err (FunctionInvalidArgumentError fn
                      "the second argument must be greater than the first argument"), r)
            else
              let delta := Int64.add (Int64.sub high low) 1 in
              if delta <=? 0 then (Panic "invalid argument to Int63n", r)
              else
                let '(n, r') := rand_Int63n delta r in
                (Ok (Integer (Int64.add n low)), r')
        end
    end.

End Rand.

(** ** String functions *)

Inductive Direction : Type := RightDirection | LeftDirection.

Inductive PaddingType : Type := PaddingRuneCount | PaddingByteCount | PaddingWidth.

(** [text.Encoding]. *)
Inductive Encoding : Type := UTF8 | SJIS.

(** Text measuring, from [cmd] and the [go-text] library, which are not
    among the sources embedded here: the size in bytes of a rune in an
    encoding (1 to 4) and its display width (0 for the characters the
    flags count as zero-width, 2 for the full-width ones), and the size
    and the width of a string, which are the sums over its runes. *)
Class TextLib : Type := {
  cmd_ParseEncoding : string -> Encoding + string;
  text_RuneByteSize : rune -> Encoding -> Z;
  cmd_RuneWidth : rune -> Z;
  text_ByteSize : string -> Encoding -> Z;
  cmd_TextWidth : string -> Z;
  text_RuneByteSize_range : forall r enc, 1 <= text_RuneByteSize r enc <= 4;
  cmd_RuneWidth_range : forall r, 0 <= cmd_RuneWidth r <= 2;
  text_ByteSize_runes :
    forall s enc,
      text_ByteSize s enc = total (fun r => text_RuneByteSize r enc) (runes s);
  cmd_TextWidth_runes :
    forall s, cmd_TextWidth s = total cmd_RuneWidth (runes s);
}.

(** A slice expression [rs[lo:hi]] on a slice whose capacity is its
    length: out of range is a panic. *)
Definition slice {A} (rs : list A) (lo hi : Z) : option (list A) :=
  if (0 <=? lo) && (lo <=? hi) && (hi <=? Z.of_nat (length rs))
  then Some (take (Z.to_nat (hi - lo)) (drop (Z.to_nat lo) rs))
  else None.

(** The start position of SUBSTR after a negative one is wrapped from
    the end of the runes of [s], and whether it falls outside of them. *)
Definition wrapped_start (s : string) (i : Z) : Z :=
  if i <? 0 then Z.of_nat (List.length (runes s)) + i else i.

Definition start_outside (s : string) (i : Z) : bool :=
  (wrapped_start s i <? 0) || (Z.of_nat (List.length (runes s)) <=? wrapped_start s i).

Section Strings.

Context `{Conversions} `{TextLib}.

(** How the loop of [execStringsPadding] over the runes of the repeated
    pad string ends: with the runes kept, or with the error. *)
Fixpoint padding_loop (w : rune -> Z) (padLen : Z) (rs : list rune)
    (l : Z) (buf : list rune) : option (list rune) :=
  match rs with
  | [] => Some buf
  | r :: rs' =>
      let l := Int64.add l (w r) in
      let buf := buf ++ [r] in
      if padLen =? l then Some buf
      else if padLen <? l then None
      else padding_loop w padLen rs' l buf
  end.

(** The fourth argument of LPAD and RPAD, when there is one that is
    not Null. *)
Definition padding_type_arg (fn : string) (args : list Primary)
  : PaddingType + error :=
  if 3 <? nargs args then
    match ToString (arg args 3) with
    | Some t =>
        let t := ToUpper t in
        if bool_decide (t = "LEN") then inl PaddingRuneCount
        else if bool_decide (t = "BYTE") then inl PaddingByteCount
        else if bool_decide (t = "WIDTH") then inl PaddingWidth
        else inr (FunctionInvalidArgumentError fn
                    "padding type must be one of LEN|BYTE|WIDTH")
    | None => inl PaddingRuneCount
    end
  else inl PaddingRuneCount.

(** The fifth argument, likewise. *)
Definition encoding_arg (fn : string) (args : list Primary) : Encoding + error :=
  if 4 <? nargs args then
    match ToString (arg args 4) with
    | Some encs =>
        match cmd_ParseEncoding encs with
        | inr msg => inr (FunctionInvalidArgumentError fn msg)
        | inl e => inl e
        end
    | None => inl UTF8
    end
  else inl UTF8.

(** The length of a string in the metric of a padding type. *)
Definition metric (padType : PaddingType) (enc : Encoding) (s : string) : Z :=
  match padType with
  | PaddingRuneCount => RuneCountInString s
  | PaddingByteCount => text_ByteSize s enc
  | PaddingWidth => cmd_TextWidth s
  end.

(** The size of one rune in that metric. *)
Definition rune_size (padType : PaddingType) (enc : Encoding) (r : rune) : Z :=
  match padType with
  | PaddingRuneCount => 1
  | PaddingByteCount => text_RuneByteSize r enc
  | PaddingWidth => cmd_RuneWidth r
  end.

(** [int(math.Ceil(float64(padLen) / float64(padstrLen)))]. *)
Definition repeat_count (padLen padstrLen : Z) : Z :=
  to_int64 (F64.Ceil (div (of_Z padLen) (of_Z padstrLen))).

(** [str] with [padding] on the side of [direction]. *)
Definition join (direction : Direction) (str padding : string) : string :=
  match direction with
  | RightDirection => str +:+ padding
  | LeftDirection => padding +:+ str
  end.

Definition execStringsPadding (fn : string) (args : list Primary)
    (direction : Direction) : result Primary :=
  if (nargs args <? 3) || (5 <? nargs args) then
    Err (FunctionArgumentLengthError fn [3; 4; 5])
  else
    match ToString (arg args 0) with
    | None => Ok Null
    | Some str =>
    match ToInteger (arg args 1) with
    | None => Ok Null
    | Some length =>
    match ToString (arg args 2) with
    | None => Ok Null
    | Some padstr =>
    match padding_type_arg fn args with
    | inr e => Err e
    | inl padType =>
    match encoding_arg fn args with
    | inr e => Err e
    | inl enc =>
    let strLen := metric padType enc str in
    let padstrLen := metric padType enc padstr in
    if length <=? strLen then Ok (arg args 0)
    else
      let padLen := Int64.sub length strLen in
      let repeat := repeat_count padLen padstrLen in
      match Repeat padstr repeat with
      | None => Panic "strings: negative Repeat count"
      | Some padding =>
          match padType with
          | PaddingRuneCount =>
              match slice (runes padding) 0 padLen with
              | Some rs => Ok (String (join direction str (of_runes rs)))
              | None => Panic "slice bounds out of range"
              end
          | _ =>
              let w := fun r =>
                match padType with
                | PaddingByteCount => text_RuneByteSize r enc
                | _ => cmd_RuneWidth r
                end in
              match padding_loop w padLen (runes padding) 0 [] with
              | Some buf => Ok (String (join direction str (of_runes buf)))
              | None =>
                  Err (FunctionInvalidArgumentError fn
                         "cannot split pad string in a byte array of a character")
              end
          end
      end
    end end end end end.

(** The arguments of a call of LPAD or RPAD, once converted: the
    string, the target length, the pad string, the padding type and the
    encoding. *)
Definition padding_call (fn : string) (args : list Primary)
    (str : string) (length : Z) (padstr : string)
    (padType : PaddingType) (enc : Encoding) : Prop :=
  3 <= nargs args <= 5 /\
  ToString (arg args 0) = Some str /\
  ToInteger (arg args 1) = Some length /\
  ToString (arg args 2) = Some padstr /\
  padding_type_arg fn args = inl padType /\
  encoding_arg fn args = inl enc.

(** Lengths for which the repetition count, computed in [float64], is
    exact enough and the repeated pad string fits an [int]. *)
Definition feasible (padLen padstrLen : Z) (padstr : string) : Prop :=
  padLen <= 2 ^ 51 /\ padstrLen <= 2 ^ 51 /\
  (padLen + 1) * len padstr <= Int64.MaxInt64.

Definition Lpad fn args := execStringsPadding fn args LeftDirection.
Definition Rpad fn args := execStringsPadding fn args RightDirection.

Definition Substr (fn : string) (args : list Primary) : result Primary :=
  if (nargs args <? 2) || (3 <? nargs args) then
    Err (FunctionArgumentLengthError fn [2; 3])
  else
    match ToString (arg args 0) with
    | None => Ok Null
    | Some s =>
        let runes := runes s in
        let strlen := Z.of_nat (List.length runes) in
        match ToInteger (arg args 1) with
        | None => Ok Null
        | Some i =>
            (* [strlen + start] of a negative [start] cannot overflow *)
            let start := if i <? 0 then strlen + i else i in
            if (start <? 0) || (strlen <=? start) then Ok Null
            else
              let cut (end_ : Z) :=
                match slice runes start end_ with
                | Some rs => Ok (String (of_runes rs))
                | None => Panic "slice bounds out of range"
                end in
              if nargs args =? 3 then
                match ToInteger (arg args 2) with
                | None => Ok Null
                | Some sublen =>
                    if sublen <? 0 then Ok Null
                    else
                      let end_ := Int64.add start sublen in
                      cut (if strlen <? end_ then strlen else end_)
                end
              else cut strlen
        end
    end.

Definition Instr (fn : string) (args : list Primary) : result Primary :=
  if (nargs args <? 2) || (2 <? nargs args) then
    Err (FunctionArgumentLengthError fn [2])
  else
    match ToString (arg args 0) with
    | None => Ok Null
    | Some s =>
        match ToString (arg args 1) with
        | None => Ok Null
        | Some substr =>
            let index := Index s substr in
            if index <? 0 then Ok Null else Ok (Integer index)
        end
    end.

End Strings.

(** ** Datetime truncation *)

(** The two functions of Go's [time] that [truncateDate] calls:
    [t.Date()], the year, month and day in which [t] falls in its
    location, and [time.Date], which builds the instant of a calendar
    date and a time of day in a location and keeps that location. *)
Class TimeLib : Type := {
  Time_Date : Time -> Z * Z * Z;
  time_Date : Z -> Z -> Z -> Z -> Z -> Z -> Z -> string -> Time;
  time_Date_location :
    forall y m d h mi s ns loc, location (time_Date y m d h mi s ns loc) = loc;
}.

Section Datetime.

Context `{Conversions} `{TimeLib}.

Definition truncateDate (fn : string) (args : list Primary) (place : Z)
  : result Primary :=
  if negb (nargs args =? 1) then Err (FunctionArgumentLengthError fn [1])
  else
    match ToDatetime (arg args 0) with
    | None => Ok Null
    | Some t =>
        let '(y, m, d) := Time_Date t in
        let d' := if (place =? 1) || (place =? 2) then 1 else d in
        let m' := if place =? 2 then 1 else m in
        Ok (Datetime (time_Date y m' d' 0 0 0 0 (location t)))
    end.

Definition TruncMonth fn args := truncateDate fn args 2.
Definition TruncDay fn args := truncateDate fn args 1.
Definition TruncTime fn args := truncateDate fn args 0.

End Datetime.

(** An instance of [TimeLib] in which every location shows UTC: the
    proleptic Gregorian calendar on the seconds since the epoch. *)
Module UTCTime.

(** Days from 1970-01-01 to the first day of month [m] of year [y]
    ([1 <= m <= 12]), plus [d - 1]. *)
Definition days_from_civil (y m d : Z) : Z :=
  let y' := if m <=? 2 then y - 1 else y in
  let era := y' / 400 in
  let yoe := y' - era * 400 in
  let mp := (m + 9) mod 12 in
  let doy := (153 * mp + 2) / 5 + d - 1 in
  let doe := yoe * 365 + yoe / 4 - yoe / 100 + doy in
  era * 146097 + doe - 719468.

Definition civil_from_days (z : Z) : Z * Z * Z :=
  let z := z + 719468 in
  let era := z / 146097 in
  let doe := z - era * 146097 in
  let yoe := (doe - doe / 1460 + doe / 36524 - doe / 146096) / 365 in
  let y := yoe + era * 400 in
  let doy := doe - (365 * yoe + yoe / 4 - yoe / 100) in
  let mp := (5 * doy + 2) / 153 in
  let d := doy - (153 * mp + 2) / 5 + 1 in
  let m := if mp <? 10 then mp + 3 else mp - 9 in
  (if m <=? 2 then y + 1 else y, m, d).

Definition Date (t : Time) : Z * Z * Z := civil_from_days (unixSec t / 86400).

(** [time.Date] normalises a month outside 1..12 into the year and lets
    the other fields overflow into the next larger one. *)
Definition mkDate (y m d h mi s ns : Z) (loc : string) : Time :=
  let y' := y + (m - 1) / 12 in
  let m' := (m - 1) mod 12 + 1 in
  let secs := days_from_civil y' m' d * 86400 + h * 3600 + mi * 60 + s in
  mkTime (secs + ns / 1000000000) (ns mod 1000000000) loc.

#[export] Instance timelib : TimeLib :=
  {| Time_Date := Date; time_Date := mkDate;
     time_Date_location := fun _ _ _ _ _ _ _ _ => eq_refl |}.

(** The time of day of an instant: hour, minute, second, nanosecond. *)
Definition Clock (t : Time) : Z * Z * Z * Z :=
  let s := unixSec t mod 86400 in
  (s / 3600, (s mod 3600) / 60, s mod 60, nsec t).

End UTCTime.

(** ** The table of built-in functions *)

(** The functions the table points to. *)
Inductive builtin : Type :=
| fn_Coalesce | fn_If | fn_Ifnull | fn_Nullif
| fn_Ceil | fn_Floor | fn_Round | fn_Abs | fn_Acos | fn_Asin | fn_Atan
| fn_Atan2 | fn_Cos | fn_Sin | fn_Tan | fn_Exp | fn_Exp2 | fn_Expm1
| fn_MathLog | fn_Log10 | fn_Log2 | fn_Log1p | fn_Sqrt | fn_Pow
| fn_BinToDec | fn_OctToDec | fn_HexToDec | fn_EnotationToDec
| fn_Bin | fn_Oct | fn_Hex | fn_Enotation | fn_NumberFormat | fn_Rand
| fn_Trim | fn_Ltrim | fn_Rtrim | fn_Upper | fn_Lower
| fn_Base64Encode | fn_Base64Decode | fn_HexEncode | fn_HexDecode
| fn_Len | fn_ByteLen | fn_Width | fn_Lpad | fn_Rpad | fn_Substr | fn_Instr
| fn_ListElem | fn_Replace | fn_Format | fn_JsonValue
| fn_Md5 | fn_Sha1 | fn_Sha256 | fn_Sha512
| fn_Md5Hmac | fn_Sha1Hmac | fn_Sha256Hmac | fn_Sha512Hmac
| fn_DatetimeFormat | fn_Year | fn_Month | fn_Day | fn_Hour | fn_Minute
| fn_Second | fn_Millisecond | fn_Microsecond | fn_Nanosecond | fn_Weekday
| fn_UnixTime | fn_UnixNanoTime | fn_DayOfYear | fn_WeekOfYear
| fn_AddYear | fn_AddMonth | fn_AddDay | fn_AddHour | fn_AddMinute
| fn_AddSecond | fn_AddMilli | fn_AddMicro | fn_AddNano
| fn_TruncMonth | fn_TruncDay | fn_TruncTime | fn_TruncMinute
| fn_TruncSecond | fn_TruncMilli | fn_TruncMicro | fn_TruncNano
| fn_DateDiff | fn_TimeDiff | fn_TimeNanoDiff | fn_UTC
| fn_String | fn_Integer | fn_Float | fn_Boolean | fn_Ternary | fn_Datetime
| fn_Call.

(** [var Functions = map[string]func(...)]. *)
Definition Functions : list (string * builtin) := [
  ("COALESCE", fn_Coalesce); ("IF", fn_If); ("IFNULL", fn_Ifnull);
  ("NULLIF", fn_Nullif); ("CEIL", fn_Ceil); ("FLOOR", fn_Floor);
  ("ROUND", fn_Round); ("ABS", fn_Abs); ("ACOS", fn_Acos); ("ASIN", fn_Asin);
  ("ATAN", fn_Atan); ("ATAN2", fn_Atan2); ("COS", fn_Cos); ("SIN", fn_Sin);
  ("TAN", fn_Tan); ("EXP", fn_Exp); ("EXP2", fn_Exp2); ("EXPM1", fn_Expm1);
  ("LOG", fn_MathLog); ("LOG10", fn_Log10); ("LOG2", fn_Log2);
  ("LOG1P", fn_Log1p); ("SQRT", fn_Sqrt); ("POW", fn_Pow);
  ("BIN_TO_DEC", fn_BinToDec); ("OCT_TO_DEC", fn_OctToDec);
  ("HEX_TO_DEC", fn_HexToDec); ("ENOTATION_TO_DEC", fn_EnotationToDec);
  ("BIN", fn_Bin); ("OCT", fn_Oct); ("HEX", fn_Hex);
  ("ENOTATION", fn_Enotation); ("NUMBER_FORMAT", fn_NumberFormat);
  ("RAND", fn_Rand); ("TRIM", fn_Trim); ("LTRIM", fn_Ltrim);
  ("RTRIM", fn_Rtrim); ("UPPER", fn_Upper); ("LOWER", fn_Lower);
  ("BASE64_ENCODE", fn_Base64Encode); ("BASE64_DECODE", fn_Base64Decode);
  ("HEX_ENCODE", fn_HexEncode); ("HEX_DECODE", fn_HexDecode);
  ("LEN", fn_Len); ("BYTE_LEN", fn_ByteLen); ("WIDTH", fn_Width);
  ("LPAD", fn_Lpad); ("RPAD", fn_Rpad); ("SUBSTR", fn_Substr);
  ("INSTR", fn_Instr); ("LIST_ELEM", fn_ListElem); ("REPLACE", fn_Replace);
  ("FORMAT", fn_Format); ("JSON_VALUE", fn_JsonValue); ("MD5", fn_Md5);
  ("SHA1", fn_Sha1); ("SHA256", fn_Sha256); ("SHA512", fn_Sha512);
  ("MD5_HMAC", fn_Md5Hmac); ("SHA1_HMAC", fn_Sha1Hmac);
  ("SHA256_HMAC", fn_Sha256Hmac); ("SHA512_HMAC", fn_Sha512Hmac);
  ("DATETIME_FORMAT", fn_DatetimeFormat); ("YEAR", fn_Year);
  ("MONTH", fn_Month); ("DAY", fn_Day); ("HOUR", fn_Hour);
  ("MINUTE", fn_Minute); ("SECOND", fn_Second);
  ("MILLISECOND", fn_Millisecond); ("MICROSECOND", fn_Microsecond);
  ("NANOSECOND", fn_Nanosecond); ("WEEKDAY", fn_Weekday);
  ("UNIX_TIME", fn_UnixTime); ("UNIX_NANO_TIME", fn_UnixNanoTime);
  ("DAY_OF_YEAR", fn_DayOfYear); ("WEEK_OF_YEAR", fn_WeekOfYear);
  ("ADD_YEAR", fn_AddYear); ("ADD_MONTH", fn_AddMonth); ("ADD_DAY", fn_AddDay);
  ("ADD_HOUR", fn_AddHour); ("ADD_MINUTE", fn_AddMinute);
  ("ADD_SECOND", fn_AddSecond); ("ADD_MILLI", fn_AddMilli);
  ("ADD_MICRO", fn_AddMicro); ("ADD_NANO", fn_AddNano);
  ("TRUNC_MONTH", fn_TruncMonth); ("TRUNC_DAY", fn_TruncDay);
  ("TRUNC_TIME", fn_TruncTime); ("TRUNC_HOUR", fn_TruncTime);
  ("TRUNC_MINUTE", fn_TruncMinute); ("TRUNC_SECOND", fn_TruncSecond);
  ("TRUNC_MILLI", fn_TruncMilli); ("TRUNC_MICRO", fn_TruncMicro);
  ("TRUNC_NANO", fn_TruncNano); ("DATE_DIFF", fn_DateDiff);
  ("TIME_DIFF", fn_TimeDiff); ("TIME_NANO_DIFF", fn_TimeNanoDiff);
  ("UTC", fn_UTC); ("STRING", fn_String); ("INTEGER", fn_Integer);
  ("FLOAT", fn_Float); ("BOOLEAN", fn_Boolean); ("TERNARY", fn_Ternary);
  ("DATETIME", fn_Datetime); ("CALL", fn_Call)
].

(** [Functions[name]]. *)
Fixpoint lookup_function (tbl : list (string * builtin)) (name : string)
  : option builtin :=
  match tbl with
  | [] => None
  | (k, f) :: tbl' => if bool_decide (k = name) then Some f else lookup_function tbl' name
  end.

Section Table.

Context `{Conversions} `{MathPow} `{MathLib} `{TextLib} `{TimeLib}.

(** The functions of the table that are embedded above ([Rand], which
    also needs the generator, is apart). *)
Definition embedded (f : builtin)
  : option (string -> list Primary -> result Primary) :=
  match f with
  | fn_Ceil => Some Ceil | fn_Floor => Some Floor | fn_Round => Some Round
  | fn_Abs => Some Abs | fn_Acos => Some Acos | fn_Asin => Some Asin
  | fn_Atan => Some Atan | fn_Atan2 => Some Atan2 | fn_Cos => Some Cos
  | fn_Sin => Some Sin | fn_Tan => Some Tan | fn_Exp => Some Exp
  | fn_Exp2 => Some Exp2 | fn_Expm1 => Some Expm1 | fn_MathLog => Some MathLog
  | fn_Log10 => Some Log10 | fn_Log2 => Some Log2 | fn_Log1p => Some Log1p
  | fn_Sqrt => Some Sqrt | fn_Pow => Some Pow
  | fn_Lpad => Some Lpad | fn_Rpad => Some Rpad
  | fn_Substr => Some Substr | fn_Instr => Some Instr
  | fn_TruncMonth => Some TruncMonth | fn_TruncDay => Some TruncDay
  | fn_TruncTime => Some TruncTime
  | _ => None
  end.

(** A call of the built-in function registered under [name]. *)
Definition call_function (name : string) (fn : string) (args : list Primary)
  : option (result Primary) :=
  f ← lookup_function Functions name;
  impl ← embedded f;
  Some (impl fn args).

End Table.

End Query.

(** * Package [query]: SET FLAG *)

Module Statement.

Import F64 GoString Value.

(** Modelled from the spec: the names of the session flags, which package
    [cmd] declares as constants ([cmd.RepositoryFlag] and the like) and
    [SetFlag] compares the upper-cased name of the statement with. The
    spec lists the 24 flags; the constants are their names in upper case. *)
Definition RepositoryFlag := "REPOSITORY".
Definition TimezoneFlag := "TIMEZONE".
Definition DatetimeFormatFlag := "DATETIME_FORMAT".
Definition WaitTimeoutFlag := "WAIT_TIMEOUT".
Definition DelimiterFlag := "DELIMITER".
Definition JsonQueryFlag := "JSON_QUERY".
Definition EncodingFlag := "ENCODING".
Definition NoHeaderFlag := "NO_HEADER".
Definition WithoutNullFlag := "WITHOUT_NULL".
Definition FormatFlag := "FORMAT".
Definition WriteEncodingFlag := "WRITE_ENCODING".
Definition WriteDelimiterFlag := "WRITE_DELIMITER".
Definition WithoutHeaderFlag := "WITHOUT_HEADER".
Definition LineBreakFlag := "LINE_BREAK".
Definition EncloseAll := "ENCLOSE_ALL".
Definition JsonEscape := "JSON_ESCAPE".
Definition PrettyPrintFlag := "PRETTY_PRINT".
Definition EastAsianEncodingFlag := "EAST_ASIAN_ENCODING".
Definition CountDiacriticalSignFlag := "COUNT_DIACRITICAL_SIGN".
Definition CountFormatCodeFlag := "COUNT_FORMAT_CODE".
Definition ColorFlag := "COLOR".
Definition QuietFlag := "QUIET".
Definition CPUFlag := "CPU".
Definition StatsFlag := "STATS".

(** The case lists of the first [switch] of [SetFlag]. *)
Definition string_flags : list string :=
  [RepositoryFlag; TimezoneFlag; DatetimeFormatFlag; DelimiterFlag;
   JsonQueryFlag; EncodingFlag; WriteEncodingFlag; FormatFlag;
   WriteDelimiterFlag; LineBreakFlag; JsonEscape].
Definition boolean_flags : list string :=
  [NoHeaderFlag; WithoutNullFlag; WithoutHeaderFlag; EncloseAll;
   PrettyPrintFlag; EastAsianEncodingFlag; CountDiacriticalSignFlag;
   CountFormatCodeFlag; ColorFlag; QuietFlag; StatsFlag].

(** A [case] with several constants. *)
Definition is_case (name : string) (consts : list string) : bool :=
  bool_decide (name ∈ consts).

(** What the outcome of [SetFlag] is: it returns, with an error or
    [nil], or a type assertion on the converted value panics. *)
Inductive outcome : Type :=
| Returned (err : option error)
| AssertionPanic.

Section SetFlag.

(** [Flags] is [cmd.Flags], [Filter] what a [*Filter] gives access to,
    [Expr] a parsed expression other than an identifier. *)
Context {Flags Filter Expr : Type}.

(** The process as [SetFlag] sees it: the filter it is given and the
    flags behind [cmd.GetFlags()]. *)
Record World : Type := mkWorld { filter : Filter; flags : Flags }.

(** The setters of [cmd.Flags] (those that validate answer the text of
    their error) and [filter.Evaluate], which are not among the sources
    embedded here. *)
Class FlagsLib : Type := {
  filter_Evaluate : Expr -> World -> (Primary + error) * World;
  SetRepository : string -> Flags -> option string * Flags;
  SetLocation : string -> Flags -> option string * Flags;
  SetDatetimeFormat : string -> Flags -> Flags;
  SetWaitTimeout : float64 -> Flags -> Flags;
  SetDelimiter : string -> Flags -> option string * Flags;
  SetJsonQuery : string -> Flags -> Flags;
  SetEncoding : string -> Flags -> option string * Flags;
  SetNoHeader : bool -> Flags -> Flags;
  SetWithoutNull : bool -> Flags -> Flags;
  SetFormat : string -> string -> Flags -> option string * Flags;
  SetWriteEncoding : string -> Flags -> option string * Flags;
  SetWriteDelimiter : string -> Flags -> option string * Flags;
  SetWithoutHeader : bool -> Flags -> Flags;
  SetLineBreak : string -> Flags -> option string * Flags;
  SetEncloseAll : bool -> Flags -> Flags;
  SetJsonEscape : string -> Flags -> option string * Flags;
  SetPrettyPrint : bool -> Flags -> Flags;
  SetEastAsianEncoding : bool -> Flags -> Flags;
  SetCountDiacriticalSign : bool -> Flags -> Flags;
  SetCountFormatCode : bool -> Flags -> Flags;
  SetColor : bool -> Flags -> Flags;
  SetQuiet : bool -> Flags -> Flags;
  SetCPU : Z -> Flags -> Flags;
  SetStats : bool -> Flags -> Flags;
}.

Context `{Conversions} `{FlagsLib}.

(** [parser.SetFlag]: the value is an identifier or another expression. *)
Inductive QueryExpression : Type :=
| Identifier (Literal : string)
| Expression (e : Expr).

Record SetFlagExpr : Type := mkSetFlag { Name : string; Value : QueryExpression }.

(** A conversion as the code has it: a [value.Primary] that is of the
    target type or Null. *)
Definition to_String (p : Primary) : Primary := from_option String Null (ToString p).
Definition to_Boolean (p : Primary) : Primary := from_option Boolean Null (ToBoolean p).
Definition to_Float (p : Primary) : Primary := from_option Float Null (ToFloat p).
Definition to_Integer (p : Primary) : Primary := from_option Integer Null (ToInteger p).

Definition IsNull (p : Primary) : bool :=
  match p with Null => true | _ => false end.

(** The second [switch]: the setter of the flag on the converted value.
    [None] is a failed type assertion. *)
Definition apply_setter (name : string) (p : Primary) (fl : Flags)
  : option (option string * Flags) :=
  let str (set : string -> Flags -> option string * Flags) :=
    match p with String s => Some (set s fl) | _ => None end in
  let str_ (set : string -> Flags -> Flags) :=
    match p with String s => Some (None, set s fl) | _ => None end in
  let boolean (set : bool -> Flags -> Flags) :=
    match p with Boolean b => Some (None, set b fl) | _ => None end in
  if bool_decide (name = RepositoryFlag) then str SetRepository
  else if bool_decide (name = TimezoneFlag) then str SetLocation
  else if bool_decide (name = DatetimeFormatFlag) then str_ SetDatetimeFormat
  else if bool_decide (name = WaitTimeoutFlag) then
    match p with Float f => Some (None, SetWaitTimeout f fl) | _ => None end
  else if bool_decide (name = DelimiterFlag) then str SetDelimiter
  else if bool_decide (name = JsonQueryFlag) then str_ SetJsonQuery
  else if bool_decide (name = EncodingFlag) then str SetEncoding
  else if bool_decide (name = NoHeaderFlag) then boolean SetNoHeader
  else if bool_decide (name = WithoutNullFlag) then boolean SetWithoutNull
  else if bool_decide (name = FormatFlag) then str (fun s => SetFormat s "")
  else if bool_decide (name = WriteEncodingFlag) then str SetWriteEncoding
  else if bool_decide (name = WriteDelimiterFlag) then str SetWriteDelimiter
  else if bool_decide (name = WithoutHeaderFlag) then boolean SetWithoutHeader
  else if bool_decide (name = LineBreakFlag) then str SetLineBreak
  else if bool_decide (name = EncloseAll) then boolean SetEncloseAll
  else if bool_decide (name = JsonEscape) then str SetJsonEscape
  else if bool_decide (name = PrettyPrintFlag) then boolean SetPrettyPrint
  else if bool_decide (name = EastAsianEncodingFlag) then boolean SetEastAsianEncoding
  else if bool_decide (name = CountDiacriticalSignFlag) then boolean SetCountDiacriticalSign
  else if bool_decide (name = CountFormatCodeFlag) then boolean SetCountFormatCode
  else if bool_decide (name = ColorFlag) then boolean SetColor
  else if bool_decide (name = QuietFlag) then boolean SetQuiet
  else if bool_decide (name = CPUFlag) then
    match p with Integer i => Some (None, SetCPU i fl) | _ => None end
  else if bool_decide (name = StatsFlag) then boolean SetStats
  else Some (None, fl).

(** The first block of [SetFlag]: an identifier is taken as a string,
    another expression is evaluated. *)
Definition evaluate_value (expr : SetFlagExpr) (w : World)
  : (Primary + error) * World :=
  match Value expr with
  | Identifier literal => (inl (String literal), w)
  | Expression e => filter_Evaluate e w
  end.

(** The first [switch]: the value converted to the type of the flag, or
    [None] in the [default] case. *)
Definition convert_for_flag (name : string) (p : Primary) : option Primary :=
  if is_case name string_flags then Some (to_String p)
  else if is_case name boolean_flags then Some (to_Boolean p)
  else if is_case name [WaitTimeoutFlag] then Some (to_Float p)
  else if is_case name [CPUFlag] then Some (to_Integer p)
  else None.

(** The names the first [switch] has a case for. *)
Definition all_flags : list string :=
  string_flags ++ boolean_flags ++ [WaitTimeoutFlag; CPUFlag].

(** What [SetFlag] does once the value [p] is at hand, in the world
    [w] the evaluation left. *)
Definition SetFlag_value (expr : SetFlagExpr) (p : Primary) (w : World)
  : outcome * World :=
  let name := ToUpper (Name expr) in
  match convert_for_flag name p with
  | None => (Returned (Some (InvalidFlagNameError (Name expr))), w)
  | Some p =>
      if IsNull p then (Returned (Some FlagValueNotAllowedFormatError), w)
      else
        match apply_setter name p (flags w) with
        | None => (AssertionPanic, w)
        | Some (err, fl) =>
            let w' := mkWorld (filter w) fl in
            match err with
            | Some msg => (Returned (Some (InvalidFlagValueError msg)), w')
            | None => (Returned None, w')
            end
        end
  end.

Definition SetFlag (expr : SetFlagExpr) (w : World) : outcome * World :=
  match evaluate_value expr w with
  | (inr err, w1) => (Returned (Some err), w1)
  | (inl p, w1) => SetFlag_value expr p w1
  end.

End SetFlag.

End Statement.

(** * [math.Pow] on integral exponents as an instance of [MathPow] *)

Module GoMath.

Import F64 Query.

#[export] Instance pow : MathPow.
Proof.
  refine {| math_Pow := F64.Pow |}.
  - reflexivity.
  - intros x. unfold F64.Pow. change (eqb one zero) with false. cbn [orb].
    destruct (eqb x one) eqn:Hx; [|reflexivity].
    assert (H1 : one = S754_finite false 4503599627370496 (-52))
      by (vm_compute; reflexivity).
    rewrite H1 in *. unfold eqb, SFeqb, SFcompare in Hx.
    destruct x as [s|s| |s m e]; try discriminate.
    + destruct s; discriminate.
    + destruct s; [discriminate|].
      destruct (e ?= -52) eqn:He; try discriminate.
      destruct (Pos.compare_cont Eq m 4503599627370496) eqn:Hm; try discriminate.
      apply Z.compare_eq in He. apply Pos.compare_eq in Hm. now subst.
Defined.

End GoMath.


(** * A generator to run [Query.Rand] with *)

Module Counter.

Import F64 Query.

(** The state is a counter; [Int63n n] answers the counter modulo [n]
    and [Float64] one of the quarters below 1. *)
Definition quarter (r : Z) : float64 :=
  match r mod 4 with
  | 0 => zero
  | 1 => of_decimal 25 2
  | 2 => of_decimal 5 1
  | _ => of_decimal 75 2
  end.

#[export] Instance randlib : RandLib.
Proof.
  refine {| RandState := Z;
            rand_Float64 := fun r => (quarter r, r + 1);
            rand_Int63n := fun n r => (r mod n, r + 1) |}.
  - intros r. cbn [fst]. unfold quarter.
    destruct (r mod 4) as [|p|p]; [split; reflexivity| |split; reflexivity].
    destruct p as [p|p|]; [split; reflexivity| |split; reflexivity].
    destruct p; split; reflexivity.
  - intros n r Hn. cbn [fst]. apply Z.mod_pos_bound. exact Hn.
Defined.

End Counter.


(** * Sample strings *)

Module Samples.

Import GoString.

(** Three runes of three bytes each, U+65E5 U+672C U+8A9E, and the
    middle one alone. *)
Definition nihongo : string := of_runes [26085; 26412; 35486].
Definition hon : string := of_runes [26412].

End Samples.

(** * Text measures to run LPAD and RPAD with *)

Module ToyText.

Import GoString Query.

(** A rune takes its UTF-8 bytes in UTF8 and one or two bytes in SJIS;
    the combining diacritical marks U+0300 to U+036F have no width, the
    East Asian wide blocks have width 2 and every other rune has width 1. *)
Definition rune_byte_size (r : rune) (enc : Encoding) : Z :=
  match enc with
  | UTF8 => Z.of_nat (String.length (encode_rune r))
  | SJIS => if r <? 128 then 1 else 2
  end.

Definition between (lo hi r : Z) : bool := (lo <=? r) && (r <=? hi).

Definition rune_width (r : rune) : Z :=
  if between 768 879 r then 0
  else if between 4352 4447 r || between 11904 42191 r || between 44032 55203 r
          || between 63744 64255 r || between 65280 65376 r then 2
  else 1.

Definition parse_encoding (s : string) : Encoding + string :=
  if bool_decide (ToUpper s = "UTF8") then inl UTF8
  else if bool_decide (ToUpper s = "SJIS") then inl SJIS
  else inr "encoding must be one of UTF8|SJIS".

#[export] Instance textlib : TextLib.
Proof.
  refine {|
    cmd_ParseEncoding := parse_encoding;
    text_RuneByteSize := rune_byte_size;
    cmd_RuneWidth := rune_width;
    text_ByteSize := fun s enc => total (fun r => rune_byte_size r enc) (runes s);
    cmd_TextWidth := fun s => total rune_width (runes s);
  |}.
  - intros r [|]; unfold rune_byte_size, encode_rune.
    + repeat match goal with
             | |- context [if ?c then _ else _] => destruct c
             end; cbn [String.length]; lia.
    + destruct (r <? 128); lia.
  - intros r. unfold rune_width.
    repeat match goal with
           | |- context [if ?c then _ else _] => destruct c
           end; lia.
  - reflexivity.
  - reflexivity.
Defined.

(** U+3042, a full-width rune, and U+0301, a combining mark. *)
Definition hiragana_a : string := of_runes [12354].
Definition acute : string := of_runes [769].

End ToyText.


(** * A small world to run [Action.Run] in *)

Module Toy.

Import Action.

(** The session keeps the statements executed but not committed and the
    committed ones; a statement is its text, and the one that selects
    the field [missing] fails. *)
Definition Sess : Type := list string * list string.

Definition parse (input sourceFile : string) : list string + string :=
  if GoString.HasPrefix input "SELECT" then inl [input]
  else inr "syntax error: unexpected token".

#[export] Instance collaborators : @Collaborators Sess string := {|
  parser_Parse := parse;
  filepath_Abs := fun _ f => Some ("/work/" +:+ f);
  file_Create_error := fun _ _ => None;
  proc_Execute := fun stmts e =>
    if bool_decide ("SELECT missing FROM users" ∈ stmts)
    then ((Terminate, Some (QueryError "field missing does not exist")), e)
    else ((Terminate, None),
          mkEnv (fst (sess e) ++ stmts, snd (sess e)) (disk e) (OutFile e));
  query_Commit := fun e =>
    (None, mkEnv ([], snd (sess e) ++ fst (sess e)) (disk e) (OutFile e));
  query_Rollback := fun e => (None, mkEnv ([], snd (sess e)) (disk e) (OutFile e));
  query_ReleaseResourcesWithErrors := fun e => (None, e);
  query_LogError := fun _ e => e;
  query_Log := fun _ e => e;
  error_text := fun _ => "error";
  flags_Stats := fun _ => false;
  stats_report := fun _ => "";
|}.

(** A disk on which the output file is already there. *)
Definition env0 : @Env Sess :=
  mkEnv ([], []) {["/work/out.csv" := "id,name"]} None.

End Toy.


(** * A small flag store to run [Statement.SetFlag] on *)

Module ToyFlags.

Import Value Statement.

(** The flags are a map from the name of a flag to its value; the
    setters that validate accept a non-empty text; an expression is a
    literal value. *)
Definition store (name : string) (v : Primary) (fl : gmap string Primary)
  : gmap string Primary := <[name := v]> fl.

Definition store_checked (name : string) (s : string) (fl : gmap string Primary)
  : option string * gmap string Primary :=
  if bool_decide (s = "") then (Some "value must not be empty", fl)
  else (None, store name (String s) fl).

#[export] Instance flagslib : @FlagsLib (gmap string Primary) unit Primary := {|
  filter_Evaluate := fun e w => (inl e, w);
  SetRepository := store_checked RepositoryFlag;
  SetLocation := store_checked TimezoneFlag;
  SetDatetimeFormat := fun s => store DatetimeFormatFlag (String s);
  SetWaitTimeout := fun f => store WaitTimeoutFlag (Float f);
  SetDelimiter := store_checked DelimiterFlag;
  SetJsonQuery := fun s => store JsonQueryFlag (String s);
  SetEncoding := store_checked EncodingFlag;
  SetNoHeader := fun b => store NoHeaderFlag (Boolean b);
  SetWithoutNull := fun b => store WithoutNullFlag (Boolean b);
  SetFormat := fun s _ => store_checked FormatFlag s;
  SetWriteEncoding := store_checked WriteEncodingFlag;
  SetWriteDelimiter := store_checked WriteDelimiterFlag;
  SetWithoutHeader := fun b => store WithoutHeaderFlag (Boolean b);
  SetLineBreak := store_checked LineBreakFlag;
  SetEncloseAll := fun b => store EncloseAll (Boolean b);
  SetJsonEscape := store_checked JsonEscape;
  SetPrettyPrint := fun b => store PrettyPrintFlag (Boolean b);
  SetEastAsianEncoding := fun b => store EastAsianEncodingFlag (Boolean b);
  SetCountDiacriticalSign := fun b => store CountDiacriticalSignFlag (Boolean b);
  SetCountFormatCode := fun b => store CountFormatCodeFlag (Boolean b);
  SetColor := fun b => store ColorFlag (Boolean b);
  SetQuiet := fun b => store QuietFlag (Boolean b);
  SetCPU := fun i => store CPUFlag (Integer i);
  SetStats := fun b => store StatsFlag (Boolean b);
|}.

Definition world0 : @World (gmap string Primary) unit :=
  mkWorld tt {[CPUFlag := Integer 4]}.

End ToyFlags.

(** * Go's [strconv], [encoding/hex], [unicode] and [strings.TrimLeft] *)

(** ** [strconv.FormatInt] and [strconv.ParseInt] *)

Module Strconv.

Import GoString.

(** The digit of value [d] in the table
    "0123456789abcdefghijklmnopqrstuvwxyz". *)
Definition digit_char (d : Z) : ascii :=
  if d <? 10 then byte_of (48 + d) else byte_of (87 + d).

(** The general loop of [formatBits]: the digits of [u] in [base], the
    least significant first, written in front of [acc]. The loop runs
    at most 64 times for a [uint64] and a base of 2 or more. *)
Fixpoint format_bits (fuel : nat) (u base : Z) (acc : string) : string :=
  match fuel with
  | O => acc
  | S fuel' =>
      if u <? base then String (digit_char u) acc
      else format_bits fuel' (u / base) base (String (digit_char (u mod base)) acc)
  end.

(** [strconv.FormatInt(i, base)] for [2 <= base <= 36]: the sign, then
    the digits of the magnitude. *)
Definition FormatInt (i base : Z) : string :=
  if i <? 0 then String "-" (format_bits 64 (- i) base "")
  else format_bits 64 i base "".

Inductive NumError : Type := ErrSyntax | ErrRange.

(** The value of a digit: '0'..'9', and the letters of either case from
    10 on. *)
Definition digit_val (a : ascii) : option Z :=
  let c := byte_val a in
  if (48 <=? c) && (c <=? 57) then Some (c - 48)
  else if (97 <=? c) && (c <=? 122) then Some (c - 97 + 10)
  else if (65 <=? c) && (c <=? 90) then Some (c - 65 + 10)
  else None.

Definition maxUint64 : Z := 2 ^ 64 - 1.

(** The loop of [strconv.ParseUint] at bit size 64, for a base given by
    the caller ([2 <= base <= 36]; the prefixes and underscores of base
    0 are not part of this definition). [n] is the value so far. *)
Fixpoint parse_uint_loop (s : string) (base n : Z) : Z + NumError :=
  match s with
  | EmptyString => inl n
  | String c s' =>
      match digit_val c with
      | None => inr ErrSyntax
      | Some d =>
          if base <=? d then inr ErrSyntax
          else if maxUint64 / base + 1 <=? n then inr ErrRange
          else
            let n1 := n * base + d in
            if maxUint64 <? n1 then inr ErrRange
            else parse_uint_loop s' base n1
      end
  end.

Definition ParseUint (s : string) (base : Z) : Z + NumError :=
  match s with
  | EmptyString => inr ErrSyntax
  | _ => parse_uint_loop s base 0
  end.

(** [strconv.ParseInt(s, base, 64)]: an optional sign, then
    [ParseUint]; a magnitude that does not fit is a range error. *)
Definition ParseInt (s : string) (base : Z) : Z + NumError :=
  match s with
  | EmptyString => inr ErrSyntax
  | String c rest =>
      let neg := bool_decide (c = "-"%char) in
      let s' := if bool_decide (c = "+"%char) || neg then rest else s in
      match ParseUint s' base with
      | inr ErrSyntax => inr ErrSyntax
      | r =>
          let un := match r with inl un => un | inr _ => maxUint64 end in
          let cutoff := 2 ^ 63 in
          if negb neg && (cutoff <=? un) then inr ErrRange
          else if neg && (cutoff <? un) then inr ErrRange
          else inl (if neg then - un else un)
      end
  end.

End Strconv.

(** ** [encoding/hex] *)

Module EncodingHex.

Import GoString Strconv.

(** [hex.EncodeToString]: two digits of the table "0123456789abcdef"
    for every byte. *)
Fixpoint EncodeToString (src : string) : string :=
  match src with
  | EmptyString => EmptyString
  | String a rest =>
      let v := byte_val a in
      String (digit_char (v / 16)) (String (digit_char (v mod 16)) (EncodeToString rest))
  end.

Definition fromHexChar (a : ascii) : option Z :=
  let c := byte_val a in
  if (48 <=? c) && (c <=? 57) then Some (c - 48)
  else if (97 <=? c) && (c <=? 102) then Some (c - 97 + 10)
  else if (65 <=? c) && (c <=? 70) then Some (c - 65 + 10)
  else None.

(** [hex.DecodeString]: the bytes decoded, and whether the input was
    well formed. On a character that is no hexadecimal digit, and on an
    odd length, the bytes decoded before it are returned with the
    error (the behaviour of the library since Go 1.10). *)
Fixpoint DecodeString (s : string) : string * bool :=
  match s with
  | EmptyString => (EmptyString, true)
  | String _ EmptyString => (EmptyString, false)
  | String c1 (String c2 rest) =>
      match fromHexChar c1, fromHexChar c2 with
      | Some a, Some b =>
          let '(bytes, ok) := DecodeString rest in
          (String (byte_of (a * 16 + b)) bytes, ok)
      | _, _ => (EmptyString, false)
      end
  end.

End EncodingHex.

(** ** [unicode.IsSpace] and [strings.TrimLeft] *)

Module Strings.

Import GoString.

(** [unicode.IsSpace]: the white space of Latin-1 and the
    [White_Space] property above it. *)
Definition IsSpace (r : rune) : bool :=
  if r <=? 255 then
    ((9 <=? r) && (r <=? 13)) || (r =? 32) || (r =? 133) || (r =? 160)
  else
    (r =? 5760) || ((8192 <=? r) && (r <=? 8202)) || (r =? 8232) || (r =? 8233)
    || (r =? 8239) || (r =? 8287) || (r =? 12288).

(** [strings.TrimLeftFunc]: [s] from the first rune on that does not
    satisfy [f]. [skip] is the number of bytes still belonging to the
    rune dropped last. *)
Fixpoint trim_left_from (f : rune -> bool) (skip : nat) (s : string) : string :=
  match s with
  | EmptyString => EmptyString
  | String _ rest =>
      match skip with
      | S k => trim_left_from f k rest
      | O =>
          let '(r, sz) := decode_rune s in
          if f r then trim_left_from f (sz - 1) rest else s
      end
  end.

Definition TrimLeftFunc (s : string) (f : rune -> bool) : string :=
  trim_left_from f 0 s.

(** [strings.TrimLeft]: the leading runes contained in [cutset] are
    removed; the runes of [cutset] are those a [range] over it sees. *)
Definition TrimLeft (s cutset : string) : string :=
  match s, cutset with
  | EmptyString, _ | _, EmptyString => s
  | _, _ => TrimLeftFunc s (fun r => bool_decide (r ∈ runes cutset))
  end.

(** A string of ASCII characters only, and the code points of its
    bytes. *)
Fixpoint ascii_only (s : string) : bool :=
  match s with
  | EmptyString => true
  | String a s' => (byte_val a <? 128) && ascii_only s'
  end.

Fixpoint codes (s : string) : list rune :=
  match s with
  | EmptyString => []
  | String a s' => byte_val a :: codes s'
  end.

End Strings.

(** * Package [query]: conversions of numbers and strings, COALESCE and
      its relatives *)

Module Builtin.

Import F64 GoString Value Query Strconv Strings.

(** [value.Equal], which is not among the sources embedded here. *)
Class Comparison : Type := {
  value_Equal : Primary -> Primary -> ternary;
}.

Definition IsNull (p : Primary) : bool :=
  match p with Null => true | _ => false end.

Section Functions.

Context `{Conversions} `{Comparison}.

(** The loop of [Coalesce]. *)
Fixpoint first_not_null (args : list Primary) : Primary :=
  match args with
  | [] => Null
  | a :: rest => if IsNull a then first_not_null rest else a
  end.

Definition Coalesce (fn : string) (args : list Primary) : result Primary :=
  if nargs args <? 1 then
    Err (FunctionArgumentLengthErrorWithCustomArgs fn "at least 1 argument")
  else Ok (first_not_null args).

Definition Ifnull (fn : string) (args : list Primary) : result Primary :=
  if negb (nargs args =? 2) then Err (FunctionArgumentLengthError fn [2])
  else if IsNull (arg args 0) then Ok (arg args 1)
  else Ok (arg args 0).

Definition Nullif (fn : string) (args : list Primary) : result Primary :=
  if negb (nargs args =? 2) then Err (FunctionArgumentLengthError fn [2])
  else
    match value_Equal (arg args 0) (arg args 1) with
    | TRUE => Ok Null
    | _ => Ok (arg args 0)
    end.

Definition ltrim (s cutset : string) : string :=
  if len cutset <? 1 then TrimLeftFunc s IsSpace else TrimLeft s cutset.

Definition execParseInt (fn : string) (args : list Primary) (base : Z)
  : result Primary :=
  if negb (nargs args =? 1) then Err (FunctionArgumentLengthError fn [1])
  else
    match ToString (arg args 0) with
    | None => Ok Null
    | Some s =>
        let s := if base =? 16 then ltrim s "0x" else s in
        match ParseInt s base with
        | inr _ => Ok Null
        | inl i => Ok (Integer i)
        end
    end.

Definition execFormatInt (fn : string) (args : list Primary) (base : Z)
  : result Primary :=
  if negb (nargs args =? 1) then Err (FunctionArgumentLengthError fn [1])
  else
    match ToInteger (arg args 0) with
    | None => Ok Null
    | Some i => Ok (String (FormatInt i base))
    end.

Definition BinToDec fn args := execParseInt fn args 2.
Definition OctToDec fn args := execParseInt fn args 8.
Definition HexToDec fn args := execParseInt fn args 16.
Definition Bin fn args := execFormatInt fn args 2.
Definition Oct fn args := execFormatInt fn args 8.
Definition Hex fn args := execFormatInt fn args 16.

Definition execStrings1Arg (fn : string) (args : list Primary)
    (stringsf : string -> string) : result Primary :=
  if negb (nargs args =? 1) then Err (FunctionArgumentLengthError fn [1])
  else
    match ToString (arg args 0) with
    | None => Ok Null
    | Some s => Ok (String (stringsf s))
    end.

Definition hexEncode (s : string) : string := EncodingHex.EncodeToString s.
Definition hexDecode (s : string) : string := fst (EncodingHex.DecodeString s).

Definition HexEncode fn args := execStrings1Arg fn args hexEncode.
Definition HexDecode fn args := execStrings1Arg fn args hexDecode.

Definition execStringsLen (fn : string) (args : list Primary)
    (stringsf : string -> Z) : result Primary :=
  if negb (nargs args =? 1) then Err (FunctionArgumentLengthError fn [1])
  else
    match ToString (arg args 0) with
    | None => Ok Null
    | Some s => Ok (Integer (stringsf s))
    end.

Definition Len fn args := execStringsLen fn args RuneCountInString.

End Functions.

End Builtin.

(** * Package [query]: ADD and REMOVE on a flag *)

Module FlagElement.

Import F64 GoString Value Statement.

(** The errors of [AddFlagElement] and [RemoveFlagElement]: those they
    share with [SetFlag] or pass on from the evaluation, and their own. *)
Inductive element_error : Type :=
| QueryErr (e : error)
| AddFlagNotSupportedNameError (name : string)
| RemoveFlagNotSupportedNameError (name : string)
| InvalidFlagValueToBeRemovedError.

Inductive element_outcome : Type :=
| ElementReturned (err : option element_error)
| ElementPanic.

(** The second [case] of both functions: every flag but
    [cmd.DatetimeFormatFlag]. *)
Definition single_valued_flags : list string :=
  [RepositoryFlag; TimezoneFlag; DelimiterFlag; JsonQueryFlag; EncodingFlag;
   WriteEncodingFlag; FormatFlag; WriteDelimiterFlag; LineBreakFlag; JsonEscape;
   NoHeaderFlag; WithoutNullFlag; WithoutHeaderFlag; EncloseAll; PrettyPrintFlag;
   EastAsianEncodingFlag; CountDiacriticalSignFlag; CountFormatCodeFlag;
   ColorFlag; QuietFlag; StatsFlag;
   WaitTimeoutFlag;
   CPUFlag].

Section Elements.

Context {Flags Filter Expr : Type}.

(** The field [DatetimeFormat] of [cmd.Flags], a slice of strings, and
    [filter.Evaluate] on an identifier, which [RemoveFlagElement] does
    not tell from another expression. *)
Class FlagElements : Type := {
  DatetimeFormat : Flags -> list string;
  set_DatetimeFormat : list string -> Flags -> Flags;
  DatetimeFormat_set :
    forall l fl, DatetimeFormat (set_DatetimeFormat l fl) = l;
  filter_Evaluate_identifier :
    string -> @World Flags Filter -> (Primary + error) * @World Flags Filter;
}.

Context `{Conversions} `{@FlagsLib Flags Filter Expr} `{FlagElements}.

(** [parser.AddFlagElement] and [parser.RemoveFlagElement] carry the two
    fields of [parser.SetFlag], [Name] and [Value]; [SetFlagExpr] stands
    for the three. *)
Definition of_outcome (o : outcome) : element_outcome :=
  match o with
  | Returned err => ElementReturned (QueryErr <$> err)
  | AssertionPanic => ElementPanic
  end.

Definition AddFlagElement (expr : SetFlagExpr) (w : World)
  : element_outcome * World :=
  let name := ToUpper (Name expr) in
  if is_case name [DatetimeFormatFlag] then
    let e := mkSetFlag (Name expr) (Value expr) in
    let '(o, w') := SetFlag e w in (of_outcome o, w')
  else if is_case name single_valued_flags then
    (ElementReturned (Some (AddFlagNotSupportedNameError (Name expr))), w)
  else
    (ElementReturned (Some (QueryErr (InvalidFlagNameError (Name expr)))), w).

(** [filter.Evaluate(expr.Value)]. *)
Definition evaluate (v : QueryExpression) (w : World)
  : (Primary + error) * World :=
  match v with
  | Identifier literal => filter_Evaluate_identifier literal w
  | Expression e => filter_Evaluate e w
  end.

(** [append(s[:idx], s[idx+1:]...)] for an index inside [s]. *)
Definition remove_at (idx : Z) (s : list string) : list string :=
  take (Z.to_nat idx) s ++ drop (Z.to_nat (idx + 1)) s.

(** The loop that keeps the formats other than [val]. *)
Fixpoint remove_value (val : string) (s : list string) : list string :=
  match s with
  | [] => []
  | v :: rest =>
      if bool_decide (val <> v) then v :: remove_value val rest
      else remove_value val rest
  end.

Definition RemoveFlagElement (expr : SetFlagExpr) (w : World)
  : element_outcome * World :=
  match evaluate (Value expr) w with
  | (inr err, w1) => (ElementReturned (Some (QueryErr err)), w1)
  | (inl p, w1) =>
      let name := ToUpper (Name expr) in
      if is_case name [DatetimeFormatFlag] then
        let fl := flags w1 in
        match ToInteger p with
        | Some idx =>
            if (-1 <? idx) && (idx <? Z.of_nat (length (DatetimeFormat fl))) then
              (ElementReturned None,
               mkWorld (filter w1)
                 (set_DatetimeFormat (remove_at idx (DatetimeFormat fl)) fl))
            else (ElementReturned None, w1)
        | None =>
            match ToString p with
            | Some val =>
                (ElementReturned None,
                 mkWorld (filter w1)
                   (set_DatetimeFormat (remove_value val (DatetimeFormat fl)) fl))
            | None =>
                (ElementReturned (Some InvalidFlagValueToBeRemovedError), w1)
            end
        end
      else if is_case name single_valued_flags then
        (ElementReturned (Some (RemoveFlagNotSupportedNameError (Name expr))), w1)
      else
        (ElementReturned (Some (QueryErr (InvalidFlagNameError (Name expr)))), w1)
  end.

End Elements.

End FlagElement.
(** * A list of datetime formats to run ADD and REMOVE on *)

Module ToyFormats.

Import Value Statement FlagElement.

(** The flags are the list of datetime formats alone: SET and ADD on
    DATETIME_FORMAT append a format that is not in the list yet, and no
    other setter keeps anything. An expression is a literal value and
    an identifier evaluates to the string of its name. *)
Definition append_format (s : string) (fl : list string) : list string :=
  if bool_decide (s ∈ fl) then fl else fl ++ [s].

#[export] Instance flagslib : @FlagsLib (list string) unit Primary := {|
  filter_Evaluate := fun e w => (inl e, w);
  SetRepository := fun _ fl => (None, fl);
  SetLocation := fun _ fl => (None, fl);
  SetDatetimeFormat := append_format;
  SetWaitTimeout := fun _ fl => fl;
  SetDelimiter := fun _ fl => (None, fl);
  SetJsonQuery := fun _ fl => fl;
  SetEncoding := fun _ fl => (None, fl);
  SetNoHeader := fun _ fl => fl;
  SetWithoutNull := fun _ fl => fl;
  SetFormat := fun _ _ fl => (None, fl);
  SetWriteEncoding := fun _ fl => (None, fl);
  SetWriteDelimiter := fun _ fl => (None, fl);
  SetWithoutHeader := fun _ fl => fl;
  SetLineBreak := fun _ fl => (None, fl);
  SetEncloseAll := fun _ fl => fl;
  SetJsonEscape := fun _ fl => (None, fl);
  SetPrettyPrint := fun _ fl => fl;
  SetEastAsianEncoding := fun _ fl => fl;
  SetCountDiacriticalSign := fun _ fl => fl;
  SetCountFormatCode := fun _ fl => fl;
  SetColor := fun _ fl => fl;
  SetQuiet := fun _ fl => fl;
  SetCPU := fun _ fl => fl;
  SetStats := fun _ fl => fl;
|}.

#[export] Instance elements : @FlagElements (list string) unit := {|
  DatetimeFormat := fun fl => fl;
  set_DatetimeFormat := fun l _ => l;
  DatetimeFormat_set := fun _ _ => eq_refl;
  filter_Evaluate_identifier := fun literal w => (inl (String literal), w);
|}.

Definition formats0 : @World (list string) unit :=
  mkWorld tt ["%Y-%m-%d"; "%d/%m/%Y"; "%H:%M"; "%d/%m/%Y"].

End ToyFormats.
(** * Go's [time]: durations, [Add], [Sub] and [Truncate] on instants *)

Module GoTime.

Import Value.

(** [time.Duration]: nanoseconds in an [int64]. *)
Definition Nanosecond : Z := 1.
Definition Microsecond : Z := 1000 * Nanosecond.
Definition Millisecond : Z := 1000 * Microsecond.
Definition Second : Z := 1000 * Millisecond.
Definition Minute : Z := 60 * Second.
Definition Hour : Z := 60 * Minute.

Definition minDuration : Z := Int64.MinInt64.
Definition maxDuration : Z := Int64.MaxInt64.

(** An instant whose nanoseconds lie within the second, as every
    [time.Time] has them. *)
Definition wf (t : Time) : Prop := 0 <= nsec t < 1000000000.

(** The nanoseconds from January 1 of year 1, 00:00:00 UTC, the zero
    time, to an instant. *)
Definition unixToInternal : Z := 62135596800.
Definition abs_nanoseconds (t : Time) : Z :=
  (unixSec t + unixToInternal) * 1000000000 + nsec t.

(** [t.Add(d)]: the division of [d] truncates toward zero, and the
    nanoseconds are carried into the seconds. (The seconds are not
    wrapped here: the instants of this file are far from the ends of
    the representation.) *)
Definition Add (t : Time) (d : Z) : Time :=
  let dsec := Z.quot d 1000000000 in
  let nsec := nsec t + Z.rem d 1000000000 in
  if 1000000000 <=? nsec then mkTime (unixSec t + dsec + 1) (nsec - 1000000000) (location t)
  else if nsec <? 0 then mkTime (unixSec t + dsec - 1) (nsec + 1000000000) (location t)
  else mkTime (unixSec t + dsec) nsec (location t).

(** [t.Sub(u)]: the difference, or the largest or smallest duration
    when it does not fit. *)
Definition Sub (t u : Time) : Z :=
  let d := abs_nanoseconds t - abs_nanoseconds u in
  if (minDuration <=? d) && (d <=? maxDuration) then d
  else if d <? 0 then minDuration else maxDuration.

(** [t.Truncate(d)]: [t] rounded down to a multiple of [d] since the
    zero time; [t] itself for [d <= 0]. *)
Definition Truncate (t : Time) (d : Z) : Time :=
  if d <=? 0 then t else Add t (- (abs_nanoseconds t mod d)).

End GoTime.

(** * Package [query]: shifting, truncating and subtracting datetimes *)

Module TimeFunctions.

Import F64 GoString Value Query.

Section Functions.

Context `{Conversions}.

Definition truncateDuration (fn : string) (args : list Primary) (dur : Z)
  : result Primary :=
  if negb (nargs args =? 1) then Err (FunctionArgumentLengthError fn [1])
  else
    match ToDatetime (arg args 0) with
    | None => Ok Null
    | Some t => Ok (Datetime (GoTime.Truncate t dur))
    end.

Definition TruncMinute fn args := truncateDuration fn args GoTime.Hour.
Definition TruncSecond fn args := truncateDuration fn args GoTime.Minute.
Definition TruncMilli fn args := truncateDuration fn args GoTime.Second.
Definition TruncMicro fn args := truncateDuration fn args GoTime.Millisecond.
Definition TruncNano fn args := truncateDuration fn args GoTime.Microsecond.

(** The functions that truncate by a duration, each with the
    duration, from the finest on. *)
Definition truncations
  : list ((string -> list Primary -> result Primary) * Z) :=
  [(TruncNano, GoTime.Microsecond); (TruncMicro, GoTime.Millisecond);
   (TruncMilli, GoTime.Second); (TruncSecond, GoTime.Minute);
   (TruncMinute, GoTime.Hour)].

Definition execDatetimeAdd (fn : string) (args : list Primary)
    (timef : Time -> Z -> Time) : result Primary :=
  if negb (nargs args =? 2) then Err (FunctionArgumentLengthError fn [2])
  else
    match ToDatetime (arg args 0) with
    | None => Ok Null
    | Some dt =>
        match ToInteger (arg args 1) with
        | None => Ok Null
        | Some i => Ok (Datetime (timef dt i))
        end
    end.

(** [t.Add(dur * unit)]: the product is an [int64] and wraps. *)
Definition addHour (t : Time) (duration : Z) : Time :=
  GoTime.Add t (Int64.wrap (duration * GoTime.Hour)).
Definition addMinute (t : Time) (duration : Z) : Time :=
  GoTime.Add t (Int64.wrap (duration * GoTime.Minute)).
Definition addSecond (t : Time) (duration : Z) : Time :=
  GoTime.Add t (Int64.wrap (duration * GoTime.Second)).
Definition addMilli (t : Time) (duration : Z) : Time :=
  GoTime.Add t (Int64.wrap (duration * GoTime.Millisecond)).
Definition addMicro (t : Time) (duration : Z) : Time :=
  GoTime.Add t (Int64.wrap (duration * GoTime.Microsecond)).
Definition addNano (t : Time) (duration : Z) : Time :=
  GoTime.Add t (Int64.wrap (duration * GoTime.Nanosecond)).

Definition AddHour fn args := execDatetimeAdd fn args addHour.
Definition AddMinute fn args := execDatetimeAdd fn args addMinute.
Definition AddSecond fn args := execDatetimeAdd fn args addSecond.
Definition AddMilli fn args := execDatetimeAdd fn args addMilli.
Definition AddMicro fn args := execDatetimeAdd fn args addMicro.
Definition AddNano fn args := execDatetimeAdd fn args addNano.

(** The functions that shift by a duration, each with the unit. *)
Definition shifts
  : list ((string -> list Primary -> result Primary) * Z) :=
  [(AddHour, GoTime.Hour); (AddMinute, GoTime.Minute);
   (AddSecond, GoTime.Second); (AddMilli, GoTime.Millisecond);
   (AddMicro, GoTime.Microsecond); (AddNano, GoTime.Nanosecond)].

Definition timeDiff (fn : string) (args : list Primary)
    (durf : Z -> Primary) : result Primary :=
  if negb (nargs args =? 2) then Err (FunctionArgumentLengthError fn [2])
  else
    match ToDatetime (arg args 0) with
    | None => Ok Null
    | Some dt1 =>
        match ToDatetime (arg args 1) with
        | None => Ok Null
        | Some dt2 => Ok (durf (GoTime.Sub dt1 dt2))
        end
    end.

Definition durationNanoseconds (dur : Z) : Primary := Integer dur.

Definition TimeNanoDiff fn args := timeDiff fn args durationNanoseconds.

End Functions.

End TimeFunctions.
(** * Package [query]: shifting datetimes by calendar units *)

Module CalendarFunctions.

Import F64 GoString Value Query.

(** [t.Clock()], the hour, minute and second in which [t] falls in its
    location, beside the two functions of [TimeLib]. *)
Class ClockLib : Type := {
  Time_Clock : Time -> Z * Z * Z;
}.

Section Functions.

Context `{Conversions} `{TimeLib} `{ClockLib}.

(** [t.AddDate(years, months, days)] as the library defines it: the
    date and the clock of [t], shifted, go through [time.Date], which
    normalises them. *)
Definition AddDate (t : Time) (years months days : Z) : Time :=
  let '(year, month, day) := Time_Date t in
  let '(hour, min, sec) := Time_Clock t in
  time_Date (year + years) (month + months) (day + days) hour min sec
    (nsec t) (location t).

Definition addYear (t : Time) (duration : Z) : Time := AddDate t duration 0 0.
Definition addMonth (t : Time) (duration : Z) : Time := AddDate t 0 duration 0.
Definition addDay (t : Time) (duration : Z) : Time := AddDate t 0 0 duration.

Definition AddYear fn args := TimeFunctions.execDatetimeAdd fn args addYear.
Definition AddMonth fn args := TimeFunctions.execDatetimeAdd fn args addMonth.
Definition AddDay fn args := TimeFunctions.execDatetimeAdd fn args addDay.

End Functions.

(** The clock of the UTC calendar. *)
#[export] Instance utc_clock : ClockLib :=
  {| Time_Clock := fun t =>
       let '(h, mi, s, _) := UTCTime.Clock t in (h, mi, s) |}.

End CalendarFunctions.
(** * A sample datetime *)

Module SampleTimes.

Import Value.

(** 2012-02-03 09:18:15.123456789 in UTC. *)
Definition feb3 : Time := Query.UTCTime.mkDate 2012 2 3 9 18 15 123456789 "UTC".

End SampleTimes.

(** * Go's [strings]: [TrimRightFunc], [TrimSpace] and [Join] *)

Module StringsRight.

Import GoString Strings.

(** [s[i]], and the slices [s[i:]] and [s[:i]]. *)
Definition byte_at (s : string) (i : Z) : Z :=
  match String.get (Z.to_nat i) s with
  | Some a => byte_val a
  | None => 0
  end.

Fixpoint slice_from (i : nat) (s : string) : string :=
  match i, s with
  | O, _ => s
  | S i', String _ s' => slice_from i' s'
  | S _, EmptyString => EmptyString
  end.

Fixpoint slice_to (i : nat) (s : string) : string :=
  match i, s with
  | O, _ => EmptyString
  | S i', String a s' => String a (slice_to i' s')
  | S _, EmptyString => EmptyString
  end.

(** [utf8.RuneStart]: not a continuation byte. *)
Definition RuneStart (b : Z) : bool := negb (is_cont b).

(** The loop of [utf8.DecodeLastRuneInString] that looks for the start
    of the last rune, from [start] down to [lim]. *)
Fixpoint scan_back (fuel : nat) (s : string) (start lim : Z) : Z :=
  match fuel with
  | O => start
  | S fuel' =>
      if start <? lim then start
      else if RuneStart (byte_at s start) then start
      else scan_back fuel' s (start - 1) lim
  end.

(** [utf8.DecodeLastRuneInString]: the last rune of [s] and its width;
    [RuneError] of width 1 when the bytes at the end are no encoding,
    and of width 0 for the empty string. *)
Definition DecodeLastRuneInString (s : string) : rune * nat :=
  let end_ := len s in
  if end_ =? 0 then (RuneError, 0%nat)
  else
    let r := byte_at s (end_ - 1) in
    if r <? 128 then (r, 1%nat)
    else
      let lim := Z.max 0 (end_ - 4) in
      let start := scan_back 4 s (end_ - 2) lim in
      let start := Z.max 0 start in
      let '(r, size) := decode_rune (slice_from (Z.to_nat start) s) in
      if negb (start + Z.of_nat size =? end_) then (RuneError, 1%nat)
      else (r, size).

(** [lastIndexFunc(s, f, truth)]: the index of the last rune, read from
    the end, for which [f] answers [truth], or -1. *)
Fixpoint lastIndexFunc_from (fuel : nat) (s : string) (i : nat)
    (f : rune -> bool) (truth : bool) : Z :=
  match fuel with
  | O => -1
  | S fuel' =>
      match i with
      | O => -1
      | _ =>
          let '(r, size) := DecodeLastRuneInString (slice_to i s) in
          let i := (i - size)%nat in
          if Bool.eqb (f r) truth then Z.of_nat i
          else lastIndexFunc_from fuel' s i f truth
      end
  end.

Definition lastIndexFunc (s : string) (f : rune -> bool) (truth : bool) : Z :=
  lastIndexFunc_from (String.length s) s (String.length s) f truth.

(** [strings.TrimRightFunc]. *)
Definition TrimRightFunc (s : string) (f : rune -> bool) : string :=
  let i := lastIndexFunc s f false in
  let i :=
    if (0 <=? i) && (128 <=? byte_at s i)
    then i + Z.of_nat (snd (decode_rune (slice_from (Z.to_nat i) s)))
    else i + 1 in
  slice_to (Z.to_nat i) s.

(** [strings.TrimSpace]: white space is removed at both ends (the
    library goes through the ASCII characters by a shorter way to the
    same result). *)
Definition TrimSpace (s : string) : string :=
  TrimRightFunc (TrimLeftFunc s IsSpace) IsSpace.

(** [strings.Join]. *)
Fixpoint Join (elems : list string) (sep : string) : string :=
  match elems with
  | [] => ""
  | [e] => e
  | e :: rest => e +:+ sep +:+ Join rest sep
  end.

End StringsRight.


(** * [lib/action/run.go]: the interactive shell *)

Module Shell.

Import Action GoString Strings StringsRight.

(** What [Terminal.ReadLine] answers beside the end of the input: a
    line, or an error other than [io.EOF]. *)
Inductive ReadResult : Type :=
| ReadLine_line (line : string)
| ReadLine_error (e : error).

(** The calls [LaunchInteractiveShell] makes, in the order it makes
    them. [ShReadLine None] is a [ReadLine] that answered [io.EOF]. *)
Inductive ShellCall : Type :=
| ShNewTerminal (ok : bool)
| ShTeardown
| ShLog (msg : string)
| ShUpdateCompleter
| ShReadLine (r : option ReadResult)
| ShSetPrompt
| ShSetContinuousPrompt
| ShSaveHistory (query : string)
| ShParse (input : string) (ok : bool)
| ShExecute (flow : Flow) (err : option error)
| ShLogError (msg : string)
| ShRollback (err : option error)
| ShReleaseResourcesWithErrors (err : option error).

Definition is_ShRollback (c : ShellCall) : bool :=
  match c with ShRollback _ => true | _ => false end.
Definition is_ShExecute (c : ShellCall) : bool :=
  match c with ShExecute _ _ => true | _ => false end.
Definition is_ShReadLine (c : ShellCall) : bool :=
  match c with ShReadLine _ => true | _ => false end.
Definition is_ShParse (c : ShellCall) : bool :=
  match c with ShParse _ _ => true | _ => false end.

Definition StartUpMessage : string :=
  "csvq interactive shell" +:+ String "010"
    ("Press Ctrl+D or execute " +:+ String "034" ("EXIT;" +:+ String "034"
       (" to terminate this shell." +:+ String "010" (String "010" "")))).

Section Shell.

Context {Sess Stmt : Type}.

(** The collaborators of the shell beside those of [Run]: whether the
    standard input is a pipe, whether the terminal can be made, and
    whether an error is a [*query.ForcedExit]. *)
Class Console : Type := {
  cmd_IsReadableFromPipeOrRedirection : @Env Sess -> bool;
  query_NewTerminal : @Env Sess -> option error;
  is_ForcedExit : error -> bool;
}.

Context `{@Collaborators Sess Stmt} `{Console}.

(** State of the shell: the environment and the calls made so far. *)
Record ShellState : Type := mkShell { senv : @Env Sess; scalls : list ShellCall }.

Definition emit (c : ShellCall) (s : ShellState) : ShellState :=
  mkShell (senv s) (scalls s ++ [c]).

Definition ShLogError_ (msg : string) (s : ShellState) : ShellState :=
  mkShell (query_LogError msg (senv s)) (scalls s ++ [ShLogError msg]).

(** [line[len(line)-1]] and [line[:len(line)-1]]. *)
Definition last_byte (line : string) : Z := byte_at line (len line - 1).
Definition chop (line : string) : string :=
  slice_to (String.length line - 1) line.

(** [saveLines]: the lines that are not blank, without the white space
    around them. *)
Fixpoint save_lines (lines : list string) : list string :=
  match lines with
  | [] => []
  | l :: rest =>
      let s := TrimSpace l in
      if len s <? 1 then save_lines rest else s :: save_lines rest
  end.

(** The [for] loop of the shell over what [ReadLine] answers; when the
    answers are used up, [ReadLine] answers [io.EOF]. [lines] are the
    lines of the statement being typed. *)
Fixpoint shell_loop (script : list ReadResult) (lines : list string)
    (s : ShellState) : option error * ShellState :=
  let s := emit ShUpdateCompleter s in
  match script with
  | [] => (None, emit (ShReadLine None) s)
  | ReadLine_error e :: _ =>
      (Some e, emit (ShReadLine (Some (ReadLine_error e))) s)
  | ReadLine_line raw :: rest =>
      let s := emit (ShReadLine (Some (ReadLine_line raw))) s in
      let line := TrimRightFunc raw IsSpace in
      if (Z.of_nat (length lines) <? 1) && (len line <? 1) then
        shell_loop rest lines s
      else if (0 <? len line) && (last_byte line =? 92) then
        shell_loop rest (lines ++ [chop line]) (emit ShSetContinuousPrompt s)
      else
        let lines := lines ++ [line] in
        let saveQuery := Join (save_lines lines) " " in
        if (len saveQuery <? 1) || bool_decide (saveQuery = ";") then
          shell_loop rest [] (emit ShSetPrompt s)
        else
          let s := emit (ShSaveHistory saveQuery) s in
          let input := Join lines (String "010" "") in
          match parser_Parse input "" with
          | inr msg =>
              let s := emit (ShParse input false) s in
              let s := ShLogError_ (error_text (SyntaxError msg)) s in
              shell_loop rest [] (emit ShSetPrompt s)
          | inl statements =>
              let s := emit (ShParse input true) s in
              let '((flow, e), env') := proc_Execute statements (senv s) in
              let s := mkShell env' (scalls s ++ [ShExecute flow e]) in
              match e with
              | Some e =>
                  if is_ForcedExit e then (Some e, s)
                  else
                    let s := ShLogError_ (error_text e) s in
                    shell_loop rest [] (emit ShSetPrompt s)
              | None =>
                  if bool_decide (flow = Exit) then (None, s)
                  else shell_loop rest [] (emit ShSetPrompt s)
              end
          end
  end.

(** A line that goes on: after the white space at its end is removed
    it ends in a backslash. The shell keeps it without the backslash. *)
Definition continued (raw : string) : Prop :=
  let line := TrimRightFunc raw IsSpace in
  0 < len line /\ last_byte line = 92.

Definition kept (raw : string) : string := chop (TrimRightFunc raw IsSpace).

(** The calls of the shell while it reads lines that go on. *)
Definition continued_calls (raws : list string) : list ShellCall :=
  raws ≫= (fun raw => [ShUpdateCompleter;
                        ShReadLine (Some (ReadLine_line raw));
                        ShSetContinuousPrompt]).

(** The calls that belong to the loop of the shell, or are a Rollback. *)
Definition reads_or_runs (c : ShellCall) : bool :=
  is_ShExecute c || is_ShReadLine c || is_ShParse c || is_ShRollback c.

(** The first deferred closure: Rollback and the release of the
    resources, each error logged. *)
Definition shell_cleanup (s : ShellState) : ShellState :=
  let '(e, env1) := query_Rollback (senv s) in
  let s := mkShell env1 (scalls s ++ [ShRollback e]) in
  let s := match e with Some e => ShLogError_ (error_text e) s | None => s end in
  let '(err, env2) := query_ReleaseResourcesWithErrors (senv s) in
  let s := mkShell env2 (scalls s ++ [ShReleaseResourcesWithErrors err]) in
  match err with Some err => ShLogError_ (error_text err) s | None => s end.

Definition LaunchInteractiveShell (script : list ReadResult) (s : ShellState)
  : option error * ShellState :=
  if cmd_IsReadableFromPipeOrRedirection (senv s) then
    (Some (ErrorsNew
             "input from pipe or redirection cannot be used in interactive shell"),
     s)
  else
    let '(r, s) :=
      match query_NewTerminal (senv s) with
      | Some err => (Some err, emit (ShNewTerminal false) s)
      | None =>
          let s := emit (ShNewTerminal true) s in
          let s := mkShell (query_Log StartUpMessage (senv s))
                     (scalls s ++ [ShLog StartUpMessage]) in
          let '(r, s) := shell_loop script [] s in
          (r, emit ShTeardown s)
      end in
    (r, shell_cleanup s).

End Shell.

End Shell.


(** * A console to run the shell at *)

Module ToyConsole.

Import Action Shell.

(** The statements of [Toy] and two more: EXIT ends the shell and
    EXIT 1 ends it with a forced exit. *)
Definition parse (input sourceFile : string) : list string + string :=
  if GoString.HasPrefix input "EXIT" then inl [input]
  else Toy.parse input sourceFile.

Definition execute (stmts : list string) (e : @Env Toy.Sess)
  : (Flow * option error) * @Env Toy.Sess :=
  if bool_decide ("EXIT 1;" ∈ stmts) then ((Exit, Some (QueryError "exit 1")), e)
  else if bool_decide ("EXIT;" ∈ stmts) then ((Exit, None), e)
  else @proc_Execute _ _ Toy.collaborators stmts e.

#[export] Instance collaborators : @Collaborators Toy.Sess string := {|
  parser_Parse := parse;
  filepath_Abs := @filepath_Abs _ _ Toy.collaborators;
  file_Create_error := @file_Create_error _ _ Toy.collaborators;
  proc_Execute := execute;
  query_Commit := @query_Commit _ _ Toy.collaborators;
  query_Rollback := @query_Rollback _ _ Toy.collaborators;
  query_ReleaseResourcesWithErrors :=
    @query_ReleaseResourcesWithErrors _ _ Toy.collaborators;
  query_LogError := @query_LogError _ _ Toy.collaborators;
  query_Log := @query_Log _ _ Toy.collaborators;
  error_text := @error_text _ _ Toy.collaborators;
  flags_Stats := @flags_Stats _ _ Toy.collaborators;
  stats_report := @stats_report _ _ Toy.collaborators;
|}.

(** The standard input is a terminal, the terminal can be made, and
    the error of the statement EXIT 1 is the forced exit. *)
#[export] Instance console : @Console Toy.Sess := {|
  cmd_IsReadableFromPipeOrRedirection := fun _ => false;
  query_NewTerminal := fun _ => None;
  is_ForcedExit := fun e =>
    match e with
    | QueryError msg => bool_decide (msg = "exit 1")
    | _ => false
    end;
|}.

Definition shell0 : @ShellState Toy.Sess := mkShell Toy.env0 [].

(** A statement typed over two lines. *)
Definition typed : list string := ["SELECT id \  "].
Definition typed_last : string := "FROM users; ".

End ToyConsole.


(** * Properties *)

Module ActionFacts.

Import Action.

Section RunFacts.

Context {Sess Stmt : Type} `{!@Collaborators Sess Stmt}.

Ltac unfold_run :=
  unfold Run, Run_body, execute_and_commit, run_defers, run_deferred, showStats,
    Exists, Create, SetOutFile, StatSize, Remove, Close, LogError,
    call, call_, log, bind, ret.

(** One case split on the next answer of a collaborator that the goal
    depends on. *)
Ltac split_call :=
  match goal with
  | |- context [parser_Parse ?a ?b] => destruct (parser_Parse a b) eqn:?
  | |- context [proc_Execute ?a ?b] =>
      destruct (proc_Execute a b) as [[? [?|]] ?] eqn:?
  | |- context [query_Commit ?a] => destruct (query_Commit a) as [[?|] ?] eqn:?
  | |- context [query_Rollback ?a] => destruct (query_Rollback a) as [[?|] ?] eqn:?
  | |- context [query_ReleaseResourcesWithErrors ?a] =>
      destruct (query_ReleaseResourcesWithErrors a) as [[?|] ?] eqn:?
  | |- context [file_Create_error ?a ?b] => destruct (file_Create_error a b) eqn:?
  | |- context [flags_Stats ?a] => destruct (flags_Stats a) eqn:?
  | |- context [bool_decide ?P] => destruct (bool_decide P) eqn:?
  | |- context [@lookup _ _ _ _ ?k ?m] => destruct (@lookup _ _ _ _ k m) eqn:?
  | |- context [if ?x then _ else _] => destruct x eqn:?
  end.

Ltac run_cases := unfold_run; simpl; repeat (split_call; simpl in * ).

(** Where the Rollback sits in an explicit trace. *)
Ltac find_rollback :=
  first
    [ eexists [], _, _; split; [reflexivity|]
    | eexists [_], _, _; split; [reflexivity|]
    | eexists [_; _], _, _; split; [reflexivity|]
    | eexists [_; _; _], _, _; split; [reflexivity|]
    | eexists [_; _; _; _], _, _; split; [reflexivity|]
    | eexists [_; _; _; _; _], _, _; split; [reflexivity|]
    | eexists [_; _; _; _; _; _], _, _; split; [reflexivity|]
    | eexists [_; _; _; _; _; _; _], _, _; split; [reflexivity|]
    | eexists [_; _; _; _; _; _; _; _], _, _; split; [reflexivity|]
    | eexists [_; _; _; _; _; _; _; _; _], _, _; split; [reflexivity|]
    | eexists [_; _; _; _; _; _; _; _; _; _], _, _; split; [reflexivity|] ].

Ltac in_trace :=
  repeat match goal with
         | H : In _ _ |- _ => simpl in H
         | H : _ \/ _ |- _ => destruct H
         | H : False |- _ => destruct H
         | H : @eq Call _ _ |- _ => discriminate H || (injection H as ?; subst)
         | H : @eq Flow _ _ |- _ => discriminate H
         | H : @eq (option error) _ _ |- _ => discriminate H || (injection H as ?; subst)
         end.

(** The trace of a run has one Rollback, after which nothing is executed
    or committed. *)
Lemma Run_rollback_last input sourceFile outfile e0 :
  exists pre e post,
    calls (snd (Run input sourceFile outfile (mkRun e0 []))) = pre ++ CallRollback e :: post /\
    existsb is_CallRollback pre = false /\
    existsb is_CallCommit post = false /\
    existsb is_CallExecute post = false.
Proof.
  run_cases; find_rollback; repeat split; reflexivity.
Qed.

Lemma Run_commit_iff input sourceFile outfile e0 :
  existsb is_CallCommit (calls (snd (Run input sourceFile outfile (mkRun e0 [])))) = true
  <-> In (CallExecute Terminate None)
         (calls (snd (Run input sourceFile outfile (mkRun e0 [])))).
Proof.
  run_cases;
    repeat match goal with
           | H : bool_decide _ = false |- _ => apply bool_decide_eq_false in H
           | H : bool_decide _ = true |- _ => apply bool_decide_eq_true in H
           end; subst;
    (split; intros Hx; [try discriminate Hx | try reflexivity]);
    simpl; try tauto; in_trace; congruence.
Qed.

Lemma Run_error_no_commit input sourceFile outfile e0 flow e :
  In (CallExecute flow (Some e))
     (calls (snd (Run input sourceFile outfile (mkRun e0 [])))) ->
  fst (Run input sourceFile outfile (mkRun e0 [])) = Some e /\
  existsb is_CallCommit (calls (snd (Run input sourceFile outfile (mkRun e0 [])))) = false.
Proof.
  run_cases; intros Hx; in_trace; split; reflexivity.
Qed.


(** The environment the clean-up leaves does not depend on the calls
    logged before it. *)
Lemma cleanup_env e c c' :
  env (snd (run_deferred DeferCleanup (mkRun e c)))
  = env (snd (run_deferred DeferCleanup (mkRun e c'))).
Proof. run_cases; reflexivity. Qed.

Lemma cleanup_keeps path e c :
  cleanup_keeps_file path ->
  disk (env (snd (run_deferred DeferCleanup (mkRun e c)))) !! path = disk e !! path.
Proof.
  intros (Hrb & Hrel & Hlog & Hst). unfold keeps_file in *.
  unfold_run; simpl.
  pose proof (Hrb e) as Hrb'.
  destruct (query_Rollback e) as [[e1|] w1]; simpl in *.
  - pose proof (Hrel (query_LogError (error_text e1) w1)) as Hrel'.
    destruct (query_ReleaseResourcesWithErrors _) as [[e2|] w2]; simpl in *;
      destruct (flags_Stats _); simpl;
      rewrite ?Hst, ?Hlog, ?Hrel', ?Hlog; exact Hrb'.
  - pose proof (Hrel w1) as Hrel'.
    destruct (query_ReleaseResourcesWithErrors _) as [[e2|] w2]; simpl in *;
      destruct (flags_Stats _); simpl;
      rewrite ?Hst, ?Hlog, ?Hrel'; exact Hrb'.
Qed.


End RunFacts.

Import Toy.




End ActionFacts.

Module MathFacts.

Import F64 Value Query.

Section Rounding.

Context `{Conversions} `{MathPow}.

(** With one argument that is a float, the place is 0 and the power 1. *)
Lemma Round_float fn x :
  Round fn [Float x] = Ok (ParseFloat64 (round x zero)).
Proof.
  unfold Round, roundParams. cbn [nargs length arg nth].
  rewrite ToFloat_Float. reflexivity.
Qed.

Lemma Round_float_place fn x i :
  Round fn [Float x; Integer i] = Ok (ParseFloat64 (round x (of_Z i))).
Proof.
  unfold Round, roundParams. cbn [nargs length arg nth].
  rewrite ToFloat_Float, ToInteger_Integer. reflexivity.
Qed.

Lemma round_place_0 x :
  round x zero =
  if ltb x zero then div (F64.Ceil (sub (mul one x) half)) one
  else div (F64.Floor (add (mul one x) half)) one.
Proof. unfold round. rewrite math_Pow_zero. reflexivity. Qed.

Lemma round_place_1 x :
  round x (of_Z 1) =
  if ltb x zero then div (F64.Ceil (sub (mul ten x) half)) ten
  else div (F64.Floor (add (mul ten x) half)) ten.
Proof. unfold round. change (of_Z 1) with one. rewrite math_Pow_one. reflexivity. Qed.

Lemma Round_null_first fn b : Round fn [Null; b] = Ok Null.
Proof.
  unfold Round, roundParams. cbn [nargs length arg nth].
  rewrite ToFloat_Null. reflexivity.
Qed.

Lemma Round_null_place fn a : Round fn [a; Null] = Ok Null.
Proof.
  unfold Round, roundParams. cbn [nargs length arg nth].
  rewrite ToInteger_Null. destruct (ToFloat a); reflexivity.
Qed.

Lemma Round_null fn : Round fn [Null] = Ok Null.
Proof.
  unfold Round, roundParams. cbn [nargs length arg nth].
  rewrite ToFloat_Null. reflexivity.
Qed.

(** C2. ROUND on the three inputs of the spec, on Null, and on two
    inputs where it does not round half away from zero: the largest
    float below one half is rounded to 1 and the integer 2^52 + 1 to
    2^52 + 2, because the sum with 0.5 is itself rounded. *)
Theorem Round_examples_and_defect fn :
  Round fn [Float (of_decimal 25 1)] = Ok (ParseFloat64 (of_Z 3)) /\
  Round fn [Float (opp (of_decimal 25 1))] = Ok (ParseFloat64 (of_Z (-3))) /\
  Round fn [Float (of_decimal 215 2); Integer 1]
    = Ok (ParseFloat64 (of_decimal 22 1)) /\
  Round fn [Null] = Ok Null /\
  (forall b, Round fn [Null; b] = Ok Null) /\
  (forall a, Round fn [a; Null] = Ok Null) /\
  ltb below_half half = true /\
  Round fn [Float below_half] = Ok (ParseFloat64 (of_Z 1)) /\
  Round fn [Float (of_Z (2 ^ 52 + 1))] = Ok (ParseFloat64 (of_Z (2 ^ 52 + 2))).
Proof.
  repeat split.
  - rewrite Round_float, round_place_0. f_equal.
  - rewrite Round_float, round_place_0. f_equal.
  - rewrite Round_float_place, round_place_1. f_equal.
  - apply Round_null.
  - intros b. apply Round_null_first.
  - intros a. apply Round_null_place.
  - rewrite Round_float, round_place_0. f_equal.
  - rewrite Round_float, round_place_0. f_equal.
Qed.

End Rounding.

Section MathFamily.

Context `{Conversions} `{MathPow} `{MathLib}.

(** What a function of one float argument answers through
    [execMath1Arg]: Null for an argument that is not a float, Null for a
    result that is infinite or NaN, and the result otherwise. *)
Lemma execMath1Arg_spec fn a mathf :
  execMath1Arg fn [a] mathf =
  match ToFloat a with
  | None => Ok Null
  | Some x => if is_finite (mathf x) then Ok (ParseFloat64 (mathf x)) else Ok Null
  end.
Proof.
  unfold execMath1Arg, is_finite. cbn [nargs length arg nth Z.of_nat].
  change (negb (1 =? 1)) with false. cbv iota.
  destruct (ToFloat a) as [x|]; [|reflexivity].
  destruct (mathf x) as [s|s| |s m e]; reflexivity.
Qed.

Lemma execMath2Args_spec fn a b mathf :
  execMath2Args fn [a; b] mathf =
  match ToFloat a, ToFloat b with
  | Some x, Some y =>
      if is_finite (mathf x y) then Ok (ParseFloat64 (mathf x y)) else Ok Null
  | _, _ => Ok Null
  end.
Proof.
  unfold execMath2Args, is_finite. cbn [nargs length arg nth Z.of_nat].
  change (negb (2 =? 2)) with false. cbv iota.
  destruct (ToFloat a) as [x|]; [|reflexivity].
  destruct (ToFloat b) as [y|]; [|reflexivity].
  destruct (mathf x y) as [s|s| |s m e]; reflexivity.
Qed.

Lemma Ceil_float_place fn x i :
  Ceil fn [Float x; Integer i] =
  Ok (ParseFloat64 (div (F64.Ceil (mul (math_Pow ten (of_Z i)) x))
                        (math_Pow ten (of_Z i)))).
Proof.
  unfold Ceil, roundParams. cbn [nargs length arg nth].
  rewrite ToFloat_Float, ToInteger_Integer. reflexivity.
Qed.

Lemma Floor_float_place fn x i :
  Floor fn [Float x; Integer i] =
  Ok (ParseFloat64 (div (F64.Floor (mul (math_Pow ten (of_Z i)) x))
                        (math_Pow ten (of_Z i)))).
Proof.
  unfold Floor, roundParams. cbn [nargs length arg nth].
  rewrite ToFloat_Float, ToInteger_Integer. reflexivity.
Qed.

Lemma Ceil_null fn : Ceil fn [Null] = Ok Null.
Proof.
  unfold Ceil, roundParams. cbn [nargs length arg nth].
  rewrite ToFloat_Null. reflexivity.
Qed.

Lemma Floor_null fn : Floor fn [Null] = Ok Null.
Proof.
  unfold Floor, roundParams. cbn [nargs length arg nth].
  rewrite ToFloat_Null. reflexivity.
Qed.

(** C5. The math functions that go through [execMath1Arg] and
    [execMath2Args] answer Null for an argument that converts to Null
    and for a result that is infinite or NaN. CEIL, FLOOR and ROUND
    answer Null for a Null argument, but hand a result that is not
    finite to [ParseFloat64] like any other: for 1e308 and one decimal
    place the result is +Inf. *)
Theorem math_functions_null_and_nonfinite fn :
  Forall (fun '(F, mathf) =>
            forall a,
              F fn [a] =
              match ToFloat a with
              | None => Ok Null
              | Some x =>
                  if is_finite (mathf x) then Ok (ParseFloat64 (mathf x))
                  else Ok Null
              end) one_arg_math /\
  Forall (fun '(F, mathf) =>
            forall a b,
              F fn [a; b] =
              match ToFloat a, ToFloat b with
              | Some x, Some y =>
                  if is_finite (mathf x y) then Ok (ParseFloat64 (mathf x y))
                  else Ok Null
              | _, _ => Ok Null
              end) two_arg_math /\
  Ceil fn [Null] = Ok Null /\ Floor fn [Null] = Ok Null /\
  Round fn [Null] = Ok Null /\
  Ceil fn [Float (of_Z (10 ^ 308)); Integer 1] = Ok (ParseFloat64 inf) /\
  Floor fn [Float (of_Z (10 ^ 308)); Integer 1] = Ok (ParseFloat64 inf) /\
  Round fn [Float (of_Z (10 ^ 308)); Integer 1] = Ok (ParseFloat64 inf) /\
  is_finite (of_Z (10 ^ 308)) = true /\ is_finite inf = false.
Proof.
  split; [|split].
  - unfold one_arg_math.
    repeat (constructor; [intros a; apply execMath1Arg_spec|]).
    constructor.
  - unfold two_arg_math.
    repeat (constructor; [intros a b; apply execMath2Args_spec|]).
    constructor.
  - split; [apply Ceil_null|]. split; [apply Floor_null|].
    split; [apply Round_null|].
    split; [|split; [|split]].
    + rewrite Ceil_float_place. change (of_Z 1) with one.
      rewrite math_Pow_one. f_equal.
    + rewrite Floor_float_place. change (of_Z 1) with one.
      rewrite math_Pow_one. f_equal.
    + rewrite Round_float_place, round_place_1. f_equal.
    + split; reflexivity.
Qed.

End MathFamily.

Import Strict GoMath.

(** C5 at the failing input with the conversions run: CEIL(1e308, 1) is
    the Float +Inf, and ROUND(1, 400) is the Float NaN. *)
Lemma Ceil_returns_infinity :
  Ceil "CEIL" [Float (of_Z (10 ^ 308)); Integer 1] = Ok (Float inf) /\
  Round "ROUND" [Float (of_Z 1); Integer 400] = Ok (Float nan).
Proof. split; vm_compute; reflexivity. Qed.

(** C2 at the failing inputs with the conversions run. *)
Lemma Round_below_half_is_one :
  Round "ROUND" [Float below_half] = Ok (Integer 1) /\
  Round "ROUND" [Float (of_decimal 25 1)] = Ok (Integer 3) /\
  Round "ROUND" [Float (of_decimal 1005 3); Integer 2] = Ok (Integer 1).
Proof. repeat split; vm_compute; reflexivity. Qed.

End MathFacts.

Module RandFacts.

Import F64 Value Query.

Lemma wrap_in_range z : Int64.in_range z -> Int64.wrap z = z.
Proof.
  unfold Int64.in_range, Int64.wrap, Int64.MinInt64, Int64.MaxInt64.
  intros Hz. rewrite Z.mod_small; lia.
Qed.

Section RandContract.

Context `{Conversions} `{RandLib}.

Lemma Rand_no_args fn r :
  exists f r', Rand fn [] r = (Ok (Float f), r') /\
               leb zero f = true /\ ltb f one = true.
Proof.
  unfold Rand. cbn [nargs length Z.of_nat].
  change ((0 <? 0) && negb (0 =? 2)) with false. cbv iota.
  change (0 =? 0) with true. cbv iota.
  pose proof (rand_Float64_range r) as Hr.
  destruct (rand_Float64 r) as [f r']. cbn [fst] in Hr.
  exists f, r'. split; [reflexivity | exact Hr].
Qed.

Lemma Rand_wrong_length fn args r :
  length args <> 0%nat -> length args <> 2%nat ->
  Rand fn args r = (Err (FunctionArgumentLengthError fn [0; 2]), r).
Proof.
  intros Hn0 Hn2. unfold Rand, nargs.
  replace ((0 <? Z.of_nat (length args)) && negb (Z.of_nat (length args) =? 2))
    with true; [reflexivity|].
  symmetry. apply andb_true_iff. split.
  - apply Z.ltb_lt. lia.
  - apply negb_true_iff, Z.eqb_neq. lia.
Qed.

Lemma Rand_two fn a b r :
  Rand fn [a; b] r =
  match ToInteger a with
  | None =>
      (Err (FunctionInvalidArgumentError fn "the first argument must be an integer"), r)
  | Some low =>
      match ToInteger b with
      | None =>
          (Err (FunctionInvalidArgumentError fn "the second argument must be an integer"), r)
      | Some high =>
          if high <=? low then
            (Err (FunctionInvalidArgumentError fn
                    "the second argument must be greater than the first argument"), r)
          else
            let delta := Int64.add (Int64.sub high low) 1 in
            if delta <=? 0 then (Panic "invalid argument to Int63n", r)
            else let '(n, r') := rand_Int63n delta r in
                 (Ok (Integer (Int64.add n low)), r')
      end
  end.
Proof. reflexivity. Qed.

Lemma Rand_in_range fn a b low high r :
  ToInteger a = Some low -> ToInteger b = Some high ->
  Int64.in_range low -> Int64.in_range high ->
  low < high -> high - low < Int64.MaxInt64 ->
  exists n r', Rand fn [a; b] r = (Ok (Integer n), r') /\ low <= n <= high.
Proof.
  intros Ha Hb Hlo Hhi Hlt Hfit.
  rewrite Rand_two, Ha, Hb.
  destruct (Z.leb_spec high low) as [Hle|_]; [lia|].
  cbv zeta. unfold Int64.add, Int64.sub.
  unfold Int64.in_range, Int64.MinInt64, Int64.MaxInt64 in *.
  rewrite (wrap_in_range (high - low))
    by (unfold Int64.in_range, Int64.MinInt64, Int64.MaxInt64; lia).
  rewrite (wrap_in_range (high - low + 1))
    by (unfold Int64.in_range, Int64.MinInt64, Int64.MaxInt64; lia).
  destruct (Z.leb_spec (high - low + 1) 0) as [Hle|_]; [lia|].
  pose proof (rand_Int63n_range (high - low + 1) r ltac:(lia)) as Hn.
  destruct (rand_Int63n (high - low + 1) r) as [n r']. cbn [fst] in Hn.
  exists (Int64.wrap (n + low)), r'. split; [reflexivity|].
  rewrite wrap_in_range
    by (unfold Int64.in_range, Int64.MinInt64, Int64.MaxInt64; lia).
  lia.
Qed.

(** C8. RAND without arguments answers a Float in [[0, 1)]; with two
    arguments it raises the invalid-argument error for an argument that
    is not an integer and for [high <= low], and answers an Integer
    between them when [high - low + 1] fits an [int64]; with another
    number of arguments it raises the argument-length error. When
    [high - low + 1] does not fit, it panics: RAND(0, 9223372036854775807). *)
Theorem Rand_contract fn r :
  (exists f r', Rand fn [] r = (Ok (Float f), r') /\
                leb zero f = true /\ ltb f one = true) /\
  (forall a b, ToInteger a = None ->
     Rand fn [a; b] r =
     (Err (FunctionInvalidArgumentError fn "the first argument must be an integer"), r)) /\
  (forall a b low, ToInteger a = Some low -> ToInteger b = None ->
     Rand fn [a; b] r =
     (Err (FunctionInvalidArgumentError fn "the second argument must be an integer"), r)) /\
  (forall a b low high, ToInteger a = Some low -> ToInteger b = Some high ->
     high <= low ->
     Rand fn [a; b] r =
     (Err (FunctionInvalidArgumentError fn
             "the second argument must be greater than the first argument"), r)) /\
  (forall a b low high, ToInteger a = Some low -> ToInteger b = Some high ->
     Int64.in_range low -> Int64.in_range high ->
     low < high -> high - low < Int64.MaxInt64 ->
     exists n r', Rand fn [a; b] r = (Ok (Integer n), r') /\ low <= n <= high) /\
  (forall args, length args <> 0%nat -> length args <> 2%nat ->
     Rand fn args r = (Err (FunctionArgumentLengthError fn [0; 2]), r)) /\
  Rand fn [Integer 0; Integer Int64.MaxInt64] r
    = (Panic "invalid argument to Int63n", r).
Proof.
  split; [apply Rand_no_args|].
  split; [intros a b Ha; rewrite Rand_two, Ha; reflexivity|].
  split; [intros a b low Ha Hb; rewrite Rand_two, Ha, Hb; reflexivity|].
  split.
  { intros a b low high Ha Hb Hle. rewrite Rand_two, Ha, Hb.
    destruct (Z.leb_spec high low); [reflexivity | lia]. }
  split; [intros a b low high; apply Rand_in_range|].
  split; [intros args; apply Rand_wrong_length|].
  rewrite Rand_two, !ToInteger_Integer. reflexivity.
Qed.

End RandContract.

Import Strict Counter.

(** C8 run with the counter: RAND(1, 6) from state 10 is 5. *)
Lemma Rand_contract_witness :
  Rand "RAND" [Integer 1; Integer 6] (10 : RandState) = (Ok (Integer 5), 11) /\
  (exists n r', Rand "RAND" [Integer 1; Integer 6] (10 : RandState)
                = (Ok (Integer n), r') /\ 1 <= n <= 6).
Proof.
  split; [reflexivity|].
  pose proof (@Rand_contract Strict.conversions Counter.randlib "RAND" 10) as H.
  destruct H as (_ & _ & _ & _ & H & _).
  apply (H (Integer 1) (Integer 6) 1 6 eq_refl eq_refl);
    unfold Int64.in_range, Int64.MinInt64, Int64.MaxInt64; lia.
Defined.

End RandFacts.

Module DatetimeFacts.

Import F64 Value Query UTCTime.

Lemma year_of_era doe :
  0 <= doe < 146097 ->
  let yoe := (doe - doe / 1460 + doe / 36524 - doe / 146096) / 365 in
  0 <= yoe <= 399 /\ 0 <= doe - (365 * yoe + yoe / 4 - yoe / 100) <= 365.
Proof.
  intros Hd yoe. subst yoe.
  assert (Hc : doe / 146096 = 0 \/ doe = 146096)
    by (Z.div_mod_to_equations; lia).
  destruct Hc as [Hc| ->]; [|vm_compute; intuition congruence].
  rewrite Hc.
  assert (Hb : doe / 36524 = 0 \/ doe / 36524 = 1 \/
               doe / 36524 = 2 \/ doe / 36524 = 3)
    by (Z.div_mod_to_equations; lia).
  destruct Hb as [Hb|[Hb|[Hb|Hb]]]; rewrite Hb;
    Z.div_mod_to_equations; lia.
Qed.

Lemma month_of_day doy :
  0 <= doy <= 365 ->
  let mp := (5 * doy + 2) / 153 in
  0 <= mp <= 11 /\ 1 <= doy - (153 * mp + 2) / 5 + 1 <= 31.
Proof. intros Hd mp. subst mp. Z.div_mod_to_equations. lia. Qed.

(** The days of a date are the days the date was computed from, and the
    month of a date lies in 1..12. *)
Lemma civil_roundtrip z :
  let '(y, m, d) := civil_from_days z in
  days_from_civil y m d = z /\ 1 <= m <= 12.
Proof.
  unfold civil_from_days.
  set (era := (z + 719468) / 146097).
  set (doe := z + 719468 - era * 146097).
  assert (Hdoe : 0 <= doe < 146097)
    by (subst doe era; Z.div_mod_to_equations; lia).
  pose proof (year_of_era doe Hdoe) as Hy. cbv zeta in Hy.
  set (yoe := (doe - doe / 1460 + doe / 36524 - doe / 146096) / 365) in *.
  destruct Hy as [Hyoe Hdoy].
  set (doy := doe - (365 * yoe + yoe / 4 - yoe / 100)) in *.
  pose proof (month_of_day doy Hdoy) as Hm. cbv zeta in Hm.
  set (mp := (5 * doy + 2) / 153) in *.
  destruct Hm as [Hmp Hd].
  set (d := doy - (153 * mp + 2) / 5 + 1) in *.
  assert (Hera : forall y, y = yoe + era * 400 ->
                 y / 400 = era /\ y - y / 400 * 400 = yoe).
  { intros y ->. assert (E : (yoe + era * 400) / 400 = era)
      by (Z.div_mod_to_equations; lia). rewrite E. lia. }
  assert (Hback : forall m,
             (m + 9) mod 12 = mp ->
             forall y, y = yoe + era * 400 ->
             (y / 400) * 146097 +
             ((y - y / 400 * 400) * 365 + (y - y / 400 * 400) / 4
              - (y - y / 400 * 400) / 100
              + ((153 * ((m + 9) mod 12) + 2) / 5 + d - 1)) - 719468 = z).
  { intros m Hmm y Hyy. destruct (Hera y Hyy) as [-> ->]. rewrite Hmm.
    subst d doy doe. lia. }
  unfold days_from_civil.
  destruct (mp <? 10) eqn:Emp.
  - apply Z.ltb_lt in Emp.
    destruct (mp + 3 <=? 2) eqn:E2; [apply Z.leb_le in E2; lia|].
    split; [|lia]. apply Hback; [|reflexivity].
    Z.div_mod_to_equations; lia.
  - apply Z.ltb_ge in Emp.
    destruct (mp - 9 <=? 2) eqn:E2; [|apply Z.leb_gt in E2; lia].
    split; [|lia].
    replace (yoe + era * 400 + 1 - 1) with (yoe + era * 400) by lia.
    apply Hback; [|reflexivity].
    Z.div_mod_to_equations; lia.
Qed.

(** In the UTC calendar a datetime built from a date at 00:00:00.0 shows
    that date and that time of day. *)
Lemma mkDate_midnight z loc :
  let '(y, m, d) := civil_from_days z in
  let t' := mkDate y m d 0 0 0 0 loc in
  Date t' = civil_from_days z /\ Clock t' = (0, 0, 0, 0).
Proof.
  pose proof (civil_roundtrip z) as Hrt.
  destruct (civil_from_days z) as [[y m] d] eqn:Ez.
  destruct Hrt as [Hdays Hm]. cbv zeta.
  unfold mkDate, Date, Clock. cbn [unixSec nsec].
  assert (E1 : (m - 1) / 12 = 0) by (Z.div_mod_to_equations; lia).
  assert (E2 : (m - 1) mod 12 + 1 = m) by (Z.div_mod_to_equations; lia).
  rewrite E1, E2. replace (y + 0) with y by lia. rewrite Hdays.
  change (0 / 1000000000) with 0. change (0 mod 1000000000) with 0.
  replace (z * 86400 + 0 * 3600 + 0 * 60 + 0 + 0) with (z * 86400) by lia.
  rewrite Z.div_mul by lia. rewrite Z.mod_mul by lia.
  split; [exact Ez | reflexivity].
Qed.

Section Truncation.

Context `{Conversions} `{TimeLib}.

Lemma TruncTime_spec fn a :
  TruncTime fn [a] =
  match ToDatetime a with
  | None => Ok Null
  | Some t =>
      let '(y, m, d) := Time_Date t in
      Ok (Datetime (time_Date y m d 0 0 0 0 (location t)))
  end.
Proof.
  unfold TruncTime, truncateDate. cbn [nargs length arg nth Z.of_nat].
  change (negb (1 =? 1)) with false. cbv iota.
  destruct (ToDatetime a) as [t|]; [|reflexivity].
  destruct (Time_Date t) as [[y m] d]. reflexivity.
Qed.

End Truncation.


End DatetimeFacts.

Module FlagFacts.

Import F64 GoString Value Statement.

Section SetFlagErrors.

Context {Flags Filter Expr : Type} {conv : Conversions}
  {lib : @FlagsLib Flags Filter Expr}.

(** The [default] case of the first [switch] is taken exactly for the
    names outside the 24 flags. *)
Lemma convert_for_flag_None name p :
  convert_for_flag name p = None <-> name ∉ all_flags.
Proof.
  unfold convert_for_flag, is_case, all_flags.
  rewrite !not_elem_of_app.
  assert (Hlast : (name ∉ [WaitTimeoutFlag; CPUFlag])
                  <-> (name ∉ [WaitTimeoutFlag]) /\ (name ∉ [CPUFlag])).
  { rewrite !not_elem_of_cons. tauto. }
  rewrite Hlast.
  repeat case_bool_decide; split; intros Hx;
    first [discriminate Hx | reflexivity | tauto].
Qed.

Lemma SetFlag_value_unknown expr p w :
  ToUpper (Name expr) ∉ all_flags ->
  SetFlag_value expr p w = (Returned (Some (InvalidFlagNameError (Name expr))), w).
Proof.
  intros Hn. apply (convert_for_flag_None _ p) in Hn.
  unfold SetFlag_value. rewrite Hn. reflexivity.
Qed.

Lemma SetFlag_value_null expr p w :
  convert_for_flag (ToUpper (Name expr)) p = Some Null ->
  SetFlag_value expr p w = (Returned (Some FlagValueNotAllowedFormatError), w).
Proof. intros Hc. unfold SetFlag_value. rewrite Hc. reflexivity. Qed.


End SetFlagErrors.

Import Strict ToyFlags.


End FlagFacts.

Module GoStringFacts.

Import GoString.

(** ** [strings.Index] finds the first occurrence *)

Lemma HasPrefix_true s sub :
  HasPrefix s sub = true <-> exists post, s = sub +:+ post.
Proof.
  revert s. induction sub as [|b sub IH]; intros s; cbn [HasPrefix].
  - split; [intros _; now exists s | reflexivity].
  - destruct s as [|a s].
    + split; [discriminate | intros [post Hp]; discriminate Hp].
    + rewrite andb_true_iff, bool_decide_eq_true, IH. split.
      * intros [-> [post ->]]. now exists post.
      * intros [post Hp]. cbn in Hp. injection Hp as -> ->. split; [reflexivity|now exists post].
Qed.

Lemma len_nonneg s : 0 <= len s.
Proof. unfold len. lia. Qed.

Lemma occurs_at_0 s sub : occurs_at s sub 0 <-> HasPrefix s sub = true.
Proof.
  rewrite HasPrefix_true. unfold occurs_at. split.
  - intros (pre & post & -> & Hl). destruct pre; [|unfold len in Hl; cbn in Hl; lia].
    now exists post.
  - intros [post ->]. exists "", post. split; reflexivity.
Qed.

Lemma occurs_at_cons a s sub i :
  0 <= i -> (occurs_at (String a s) sub (i + 1) <-> occurs_at s sub i).
Proof.
  intros Hi. unfold occurs_at. split.
  - intros (pre & post & Heq & Hl). destruct pre as [|a' pre].
    + unfold len in Hl. cbn in Hl. lia.
    + cbn in Heq. injection Heq as -> ->.
      exists pre, post. split; [reflexivity|]. unfold len in *. cbn in Hl. lia.
  - intros (pre & post & -> & Hl). exists (String a pre), post.
    split; [reflexivity|]. unfold len in *. cbn. lia.
Qed.

Lemma occurs_at_nonneg s sub i : occurs_at s sub i -> 0 <= i.
Proof. intros (pre & post & _ & <-). apply len_nonneg. Qed.

Lemma occurs_at_empty sub i : occurs_at "" sub i -> i = 0.
Proof.
  intros (pre & post & Heq & <-). destruct pre; [reflexivity|discriminate Heq].
Qed.

(** From [i] on, [index_from] answers [i] plus the least offset at which
    [sub] occurs, or -1 when it occurs nowhere. *)
Lemma index_from_spec s sub : forall i, 0 <= i ->
  (index_from i s sub = -1 /\ forall j, ~ occurs_at s sub j) \/
  (exists k, index_from i s sub = i + k /\ occurs_at s sub k /\
             forall j, occurs_at s sub j -> k <= j).
Proof.
  induction s as [|a s IH]; intros i Hi; cbn [index_from].
  - destruct (HasPrefix "" sub) eqn:Hp.
    + right. exists 0. split; [lia|]. split; [now apply occurs_at_0|].
      intros j Hj. apply occurs_at_nonneg in Hj. lia.
    + left. split; [reflexivity|]. intros j Hj.
      pose proof (occurs_at_empty _ _ Hj) as ->.
      apply occurs_at_0 in Hj. congruence.
  - destruct (HasPrefix (String a s) sub) eqn:Hp.
    + right. exists 0. split; [lia|]. split; [now apply occurs_at_0|].
      intros j Hj. apply occurs_at_nonneg in Hj. lia.
    + assert (Hno0 : ~ occurs_at (String a s) sub 0).
      { intros H0. apply occurs_at_0 in H0. congruence. }
      destruct (IH (i + 1) ltac:(lia)) as [[Hr Hnone]|(k & Hr & Hk & Hmin)].
      * left. split; [exact Hr|]. intros j Hj.
        destruct (Z.eq_dec j 0) as [->|Hj0]; [now apply Hno0|].
        pose proof (occurs_at_nonneg _ _ _ Hj) as Hj1.
        replace j with ((j - 1) + 1) in Hj by lia.
        apply occurs_at_cons in Hj; [|lia]. now apply (Hnone (j - 1)).
      * right. exists (k + 1). split; [lia|]. split.
        -- apply occurs_at_cons; [now apply occurs_at_nonneg in Hk | exact Hk].
        -- intros j Hj. destruct (Z.eq_dec j 0) as [->|Hj0]; [now destruct Hno0|].
           pose proof (occurs_at_nonneg _ _ _ Hj) as Hj1.
           replace j with ((j - 1) + 1) in Hj by lia.
           apply occurs_at_cons in Hj; [|lia].
           specialize (Hmin _ Hj). lia.
Qed.

Lemma Index_spec s sub :
  (Index s sub = -1 /\ forall j, ~ occurs_at s sub j) \/
  (0 <= Index s sub /\ occurs_at s sub (Index s sub) /\
   forall j, occurs_at s sub j -> Index s sub <= j).
Proof.
  unfold Index. destruct (index_from_spec s sub 0 ltac:(lia)) as [H|(k & Hr & Hk & Hmin)].
  - left. exact H.
  - right. rewrite Hr. cbn. split; [now apply occurs_at_nonneg in Hk|]. now split.
Qed.

End GoStringFacts.

Module InstrFacts.

Import F64 GoString Value Query GoStringFacts Samples.

Section Instr.

Context `{Conversions}.

Lemma Instr_strings fn s sub :
  Instr fn [String s; String sub] =
  if Index s sub <? 0 then Ok Null else Ok (Integer (Index s sub)).
Proof.
  unfold Instr. cbn [nargs length arg nth]. rewrite !ToString_String. reflexivity.
Qed.

(** C6. INSTR answers the least byte offset at which the second string
    occurs in the first, counted from 0, and Null when it occurs
    nowhere or when an argument is Null. The offset counts bytes: the
    second rune of a string of three-byte runes is found at 3. *)
Theorem Instr_first_byte_offset fn s sub :
  (forall i, Instr fn [String s; String sub] = Ok (Integer i) <->
             occurs_at s sub i /\ forall j, occurs_at s sub j -> i <= j) /\
  (Instr fn [String s; String sub] = Ok Null <-> forall j, ~ occurs_at s sub j) /\
  (forall b, Instr fn [Null; b] = Ok Null) /\
  (forall a, Instr fn [a; Null] = Ok Null) /\
  Instr fn [String nihongo; String hon] = Ok (Integer 3) /\
  runes nihongo = [26085; 26412; 35486] /\ len nihongo = 9.
Proof.
  split; [|split; [|split; [|split; [|split]]]].
  - intros i. rewrite Instr_strings.
    destruct (Index_spec s sub) as [[Hr Hnone]|(Hr & Hocc & Hmin)].
    + rewrite Hr. cbn. split; [discriminate|].
      intros [Hocc _]. now destruct (Hnone i).
    + destruct (Z.ltb_spec (Index s sub) 0) as [Hlt|_]; [lia|]. split.
      * intros Heq. injection Heq as <-. now split.
      * intros [Hocc' Hmin']. f_equal. f_equal.
        specialize (Hmin _ Hocc'). specialize (Hmin' _ Hocc). lia.
  - rewrite Instr_strings.
    destruct (Index_spec s sub) as [[Hr Hnone]|(Hr & Hocc & Hmin)].
    + rewrite Hr. cbn. split; [intros _; exact Hnone | reflexivity].
    + destruct (Z.ltb_spec (Index s sub) 0) as [Hlt|_]; [lia|]. split.
      * discriminate.
      * intros Hnone. now destruct (Hnone _ Hocc).
  - intros b. unfold Instr. cbn [nargs length arg nth]. rewrite ToString_Null. reflexivity.
  - intros a. unfold Instr. cbn [nargs length arg nth]. rewrite ToString_Null.
    destruct (ToString a); reflexivity.
  - rewrite Instr_strings. reflexivity.
  - split; reflexivity.
Qed.

End Instr.

End InstrFacts.

Module SubstrFacts.

Import F64 GoString Value Query Samples.

Lemma slice_to_end {A} (rs : list A) start :
  0 <= start <= Z.of_nat (length rs) ->
  slice rs start (Z.of_nat (length rs)) = Some (drop (Z.to_nat start) rs).
Proof.
  intros Hs. unfold slice.
  replace ((0 <=? start) && (start <=? Z.of_nat (length rs))
           && (Z.of_nat (length rs) <=? Z.of_nat (length rs))) with true
    by (symmetry; rewrite !andb_true_iff, !Z.leb_le; lia).
  f_equal. apply take_ge. rewrite length_drop. lia.
Qed.

Lemma slice_len {A} (rs : list A) start l :
  0 <= start < Z.of_nat (length rs) -> 0 <= l ->
  slice rs start (if Z.of_nat (length rs) <? start + l
                  then Z.of_nat (length rs) else start + l)
  = Some (take (Z.to_nat l) (drop (Z.to_nat start) rs)).
Proof.
  intros Hs Hl. unfold slice.
  destruct (Z.ltb_spec (Z.of_nat (length rs)) (start + l)) as [Hlt|Hge].
  - replace ((0 <=? start) && (start <=? Z.of_nat (length rs))
             && (Z.of_nat (length rs) <=? Z.of_nat (length rs))) with true
      by (symmetry; rewrite !andb_true_iff, !Z.leb_le; lia).
    f_equal. rewrite !take_ge; [reflexivity| |]; rewrite length_drop; lia.
  - replace ((0 <=? start) && (start <=? start + l)
             && (start + l <=? Z.of_nat (length rs))) with true
      by (symmetry; rewrite !andb_true_iff, !Z.leb_le; lia).
    do 3 f_equal. lia.
Qed.

Section Substr.

Context `{Conversions}.

Lemma start_inside s i :
  start_outside s i = false ->
  0 <= wrapped_start s i < Z.of_nat (length (runes s)).
Proof.
  unfold start_outside. rewrite orb_false_iff, Z.ltb_ge, Z.leb_gt. lia.
Qed.

Lemma Substr_two fn s i :
  Substr fn [String s; Integer i] =
  if start_outside s i then Ok Null
  else Ok (String (of_runes (drop (Z.to_nat (wrapped_start s i)) (runes s)))).
Proof.
  unfold Substr. cbn [nargs length arg nth].
  rewrite ToString_String, ToInteger_Integer.
  change ((Z.of_nat 2 <? 2) || (3 <? Z.of_nat 2)) with false. cbv iota.
  change (Z.of_nat 2 =? 3) with false. cbv iota zeta.
  fold (wrapped_start s i). fold (start_outside s i).
  destruct (start_outside s i) eqn:Hout; [reflexivity|].
  apply start_inside in Hout.
  rewrite slice_to_end by lia. reflexivity.
Qed.

Lemma Substr_three fn s i c :
  Substr fn [String s; Integer i; c] =
  if start_outside s i then Ok Null
  else match ToInteger c with
       | None => Ok Null
       | Some l =>
           if l <? 0 then Ok Null
           else
             let end_ := Int64.add (wrapped_start s i) l in
             match slice (runes s) (wrapped_start s i)
                     (if Z.of_nat (length (runes s)) <? end_
                      then Z.of_nat (length (runes s)) else end_) with
             | Some rs => Ok (String (of_runes rs))
             | None => Panic "slice bounds out of range"
             end
       end.
Proof.
  unfold Substr. cbn [nargs length arg nth].
  rewrite ToString_String, ToInteger_Integer.
  change ((Z.of_nat 3 <? 2) || (3 <? Z.of_nat 3)) with false. cbv iota.
  change (Z.of_nat 3 =? 3) with true. cbv iota zeta.
  fold (wrapped_start s i). fold (start_outside s i).
  reflexivity.
Qed.

Lemma Substr_three_len fn s i l :
  start_outside s i = false -> 0 <= l ->
  wrapped_start s i + l <= Int64.MaxInt64 ->
  Substr fn [String s; Integer i; Integer l] =
  Ok (String (of_runes (take (Z.to_nat l)
                          (drop (Z.to_nat (wrapped_start s i)) (runes s))))).
Proof.
  intros Hout Hl Hfit. rewrite Substr_three, Hout, ToInteger_Integer.
  destruct (Z.ltb_spec l 0) as [Hneg|_]; [lia|]. cbv zeta.
  apply start_inside in Hout.
  assert (Hadd : Int64.add (wrapped_start s i) l = wrapped_start s i + l).
  { unfold Int64.add, Int64.wrap. unfold Int64.MaxInt64 in Hfit.
    rewrite Z.mod_small; lia. }
  rewrite Hadd, slice_len by lia. reflexivity.
Qed.


End Substr.

Import Strict.


(** A length that takes [start + sublen] past the largest [int] wraps
    the end of the slice below its start: the slice expression panics. *)
Lemma Substr_length_overflow_panics :
  Substr "SUBSTR" [String "abcde"; Integer 1; Integer Int64.MaxInt64]
    = Panic "slice bounds out of range".
Proof. vm_compute. reflexivity. Qed.

End SubstrFacts.

Module Utf8Facts.

Import GoString.

Lemma append_cons a s t : String a s +:+ t = String a (s +:+ t).
Proof. reflexivity. Qed.

Lemma append_nil t : "" +:+ t = t.
Proof. reflexivity. Qed.

Lemma byte_val_range a : 0 <= byte_val a < 256.
Proof.
  unfold byte_val. pose proof (N_ascii_bounded a) as Hb. lia.
Qed.

Lemma byte_val_of z : 0 <= z < 256 -> byte_val (byte_of z) = z.
Proof.
  intros Hz. unfold byte_val, byte_of.
  rewrite N_ascii_embedding by lia. lia.
Qed.

Lemma valid_rune_range r :
  valid_rune r = true -> (0 <= r < 55296) \/ (57343 < r <= 1114111).
Proof.
  unfold valid_rune, MaxRune.
  rewrite orb_true_iff, !andb_true_iff, !Z.leb_le, !Z.ltb_lt. tauto.
Qed.

(** Decoding what [encode_rune] wrote gives the rune back and consumes
    exactly its bytes, whatever follows. *)
Lemma decode_encode r s :
  valid_rune r = true ->
  decode_rune (encode_rune r +:+ s) = (r, String.length (encode_rune r)).
Proof.
  intros Hv. pose proof (valid_rune_range r Hv) as Hr.
  unfold encode_rune. rewrite Hv.
  destruct (Z.ltb_spec r 128) as [H1|H1].
  { rewrite ?append_cons, ?append_nil. cbn [decode_rune String.length].
    rewrite byte_val_of by lia.
    destruct (Z.ltb_spec r 128); [reflexivity|lia]. }
  destruct (Z.ltb_spec r 2048) as [H2|H2].
  { rewrite ?append_cons, ?append_nil. cbn [decode_rune String.length].
    rewrite !byte_val_of by (Z.div_mod_to_equations; lia).
    assert (Hd : 2 <= r / 64 < 32) by (Z.div_mod_to_equations; lia).
    assert (Hm : 0 <= r mod 64 < 64) by (Z.div_mod_to_equations; lia).
    repeat match goal with
           | |- context [?a =? ?b] => destruct (Z.eqb_spec a b); try lia
           end;
    repeat match goal with
           | |- context [?a <? ?b] => destruct (Z.ltb_spec a b); try lia
           end; cbn [orb].
    f_equal. Z.div_mod_to_equations; lia. }
  destruct (Z.ltb_spec r 65536) as [H3|H3].
  { rewrite ?append_cons, ?append_nil. cbn [decode_rune String.length].
    rewrite !byte_val_of by (Z.div_mod_to_equations; lia).
    assert (Hd : 0 <= r / 4096 < 16) by (Z.div_mod_to_equations; lia).
    assert (Hm1 : 0 <= (r / 64) mod 64 < 64) by (Z.div_mod_to_equations; lia).
    assert (Hm : 0 <= r mod 64 < 64) by (Z.div_mod_to_equations; lia).
    assert (He0 : r / 4096 = 0 -> 32 <= (r / 64) mod 64)
      by (Z.div_mod_to_equations; lia).
    assert (Hed : r / 4096 = 13 -> (r / 64) mod 64 < 32)
      by (Z.div_mod_to_equations; lia).
    unfold is_cont.
    repeat match goal with
           | |- context [?a =? ?b] => destruct (Z.eqb_spec a b); try lia
           end;
    repeat match goal with
           | |- context [?a <? ?b] => destruct (Z.ltb_spec a b); try lia
           | |- context [?a <=? ?b] => destruct (Z.leb_spec a b); try lia
           end; cbn [orb andb negb];
    f_equal; Z.div_mod_to_equations; lia. }
  { rewrite ?append_cons, ?append_nil. cbn [decode_rune String.length].
    rewrite !byte_val_of by (Z.div_mod_to_equations; lia).
    assert (Hd : 0 <= r / 262144 < 5) by (Z.div_mod_to_equations; lia).
    assert (Hm2 : 0 <= (r / 4096) mod 64 < 64) by (Z.div_mod_to_equations; lia).
    assert (Hm1 : 0 <= (r / 64) mod 64 < 64) by (Z.div_mod_to_equations; lia).
    assert (Hm : 0 <= r mod 64 < 64) by (Z.div_mod_to_equations; lia).
    assert (He0 : r / 262144 = 0 -> 16 <= (r / 4096) mod 64)
      by (Z.div_mod_to_equations; lia).
    assert (Hed : r / 262144 = 4 -> (r / 4096) mod 64 < 16)
      by (Z.div_mod_to_equations; lia).
    unfold is_cont.
    repeat match goal with
           | |- context [?a =? ?b] => destruct (Z.eqb_spec a b); try lia
           end;
    repeat match goal with
           | |- context [?a <? ?b] => destruct (Z.ltb_spec a b); try lia
           | |- context [?a <=? ?b] => destruct (Z.leb_spec a b); try lia
           end; cbn [orb andb negb];
    f_equal; Z.div_mod_to_equations; lia. }
Qed.

Lemma append_assoc s t u : (s +:+ t) +:+ u = s +:+ (t +:+ u).
Proof.
  induction s as [|a s IH]; [reflexivity|].
  rewrite !append_cons. now rewrite IH.
Qed.

Lemma append_nil_r s : s +:+ "" = s.
Proof.
  induction s as [|a s IH]; [reflexivity|]. rewrite append_cons. now rewrite IH.
Qed.

Lemma length_append s t :
  String.length (s +:+ t) = (String.length s + String.length t)%nat.
Proof.
  induction s as [|a s IH]; [reflexivity|].
  rewrite append_cons. cbn [String.length]. now rewrite IH.
Qed.

(** After the bytes of a rune are skipped, decoding goes on behind them. *)
Lemma runes_from_skip t s :
  runes_from (String.length t) (t +:+ s) = runes s.
Proof.
  induction t as [|a t IH]; [reflexivity|].
  rewrite append_cons. cbn [String.length runes_from]. exact IH.
Qed.

Lemma encode_rune_cons r :
  exists a t, encode_rune r = String a t /\ is_cont (byte_val a) = false.
Proof.
  unfold encode_rune.
  set (r' := if valid_rune r then r else RuneError).
  assert (Hv : valid_rune r' = true).
  { subst r'. destruct (valid_rune r) eqn:E; [exact E | reflexivity]. }
  apply valid_rune_range in Hv. unfold is_cont.
  destruct (Z.ltb_spec r' 128); [|destruct (Z.ltb_spec r' 2048);
    [|destruct (Z.ltb_spec r' 65536)]];
    eexists _, _; (split; [reflexivity|]);
    rewrite byte_val_of by (Z.div_mod_to_equations; lia);
    apply andb_false_iff; rewrite Z.leb_gt, Z.leb_gt;
    Z.div_mod_to_equations; lia.
Qed.

Lemma runes_encode r s :
  valid_rune r = true -> runes (encode_rune r +:+ s) = r :: runes s.
Proof.
  intros Hv. pose proof (decode_encode r s Hv) as Hd.
  destruct (encode_rune_cons r) as (a & t & He & _).
  rewrite He in *. rewrite append_cons in *.
  unfold runes at 1. cbn [runes_from]. rewrite Hd.
  cbn [String.length]. rewrite Nat.sub_succ, Nat.sub_0_r.
  now rewrite runes_from_skip.
Qed.

Lemma runes_of_runes rs s :
  Forall (fun r => valid_rune r = true) rs ->
  runes (of_runes rs +:+ s) = rs ++ runes s.
Proof.
  induction 1 as [|r rs Hr _ IH]; [reflexivity|].
  cbn [of_runes]. rewrite append_assoc, runes_encode by exact Hr.
  now rewrite IH.
Qed.

(** What [decode_rune] answers is a rune with an encoding, and on a
    non-empty string it takes at least one byte and no more than there
    are. *)
Lemma decode_rune_valid s : valid_rune (fst (decode_rune s)) = true.
Proof.
  destruct s as [|a0 [|a1 [|a2 [|a3 s]]]]; cbn [decode_rune];
    try pose proof (byte_val_range a0);
    try pose proof (byte_val_range a1);
    try pose proof (byte_val_range a2);
    try pose proof (byte_val_range a3);
    unfold is_cont;
    repeat match goal with
           | |- context [?a =? ?b] => destruct (Z.eqb_spec a b); try lia
           end;
    repeat match goal with
           | |- context [?a <? ?b] => destruct (Z.ltb_spec a b); try lia
           | |- context [?a <=? ?b] => destruct (Z.leb_spec a b); try lia
           end; cbn [orb andb negb fst]; try reflexivity;
    unfold valid_rune, MaxRune;
    rewrite orb_true_iff, !andb_true_iff, !Z.leb_le, !Z.ltb_lt; lia.
Qed.

Lemma decode_rune_size a s :
  (1 <= snd (decode_rune (String a s)) <= S (String.length s))%nat.
Proof.
  destruct s as [|a1 [|a2 [|a3 s]]]; cbn [decode_rune];
    repeat match goal with
           | |- context [if ?c then _ else _] => destruct c
           end; cbn [snd String.length]; lia.
Qed.

Lemma runes_from_valid s : forall skip,
  Forall (fun r => valid_rune r = true) (runes_from skip s).
Proof.
  induction s as [|a s IH]; intros skip; [constructor|].
  cbn [runes_from]. destruct skip as [|k]; [|apply IH].
  pose proof (decode_rune_valid (String a s)) as Hv.
  destruct (decode_rune (String a s)) as [r sz]. constructor; [exact Hv|apply IH].
Qed.

Lemma runes_valid s : Forall (fun r => valid_rune r = true) (runes s).
Proof. apply runes_from_valid. Qed.

(** A string that starts clean does not change how the string before it
    is decoded. *)
Lemma decode_rune_app a s t :
  starts_clean t = true ->
  decode_rune (String a s +:+ t) = decode_rune (String a s).
Proof.
  intros Ht.
  assert (Hb : t = "" \/ exists b t', t = String b t' /\
                 (byte_val b < 128 \/ 191 < byte_val b)).
  { destruct t as [|b t']; [now left|right]. exists b, t'. split; [reflexivity|].
    cbn in Ht. unfold is_cont in Ht.
    apply negb_true_iff, andb_false_iff in Ht.
    rewrite !Z.leb_gt in Ht. lia. }
  destruct Hb as [->|(b & t' & -> & Hb)]; [now rewrite append_nil_r|].
  pose proof (byte_val_range a).
  destruct s as [|a1 [|a2 [|a3 s]]]; rewrite ?append_cons, ?append_nil;
    cbn [decode_rune]; unfold is_cont;
    repeat match goal with
           | |- context [?x =? ?y] => destruct (Z.eqb_spec x y); try lia
           end;
    repeat match goal with
           | |- context [?x <? ?y] => destruct (Z.ltb_spec x y); try lia
           | |- context [?x <=? ?y] => destruct (Z.leb_spec x y); try lia
           end; cbn [orb andb negb]; reflexivity.
Qed.

Lemma runes_from_app t :
  starts_clean t = true ->
  forall s skip, (skip <= String.length s)%nat ->
    runes_from skip (s +:+ t) = runes_from skip s ++ runes t.
Proof.
  intros Ht. induction s as [|a s IH]; intros skip Hskip.
  - cbn in Hskip. replace skip with 0%nat by lia. reflexivity.
  - destruct skip as [|k].
    + rewrite append_cons.
      change (runes_from 0 (String a (s +:+ t)))
        with (let '(r, sz) := decode_rune (String a (s +:+ t)) in
              r :: runes_from (sz - 1) (s +:+ t)).
      change (runes_from 0 (String a s))
        with (let '(r, sz) := decode_rune (String a s) in
              r :: runes_from (sz - 1) s).
      rewrite <- append_cons, (decode_rune_app a s t Ht).
      pose proof (decode_rune_size a s) as Hsz.
      destruct (decode_rune (String a s)) as [r sz]. cbn [snd] in Hsz.
      rewrite IH by lia. reflexivity.
    + rewrite append_cons. cbn [runes_from]. apply IH.
      cbn [String.length] in Hskip. lia.
Qed.

Lemma runes_app s t :
  starts_clean t = true -> runes (s +:+ t) = runes s ++ runes t.
Proof. intros Ht. apply runes_from_app; [exact Ht | lia]. Qed.

Lemma starts_clean_of_runes rs : starts_clean (of_runes rs) = true.
Proof.
  destruct rs as [|r rs]; [reflexivity|]. cbn [of_runes].
  destruct (encode_rune_cons r) as (a & t & -> & Ha).
  rewrite append_cons. cbn [starts_clean]. now rewrite Ha.
Qed.

Lemma valid_utf8_starts_clean s : valid_utf8 s -> starts_clean s = true.
Proof. intros <-. apply starts_clean_of_runes. Qed.

Lemma runes_of_runes_id rs :
  Forall (fun r => valid_rune r = true) rs -> runes (of_runes rs) = rs.
Proof.
  intros Hv. rewrite <- (append_nil_r (of_runes rs)), runes_of_runes by exact Hv.
  cbn. apply app_nil_r.
Qed.

Lemma starts_clean_repeat s n :
  starts_clean s = true -> starts_clean (repeat_nat s n) = true.
Proof.
  intros Hs. induction n as [|n IH]; [reflexivity|].
  cbn [repeat_nat]. destruct s as [|a s']; [exact IH|].
  rewrite append_cons. exact Hs.
Qed.

(** The runes of a repeated string are the runes of the string,
    repeated, when it starts clean. *)
Lemma runes_repeat s n :
  starts_clean s = true ->
  runes (repeat_nat s n) = concat (replicate n (runes s)).
Proof.
  intros Hs. induction n as [|n IH]; [reflexivity|].
  cbn [repeat_nat replicate concat].
  rewrite runes_app by now apply starts_clean_repeat.
  now rewrite IH.
Qed.

Lemma total_cons w r rs : total w (r :: rs) = w r + total w rs.
Proof. reflexivity. Qed.

Lemma total_app w rs1 rs2 : total w (rs1 ++ rs2) = total w rs1 + total w rs2.
Proof.
  induction rs1 as [|r rs1 IH]; [reflexivity|].
  cbn [app]. rewrite !total_cons, IH. lia.
Qed.

Lemma total_nonneg w rs : (forall r, 0 <= w r) -> 0 <= total w rs.
Proof.
  intros Hw. induction rs as [|r rs IH]; [reflexivity|].
  rewrite total_cons. specialize (Hw r). lia.
Qed.

Lemma total_concat_replicate w rs n :
  total w (concat (replicate n rs)) = Z.of_nat n * total w rs.
Proof.
  induction n as [|n IH]; [reflexivity|].
  cbn [replicate concat]. rewrite total_app, IH. lia.
Qed.

Lemma total_one rs : total (fun _ => 1) rs = Z.of_nat (length rs).
Proof.
  induction rs as [|r rs IH]; [reflexivity|].
  rewrite total_cons, IH. cbn [length]. lia.
Qed.

End Utf8Facts.

Module F64Facts.

Import F64.

Lemma digits2_pos_bounds p :
  2 ^ (Zpos (digits2_pos p) - 1) <= Zpos p < 2 ^ Zpos (digits2_pos p).
Proof.
  induction p as [p IH|p IH|]; cbn [digits2_pos].
  - rewrite Pos2Z.inj_succ.
    replace (Z.succ (Zpos (digits2_pos p)) - 1) with (Z.succ (Zpos (digits2_pos p) - 1)) by lia.
    rewrite !Z.pow_succ_r by lia. lia.
  - rewrite Pos2Z.inj_succ.
    replace (Z.succ (Zpos (digits2_pos p)) - 1) with (Z.succ (Zpos (digits2_pos p) - 1)) by lia.
    rewrite !Z.pow_succ_r by lia. lia.
  - cbn. lia.
Qed.

Lemma digits2_pos_unique p k :
  2 ^ (k - 1) <= Zpos p < 2 ^ k -> Zpos (digits2_pos p) = k.
Proof.
  intros [Hlo Hhi]. pose proof (digits2_pos_bounds p) as [Dlo Dhi].
  set (d := Zpos (digits2_pos p)) in *.
  assert (Hd : 0 < d) by (subst d; lia).
  assert (Hk : 0 < k).
  { destruct (Z.ltb_spec 0 k); [assumption|].
    exfalso. assert (2 ^ k <= 1); [|lia].
    destruct (Z.eq_dec k 0) as [->|]; [cbn; lia|].
    rewrite Z.pow_neg_r by lia. lia. }
  destruct (Z.lt_trichotomy d k) as [Hlt|[Heq|Hgt]]; [|exact Heq|].
  - exfalso. assert (2 ^ d <= 2 ^ (k - 1)) by (apply Z.pow_le_mono_r; lia). lia.
  - exfalso. assert (2 ^ k <= 2 ^ (d - 1)) by (apply Z.pow_le_mono_r; lia). lia.
Qed.

Lemma iter_xO p n : Zpos (Pos.iter xO p n) = Zpos p * 2 ^ Zpos n.
Proof.
  induction n as [|n IH] using Pos.peano_ind.
  - cbn. lia.
  - rewrite Pos.iter_succ, Pos2Z.inj_xO, IH, Pos2Z.inj_succ, Z.pow_succ_r by lia. lia.
Qed.

(** A mantissa of 53 binary digits needs no rounding. *)
Lemma binary_round_aux_exact s m e :
  Zpos (digits2_pos m) = 53 -> -1074 <= e <= 971 ->
  binary_round_aux prec emax s (Zpos m) e loc_Exact = S754_finite s m e.
Proof.
  intros Hd He. unfold binary_round_aux, shr_fexp.
  cbn [Zdigits2]. rewrite Hd.
  assert (Hf : fexp prec emax (53 + e) - e = 0).
  { unfold fexp, emin, prec, emax. lia. }
  rewrite Hf. cbn [shr shr_record_of_loc shr_m loc_of_shr_record round_nearest_even Zdigits2].
  rewrite Hd, Hf. cbn [shr shr_record_of_loc shr_m].
  destruct (Z.leb_spec e (emax - prec)) as [_|Hgt]; [reflexivity|].
  unfold emax, prec in Hgt. lia.
Qed.

(** The float of a positive integer below 2^53 is that integer, with a
    mantissa of 53 digits. *)
Lemma of_Z_normal a :
  0 < a < 2 ^ 53 ->
  exists m K, of_Z a = S754_finite false m (- K) /\
              0 <= K <= 52 /\ Zpos m = a * 2 ^ K /\
              Zpos (digits2_pos m) = 53.
Proof.
  intros Ha. destruct a as [|p|p]; try lia.
  unfold of_Z, binary_normalize, binary_round.
  pose proof (digits2_pos_bounds p) as [Dlo Dhi].
  set (d := Zpos (digits2_pos p)) in *.
  assert (Hd : 1 <= d <= 53).
  { split; [subst d; lia|].
    destruct (Z.leb_spec d 53); [assumption|exfalso].
    assert (2 ^ 53 <= 2 ^ (d - 1)) by (apply Z.pow_le_mono_r; lia). lia. }
  assert (Hf : fexp prec emax (d + 0) = d - 53).
  { unfold fexp, emin, prec, emax. lia. }
  rewrite Hf. unfold shl_align.
  replace (d - 53 - 0) with (d - 53) by lia.
  destruct (d - 53) as [|q|q] eqn:Hq; try lia.
  - exists p, 0. rewrite binary_round_aux_exact; try lia.
    split; [reflexivity|]. split; [lia|]. split; [rewrite Z.pow_0_r; lia|]. fold d. lia.
  - assert (Hmz : Zpos (Pos.iter xO p q) = Zpos p * 2 ^ Zpos q) by apply iter_xO.
    assert (Hdig : Zpos (digits2_pos (Pos.iter xO p q)) = 53).
    { apply digits2_pos_unique. rewrite Hmz.
      assert (Hq' : Zpos q = 53 - d) by lia. rewrite Hq'.
      assert (H1 : 2 ^ (53 - 1) = 2 ^ (d - 1) * 2 ^ (53 - d))
        by (rewrite <- Z.pow_add_r by lia; f_equal; lia).
      assert (H2 : 2 ^ 53 = 2 ^ d * 2 ^ (53 - d))
        by (rewrite <- Z.pow_add_r by lia; f_equal; lia).
      rewrite H1, H2.
      assert (0 < 2 ^ (53 - d)) by (apply Z.pow_pos_nonneg; lia). nia. }
    exists (Pos.iter xO p q), (Zpos q).
    rewrite binary_round_aux_exact; try lia.
    split; [reflexivity|]. split; [lia|]. split; [exact Hmz|exact Hdig].
Qed.

Lemma round_nearest_even_bounds m l :
  m <= round_nearest_even m l <= m + 1.
Proof.
  destruct l as [|[]]; cbn [round_nearest_even]; try lia.
  destruct (Z.even m); lia.
Qed.

Lemma fexp_normal d e :
  -1074 <= d + e - 53 -> fexp prec emax (d + e) - e = d - 53.
Proof. intros H. unfold fexp, emin, prec, emax. lia. Qed.

Lemma shr_fexp_53 p e l :
  Zpos (digits2_pos p) = 53 -> -1074 <= e ->
  shr_fexp prec emax (Zpos p) e l = (shr_record_of_loc (Zpos p) l, e).
Proof.
  intros Hd He. unfold shr_fexp. cbn [Zdigits2]. rewrite Hd.
  rewrite fexp_normal by lia. reflexivity.
Qed.

Lemma shr_fexp_54 p e l :
  Zpos (digits2_pos p) = 54 -> -1075 <= e ->
  shr_fexp prec emax (Zpos p) e l = (shr_1 (shr_record_of_loc (Zpos p) l), e + 1).
Proof.
  intros Hd He. unfold shr_fexp. cbn [Zdigits2]. rewrite Hd.
  rewrite fexp_normal by lia. reflexivity.
Qed.

Lemma shr_1_half p l :
  exists h, shr_m (shr_1 (shr_record_of_loc (Zpos p) l)) = h /\
            2 * h <= Zpos p <= 2 * h + 1.
Proof.
  destruct l as [|[]]; destruct p as [p|p|]; cbn [shr_record_of_loc shr_1 shr_m];
    eexists; (split; [reflexivity|lia]).
Qed.

(** Rounding a quotient of 53 or 54 digits moves it by less than two
    units of its last place. *)
Lemma binary_round_aux_quotient q e l :
  2 ^ 52 <= Zpos q < 2 ^ 54 -> -1000 <= e <= 900 ->
  exists mf t,
    binary_round_aux prec emax false (Zpos q) e l = S754_finite false mf (e + t) /\
    0 <= t <= 2 /\
    Zpos q - 1 <= Zpos mf * 2 ^ t <= Zpos q + 2.
Proof.
  intros Hq He.
  assert (Hfin : forall m e', e' <= 971 ->
            (if e' <=? emax - prec then S754_finite false m e' else S754_infinity false)
            = S754_finite false m e').
  { intros m e' He'. destruct (Z.leb_spec e' (emax - prec)) as [|Hgt]; [reflexivity|].
    unfold emax, prec in Hgt. lia. }
  (* the second rounding step, on a mantissa between 2^52 and 2^53 *)
  assert (Hstep2 : forall m1 e1, 2 ^ 52 <= m1 <= 2 ^ 53 -> -1000 <= e1 <= 901 ->
    exists mf t2,
      (let '(mrs'', e'') := shr_fexp prec emax m1 e1 loc_Exact in
       match shr_m mrs'' with
       | 0 => S754_zero false
       | Zpos m => if e'' <=? emax - prec then S754_finite false m e''
                   else S754_infinity false
       | Zneg _ => S754_nan
       end) = S754_finite false mf (e1 + t2) /\
      0 <= t2 <= 1 /\ Zpos mf * 2 ^ t2 = m1).
  { intros m1 e1 Hm1 He1. destruct m1 as [|p1|p1]; try lia.
    destruct (Z.eq_dec (Zpos p1) (2 ^ 53)) as [Heq|Hne].
    - assert (Hp : p1 = 9007199254740992%positive) by lia. subst p1.
      rewrite shr_fexp_54 by (try reflexivity; lia).
      cbn [shr_record_of_loc shr_1 shr_m]. rewrite Hfin by lia.
      exists 4503599627370496%positive, 1. split; [reflexivity|]. split; [lia|].
      reflexivity.
    - assert (Hd : Zpos (digits2_pos p1) = 53)
        by (apply digits2_pos_unique; lia).
      rewrite shr_fexp_53 by (try assumption; lia).
      cbn [shr_record_of_loc shr_m]. rewrite Hfin by lia.
      exists p1, 0. rewrite Z.add_0_r. split; [reflexivity|]. split; [lia|].
      rewrite Z.pow_0_r. lia. }
  unfold binary_round_aux.
  destruct (Z.ltb_spec (Zpos q) (2 ^ 53)) as [Hlt|Hge].
  - assert (Hd : Zpos (digits2_pos q) = 53) by (apply digits2_pos_unique; lia).
    rewrite shr_fexp_53 by (try assumption; lia).
    set (m1 := round_nearest_even _ _).
    assert (Hm1 : Zpos q <= m1 <= Zpos q + 1).
    { subst m1. cbn [shr_m]. destruct l as [|[]]; apply round_nearest_even_bounds. }
    destruct (Hstep2 m1 e ltac:(lia) ltac:(lia)) as (mf & t2 & Hres & Ht2 & Hval).
    exists mf, t2. split; [exact Hres|]. split; [lia|]. lia.
  - assert (Hd : Zpos (digits2_pos q) = 54) by (apply digits2_pos_unique; lia).
    rewrite shr_fexp_54 by (try assumption; lia).
    destruct (shr_1_half q l) as (h & Hh & Hhalf).
    set (mrs := shr_1 (shr_record_of_loc (Zpos q) l)) in *.
    set (m1 := round_nearest_even _ _).
    assert (Hm1 : h <= m1 <= h + 1).
    { subst m1. rewrite Hh. apply round_nearest_even_bounds. }
    destruct (Hstep2 m1 (e + 1) ltac:(lia) ltac:(lia)) as (mf & t2 & Hres & Ht2 & Hval).
    exists mf, (1 + t2). replace (e + (1 + t2)) with (e + 1 + t2) by lia.
    split; [exact Hres|]. split; [lia|].
    rewrite Z.pow_add_r by lia. change (2 ^ 1) with 2. lia.
Qed.

(** The quotient of two floats with mantissas of 53 digits. *)
Lemma div_normal m1 K1 m2 K2 :
  Zpos (digits2_pos m1) = 53 -> Zpos (digits2_pos m2) = 53 ->
  0 <= K1 <= 52 -> 0 <= K2 <= 52 ->
  exists mf t q,
    div (S754_finite false m1 (- K1)) (S754_finite false m2 (- K2))
      = S754_finite false mf (K2 - K1 - 53 + t) /\
    0 <= t <= 2 /\
    q = Zpos m1 * 2 ^ 53 / Zpos m2 /\
    q - 1 <= Zpos mf * 2 ^ t <= q + 2.
Proof.
  intros Hd1 Hd2 HK1 HK2.
  pose proof (digits2_pos_bounds m1) as B1. rewrite Hd1 in B1.
  pose proof (digits2_pos_bounds m2) as B2. rewrite Hd2 in B2.
  change (53 - 1) with 52 in *.
  unfold div, SFdiv, SFdiv_core_binary. cbn [Zdigits2 xorb].
  rewrite Hd1, Hd2.
  assert (He : Z.min (fexp prec emax (53 + - K1 - (53 + - K2))) (- K1 - - K2)
               = K2 - K1 - 53).
  { unfold fexp, emin, prec, emax. lia. }
  rewrite He.
  replace (- K1 - - K2 - (K2 - K1 - 53)) with 53 by lia.
  rewrite Z.shiftl_mul_pow2 by lia.
  pose proof (Z.div_eucl_eq (Zpos m1 * 2 ^ 53) (Zpos m2) ltac:(lia)) as Heq.
  pose proof (Z.mod_pos_bound (Zpos m1 * 2 ^ 53) (Zpos m2) ltac:(lia)) as Hr.
  unfold Z.modulo in Hr. unfold Z.div.
  destruct (Z.div_eucl (Zpos m1 * 2 ^ 53) (Zpos m2)) as [q r].
  assert (Hq : 2 ^ 52 <= q < 2 ^ 54).
  { assert (H53 : 2 ^ 53 = 2 * 2 ^ 52) by reflexivity.
    assert (H54 : 2 ^ 54 = 4 * 2 ^ 52) by reflexivity.
    assert (0 < 2 ^ 52) by reflexivity.
    split; nia. }
  destruct q as [|q|q]; try lia.
  destruct (binary_round_aux_quotient q (K2 - K1 - 53) (new_location (Zpos m2) r)
              Hq ltac:(lia)) as (mf & t & Hres & Ht & Hval).
  exists mf, t, (Zpos q). split; [exact Hres|]. split; [exact Ht|].
  split; [reflexivity | exact Hval].
Qed.

Lemma opp_opp x : opp (opp x) = x.
Proof. destruct x as [s|s| |s m e]; cbn; now rewrite ?negb_involutive. Qed.

(** [trunc_mag] answers the integer part of [m * 2^e] for [e <= 0], so
    the integer part plus one, when a fraction was cut, is the ceiling. *)
Lemma trunc_mag_ceiling m E :
  0 <= E ->
  exists c, (let '(d, fract) := trunc_mag m (- E) in if fract then d + 1 else d) = c /\
            (c - 1) * 2 ^ E < Zpos m <= c * 2 ^ E.
Proof.
  intros HE. unfold trunc_mag.
  assert (Hp : 0 < 2 ^ E) by (apply Z.pow_pos_nonneg; lia).
  destruct (Z.leb_spec 0 (- E)) as [H0|H0].
  - assert (E = 0) by lia. subst E. cbn [Z.opp]. rewrite Z.pow_0_r.
    eexists. split; [reflexivity|]. lia.
  - rewrite Z.opp_involutive.
    pose proof (Z.div_mod (Zpos m) (2 ^ E) ltac:(lia)) as Hdm.
    pose proof (Z.mod_pos_bound (Zpos m) (2 ^ E) Hp) as Hmod.
    destruct (Z.eqb_spec (Zpos m mod 2 ^ E) 0) as [Hz|Hnz]; cbn [negb];
      eexists; (split; [reflexivity|]); nia.
Qed.

Lemma Ceil_finite m E :
  0 <= E ->
  exists c, F64.Ceil (S754_finite false m (- E)) = of_Z c /\
            (c - 1) * 2 ^ E < Zpos m <= c * 2 ^ E.
Proof.
  intros HE. destruct (trunc_mag_ceiling m E HE) as (c & Hc & Hb).
  exists c. split; [|exact Hb].
  unfold F64.Ceil. cbn [opp SFopp negb F64.Floor].
  destruct (trunc_mag m (- E)) as [d fract]. rewrite Hc.
  apply opp_opp.
Qed.

Lemma to_int64_of_Z c : 0 < c < 2 ^ 53 -> to_int64 (of_Z c) = c.
Proof.
  intros Hc. destruct (of_Z_normal c Hc) as (m & K & -> & HK & Hm & _).
  unfold to_int64. destruct (trunc_mag_ceiling m K ltac:(lia)) as (c' & Hc' & Hb).
  assert (Hp : 0 < 2 ^ K) by (apply Z.pow_pos_nonneg; lia).
  assert (Hd : fst (trunc_mag m (- K)) = c).
  { unfold trunc_mag. destruct (Z.leb_spec 0 (- K)).
    - assert (K = 0) by lia. subst K. cbn [fst Z.opp]. rewrite Z.pow_0_r in *. lia.
    - rewrite Z.opp_involutive. cbn [fst]. rewrite Hm. apply Z.div_mul. lia. }
  rewrite Hd.
  unfold Int64.MinInt64, Int64.MaxInt64.
  destruct (Z.leb_spec (- 2 ^ 63) c); [|lia].
  destruct (Z.leb_spec c (2 ^ 63 - 1)); [reflexivity|lia].
Qed.

(** The two inequalities behind [ceil_div_bounds]: [M1 = a * P1] and
    [M2 = b * P2] are the mantissas, [q] their quotient scaled by [X],
    [MF * T] the rounded quotient and [c] its ceiling at scale [PE]. *)
Lemma cover_low a b c q MF T PE P1 P2 X M1 M2 :
  0 < b -> 0 < P2 -> 0 < T -> 0 < PE -> 0 < X -> 2 <= P1 ->
  M1 = a * P1 -> M2 = b * P2 -> PE * T * P2 = P1 * X -> M2 < X ->
  M1 * X < (q + 1) * M2 ->
  q - 1 <= MF * T -> MF <= c * PE ->
  a <= c * b.
Proof.
  intros Hb HP2 HT HPE HX HP1 HM1 HM2 Hrel HM2X Hq Hmf Hc.
  destruct (Z.le_gt_cases a (c * b)) as [|Hgt]; [assumption|exfalso].
  assert (HM2pos : 0 < M2) by (subst M2; apply Z.mul_pos_pos; assumption).
  assert (HTM : 0 < T * M2) by (apply Z.mul_pos_pos; assumption).
  assert (H2 : MF * (T * M2) <= c * PE * (T * M2))
    by (apply Z.mul_le_mono_nonneg_r; lia).
  assert (H3 : c * PE * (T * M2) = c * b * (P1 * X)).
  { subst M2. rewrite <- Hrel. ring. }
  assert (HPX : 0 < P1 * X) by (apply Z.mul_pos_pos; lia).
  assert (H4 : (c * b + 1) * (P1 * X) <= a * (P1 * X))
    by (apply Z.mul_le_mono_nonneg_r; lia).
  assert (H5 : a * (P1 * X) = M1 * X) by (subst M1; ring).
  assert (H6 : (q - 1) * M2 <= MF * T * M2)
    by (apply Z.mul_le_mono_nonneg_r; lia).
  assert (H7 : 2 * X <= P1 * X) by (apply Z.mul_le_mono_nonneg_r; lia).
  lia.
Qed.

Lemma cover_up a b c q MF T PE P1 P2 X M1 M2 :
  0 < b -> 0 < P2 -> 0 < T -> 0 < PE -> 0 < X -> 2 <= P1 -> 0 <= a ->
  M1 = a * P1 -> M2 = b * P2 -> PE * T * P2 = P1 * X -> M2 < X ->
  q * M2 <= M1 * X ->
  MF * T <= q + 2 -> (c - 1) * PE < MF ->
  c <= a + 1.
Proof.
  intros Hb HP2 HT HPE HX HP1 Ha HM1 HM2 Hrel HM2X Hq Hmf Hc.
  destruct (Z.le_gt_cases c (a + 1)) as [|Hgt]; [assumption|exfalso].
  assert (HM2pos : 0 < M2) by (subst M2; apply Z.mul_pos_pos; assumption).
  assert (HTM : 0 < T * M2) by (apply Z.mul_pos_pos; assumption).
  assert (H1 : (a + 1) * PE <= (c - 1) * PE)
    by (apply Z.mul_le_mono_nonneg_r; lia).
  assert (H2 : (a + 1) * PE * (T * M2) < MF * (T * M2))
    by (apply Z.mul_lt_mono_pos_r; lia).
  assert (H3 : (a + 1) * PE * (T * M2) = (a + 1) * b * (P1 * X)).
  { subst M2. rewrite <- Hrel. ring. }
  assert (HPX : 0 < P1 * X) by (apply Z.mul_pos_pos; lia).
  assert (H4 : (a + 1) * 1 * (P1 * X) <= (a + 1) * b * (P1 * X)).
  { apply Z.mul_le_mono_nonneg_r; [lia|]. apply Z.mul_le_mono_nonneg_l; lia. }
  assert (H5 : (a + 1) * 1 * (P1 * X) = M1 * X + P1 * X) by (subst M1; ring).
  assert (H6 : MF * T * M2 <= (q + 2) * M2)
    by (apply Z.mul_le_mono_nonneg_r; lia).
  assert (H7 : 2 * X <= P1 * X) by (apply Z.mul_le_mono_nonneg_r; lia).
  lia.
Qed.

(** The repetition count computed in [float64] covers the quotient and
    exceeds it by one at most, for operands up to 2^51. *)
Lemma ceil_div_bounds a b :
  0 < a <= 2 ^ 51 -> 0 < b <= 2 ^ 51 ->
  a <= to_int64 (F64.Ceil (div (of_Z a) (of_Z b))) * b /\
  0 <= to_int64 (F64.Ceil (div (of_Z a) (of_Z b))) <= a + 1.
Proof.
  intros Ha Hb.
  destruct (of_Z_normal a ltac:(lia)) as (m1 & K1 & -> & HK1 & Hm1 & Hd1).
  destruct (of_Z_normal b ltac:(lia)) as (m2 & K2 & -> & HK2 & Hm2 & Hd2).
  pose proof (digits2_pos_bounds m1) as B1. rewrite Hd1 in B1.
  pose proof (digits2_pos_bounds m2) as B2. rewrite Hd2 in B2.
  change (53 - 1) with 52 in *.
  assert (HK1' : 1 <= K1).
  { destruct (Z.eq_dec K1 0) as [->|]; [|lia]. rewrite Z.pow_0_r in Hm1. lia. }
  destruct (div_normal m1 K1 m2 K2 Hd1 Hd2 HK1 HK2)
    as (mf & t & q & -> & Ht & Hq & Hval).
  assert (HE : 0 <= K1 + 53 - K2 - t) by lia.
  replace (K2 - K1 - 53 + t) with (- (K1 + 53 - K2 - t)) by lia.
  destruct (Ceil_finite mf _ HE) as (c & -> & Hc).
  assert (HP1 : 2 <= 2 ^ K1).
  { change 2 with (2 ^ 1) at 1. apply Z.pow_le_mono_r; lia. }
  assert (HP2 : 0 < 2 ^ K2) by (apply Z.pow_pos_nonneg; lia).
  assert (HT : 0 < 2 ^ t) by (apply Z.pow_pos_nonneg; lia).
  assert (HPE : 0 < 2 ^ (K1 + 53 - K2 - t)) by (apply Z.pow_pos_nonneg; lia).
  assert (HX : 0 < 2 ^ 53) by (apply Z.pow_pos_nonneg; lia).
  assert (Hrel : 2 ^ (K1 + 53 - K2 - t) * 2 ^ t * 2 ^ K2 = 2 ^ K1 * 2 ^ 53).
  { rewrite <- !Z.pow_add_r by lia. f_equal. lia. }
  pose proof (Z.div_mod (Zpos m1 * 2 ^ 53) (Zpos m2) ltac:(lia)) as Hdm.
  pose proof (Z.mod_pos_bound (Zpos m1 * 2 ^ 53) (Zpos m2) ltac:(lia)) as Hmod.
  rewrite <- Hq in Hdm.
  assert (Hq1 : q * Zpos m2 <= Zpos m1 * 2 ^ 53) by lia.
  assert (Hq2 : Zpos m1 * 2 ^ 53 < (q + 1) * Zpos m2) by lia.
  assert (Hlow : a <= c * b).
  { apply (cover_low a b c q (Zpos mf) (2 ^ t) (2 ^ (K1 + 53 - K2 - t))
             (2 ^ K1) (2 ^ K2) (2 ^ 53) (Zpos m1) (Zpos m2)); lia. }
  assert (Hup : c <= a + 1).
  { apply (cover_up a b c q (Zpos mf) (2 ^ t) (2 ^ (K1 + 53 - K2 - t))
             (2 ^ K1) (2 ^ K2) (2 ^ 53) (Zpos m1) (Zpos m2)); lia. }
  assert (Hcpos : 0 < c).
  { destruct (Z.lt_ge_cases 0 c) as [|Hle]; [assumption|exfalso].
    assert (c * b <= 0 * b) by (apply Z.mul_le_mono_nonneg_r; lia). lia. }
  rewrite to_int64_of_Z.
  - split; [exact Hlow | lia].
  - split; [exact Hcpos|]. apply Z.le_lt_trans with (2 ^ 51 + 1); [lia|reflexivity].
Qed.

End F64Facts.

Module PaddingFacts.

Import F64 GoString Value Query GoStringFacts Utf8Facts F64Facts.

Section Padding.

Context `{Conversions} `{TextLib}.

Lemma rune_size_range pt enc r : 0 <= rune_size pt enc r <= 4.
Proof.
  destruct pt; cbn [rune_size].
  - lia.
  - pose proof (text_RuneByteSize_range r enc). lia.
  - pose proof (cmd_RuneWidth_range r). lia.
Qed.

(** The length of a string in a metric is the sum of the sizes of its
    runes. *)
Lemma metric_total pt enc s :
  metric pt enc s = total (rune_size pt enc) (runes s).
Proof.
  destruct pt; cbn [metric rune_size].
  - unfold RuneCountInString. now rewrite total_one.
  - apply text_ByteSize_runes.
  - apply cmd_TextWidth_runes.
Qed.

Lemma metric_nonneg pt enc s : 0 <= metric pt enc s.
Proof.
  rewrite metric_total. apply total_nonneg. intros r. apply rune_size_range.
Qed.

Lemma total_prefix w (pre rs : list rune) :
  (forall r, 0 <= w r) -> pre `prefix_of` rs -> total w pre <= total w rs.
Proof.
  intros Hw [k ->]. rewrite total_app. pose proof (total_nonneg w k Hw). lia.
Qed.

Lemma add_small a b :
  0 <= a -> 0 <= b -> a + b <= Int64.MaxInt64 -> Int64.add a b = a + b.
Proof.
  intros Ha Hb Hab. unfold Int64.add, Int64.wrap.
  unfold Int64.MaxInt64 in Hab. rewrite Z.mod_small; lia.
Qed.

(** The loop keeps the runes up to the first one at which the sizes sum
    up to [padLen], and fails at the first one at which they exceed it. *)
Lemma padding_loop_spec w padLen :
  (forall r, 0 <= w r <= 4) -> padLen + 4 <= Int64.MaxInt64 ->
  forall rs l buf, 0 <= l < padLen ->
    match padding_loop w padLen rs l buf with
    | Some buf' =>
        exists pre, buf' = buf ++ pre /\ pre `prefix_of` rs /\
                    (l + total w pre = padLen \/
                     (pre = rs /\ l + total w rs < padLen))
    | None =>
        exists pre r, (pre ++ [r]) `prefix_of` rs /\
                      l + total w pre < padLen < l + total w pre + w r
    end.
Proof.
  intros Hw Hfit. induction rs as [|r rs IH]; intros l buf Hl; cbn [padding_loop].
  - exists []. rewrite app_nil_r. split; [reflexivity|]. split; [reflexivity|].
    right. split; [reflexivity|]. cbn. lia.
  - pose proof (Hw r) as Hr. rewrite add_small by lia.
    destruct (Z.eqb_spec padLen (l + w r)) as [Heq|Hne].
    + exists [r]. split; [reflexivity|]. split; [now exists rs|].
      left. rewrite total_cons. cbn. lia.
    + destruct (Z.ltb_spec padLen (l + w r)) as [Hlt|Hge].
      * exists [], r. split; [now exists rs|]. cbn. lia.
      * specialize (IH (l + w r) (buf ++ [r]) ltac:(lia)).
        destruct (padding_loop w padLen rs (l + w r) (buf ++ [r])) as [buf'|].
        -- destruct IH as (pre & -> & Hpre & Hsum). exists (r :: pre).
           split; [now rewrite <- app_assoc|].
           split; [now apply prefix_cons|].
           rewrite !total_cons. destruct Hsum as [Hs|[-> Hs]]; [left; lia|].
           right. split; [reflexivity|lia].
        -- destruct IH as (pre & r' & Hpre & Hsum). exists (r :: pre), r'.
           split; [now apply (prefix_cons r) in Hpre|].
           rewrite total_cons. lia.
Qed.

(** When the loop fails, no prefix of the runes has the size asked for. *)
Lemma padding_loop_None w padLen rs :
  (forall r, 0 <= w r <= 4) -> padLen + 4 <= Int64.MaxInt64 -> 0 < padLen ->
  padding_loop w padLen rs 0 [] = None ->
  forall pre, pre `prefix_of` rs -> total w pre <> padLen.
Proof.
  intros Hw Hfit Hpos Hnone pre Hpre.
  pose proof (padding_loop_spec w padLen Hw Hfit rs 0 [] ltac:(lia)) as Hs.
  rewrite Hnone in Hs. destruct Hs as (pre0 & r & Hpre0 & Hsum).
  assert (Hw0 : forall r, 0 <= w r) by (intros r0; specialize (Hw r0); lia).
  destruct (prefix_weak_total _ _ _ Hpre Hpre0) as [Hle|Hle].
  - (* pre is a prefix of pre0 ++ [r] *)
    destruct Hle as [k Hk].
    destruct (decide (k = [])) as [->|Hk0].
    + rewrite app_nil_r in Hk. subst pre. rewrite total_app, total_cons. cbn. lia.
    + assert (Hpp : pre `prefix_of` pre0).
      { destruct (exists_last Hk0) as (k' & x & ->).
        rewrite app_assoc in Hk. apply app_inj_tail in Hk. destruct Hk as [-> _].
        now exists k'. }
      pose proof (total_prefix w _ _ Hw0 Hpp). lia.
  - pose proof (total_prefix w _ _ Hw0 Hle) as Ht.
    rewrite total_app, total_cons in Ht. cbn in Ht. lia.
Qed.

Lemma Repeat_Some s n :
  0 <= n -> n * len s <= Int64.MaxInt64 ->
  Repeat s n = Some (repeat_nat s (Z.to_nat n)).
Proof.
  intros Hn Hfit. unfold Repeat.
  destruct (Z.ltb_spec n 0); [lia|].
  destruct (Z.ltb_spec 0 (len s)) as [Hpos|_]; [|reflexivity].
  destruct (Z.ltb_spec (Int64.MaxInt64 / len s) n) as [Hlt|_]; [|reflexivity].
  exfalso. assert (n <= Int64.MaxInt64 / len s); [|lia].
  apply Z.div_le_lower_bound; lia.
Qed.

(** The runes of the result are those of the string and those kept of
    the pad string, on the side of the direction. *)
Lemma runes_join dir str buf :
  Forall (fun r => valid_rune r = true) buf ->
  runes (join dir str (of_runes buf)) =
  match dir with
  | RightDirection => runes str ++ buf
  | LeftDirection => buf ++ runes str
  end.
Proof.
  intros Hv. destruct dir; cbn [join].
  - rewrite runes_app by apply starts_clean_of_runes.
    now rewrite runes_of_runes_id.
  - now apply runes_of_runes.
Qed.

Lemma metric_join pt enc dir str buf :
  Forall (fun r => valid_rune r = true) buf ->
  metric pt enc (join dir str (of_runes buf))
  = metric pt enc str + total (rune_size pt enc) buf.
Proof.
  intros Hv. rewrite !metric_total, runes_join by exact Hv.
  destruct dir; rewrite total_app; lia.
Qed.

Lemma Forall_valid_prefix (pre rs : list rune) :
  pre `prefix_of` rs ->
  Forall (fun r => valid_rune r = true) rs ->
  Forall (fun r => valid_rune r = true) pre.
Proof. intros [k ->] Hv. now apply Forall_app in Hv. Qed.

Lemma repeat_count_bounds a b :
  0 < a <= 2 ^ 51 -> 0 < b <= 2 ^ 51 ->
  a <= repeat_count a b * b /\ 0 <= repeat_count a b <= a + 1.
Proof. apply ceil_div_bounds. Qed.

Lemma padding_unchanged fn args dir str length padstr pt enc :
  padding_call fn args str length padstr pt enc ->
  length <= metric pt enc str ->
  execStringsPadding fn args dir = Ok (arg args 0).
Proof.
  intros (Hn & Hs & Hl & Hp & Hpt & Henc) Hle. unfold execStringsPadding.
  replace ((nargs args <? 3) || (5 <? nargs args)) with false
    by (symmetry; apply orb_false_iff; rewrite !Z.ltb_ge; lia).
  rewrite Hs, Hl, Hp, Hpt, Henc. cbv zeta.
  destruct (Z.leb_spec length (metric pt enc str)); [reflexivity|lia].
Qed.

Lemma padding_padded fn args dir str length padstr pt enc :
  padding_call fn args str length padstr pt enc ->
  metric pt enc str < length -> Int64.in_range length ->
  0 < metric pt enc padstr -> valid_utf8 padstr ->
  feasible (length - metric pt enc str) (metric pt enc padstr) padstr ->
  (exists pad n,
      execStringsPadding fn args dir = Ok (String (join dir str pad)) /\
      metric pt enc (join dir str pad) = length /\
      runes pad `prefix_of` runes (repeat_nat padstr n)) \/
  (pt <> PaddingRuneCount /\
   execStringsPadding fn args dir =
     Err (FunctionInvalidArgumentError fn
            "cannot split pad string in a byte array of a character") /\
   exists n,
     length - metric pt enc str
       <= total (rune_size pt enc) (runes (repeat_nat padstr n)) /\
     forall pre, pre `prefix_of` runes (repeat_nat padstr n) ->
                 total (rune_size pt enc) pre <> length - metric pt enc str).
Proof.
  intros (Hn & Hs & Hl & Hp & Hpt & Henc) Hlt Hrange Hpos Hvalid (Hf1 & Hf2 & Hf3).
  pose proof (metric_nonneg pt enc str) as Hstr0.
  set (padLen := length - metric pt enc str) in *.
  set (padstrLen := metric pt enc padstr) in *.
  destruct (repeat_count_bounds padLen padstrLen ltac:(lia) ltac:(lia))
    as (Hcover & Hk0 & Hk1).
  set (k := repeat_count padLen padstrLen) in *.
  assert (HpadLen : Int64.sub length (metric pt enc str) = padLen).
  { unfold Int64.sub, Int64.wrap, Int64.in_range, Int64.MinInt64,
      Int64.MaxInt64 in *. fold padLen. rewrite Z.mod_small; lia. }
  assert (Hrepeat : Repeat padstr k = Some (repeat_nat padstr (Z.to_nat k))).
  { apply Repeat_Some; [lia|]. pose proof (len_nonneg padstr).
    assert (k * len padstr <= (padLen + 1) * len padstr)
      by (apply Z.mul_le_mono_nonneg_r; lia).
    lia. }
  pose proof (valid_utf8_starts_clean _ Hvalid) as Hclean.
  set (padding := repeat_nat padstr (Z.to_nat k)) in *.
  assert (Hrunes : runes padding = concat (replicate (Z.to_nat k) (runes padstr)))
    by now apply runes_repeat.
  assert (Htotal : total (rune_size pt enc) (runes padding) = k * padstrLen).
  { rewrite Hrunes, total_concat_replicate, <- metric_total. fold padstrLen. lia. }
  assert (Hexec : execStringsPadding fn args dir =
    match pt with
    | PaddingRuneCount =>
        match slice (runes padding) 0 padLen with
        | Some rs => Ok (String (join dir str (of_runes rs)))
        | None => Panic "slice bounds out of range"
        end
    | _ =>
        match padding_loop (rune_size pt enc) padLen (runes padding) 0 [] with
        | Some buf => Ok (String (join dir str (of_runes buf)))
        | None =>
            Err (FunctionInvalidArgumentError fn
                   "cannot split pad string in a byte array of a character")
        end
    end).
  { unfold execStringsPadding.
    replace ((nargs args <? 3) || (5 <? nargs args)) with false
      by (symmetry; apply orb_false_iff; rewrite !Z.ltb_ge; lia).
    rewrite Hs, Hl, Hp, Hpt, Henc. cbv zeta.
    destruct (Z.leb_spec length (metric pt enc str)); [lia|].
    rewrite HpadLen. fold padstrLen. fold k. rewrite Hrepeat. fold padding.
    destruct pt; reflexivity. }
  rewrite Hexec.
  assert (Hcase : pt = PaddingRuneCount \/ pt <> PaddingRuneCount)
    by (destruct pt; [left; reflexivity | right; discriminate..]).
  destruct Hcase as [->|Hpt'].
  - (* LEN: the first padLen runes *)
    left. assert (Hlen : padLen <= Z.of_nat (List.length (runes padding))).
    { rewrite <- total_one. change (fun _ : rune => 1)
        with (rune_size PaddingRuneCount enc). lia. }
    unfold slice.
    replace ((0 <=? 0) && (0 <=? padLen)
             && (padLen <=? Z.of_nat (List.length (runes padding)))) with true
      by (symmetry; rewrite !andb_true_iff, !Z.leb_le; lia).
    rewrite Z.sub_0_r. cbn [Z.to_nat drop].
    set (rs := take (Z.to_nat padLen) (runes padding)).
    assert (Hpre : rs `prefix_of` runes padding) by apply prefix_take.
    assert (Hv : Forall (fun r => valid_rune r = true) rs)
      by (eapply Forall_valid_prefix; [exact Hpre | apply runes_valid]).
    exists (of_runes rs), (Z.to_nat k). split; [reflexivity|]. split.
    + rewrite metric_join by exact Hv.
      change (rune_size PaddingRuneCount enc) with (fun _ : rune => 1).
      rewrite total_one. subst rs. rewrite length_take. lia.
    + now rewrite runes_of_runes_id.
  - (* BYTE and WIDTH: the loop *)
    assert (Hloop :
      match padding_loop (rune_size pt enc) padLen (runes padding) 0 [] with
      | Some buf =>
          exists pre, buf = [] ++ pre /\ pre `prefix_of` runes padding /\
                      (0 + total (rune_size pt enc) pre = padLen \/
                       (pre = runes padding /\
                        0 + total (rune_size pt enc) (runes padding) < padLen))
      | None =>
          exists pre r, (pre ++ [r]) `prefix_of` runes padding /\
                        0 + total (rune_size pt enc) pre < padLen
                        < 0 + total (rune_size pt enc) pre + rune_size pt enc r
      end).
    { apply padding_loop_spec; [intros r; apply rune_size_range | | lia].
      unfold Int64.MaxInt64. lia. }
    destruct (padding_loop (rune_size pt enc) padLen (runes padding) 0 []) as [buf|] eqn:Hrun.
    + left. destruct Hloop as (pre & -> & Hpre & Hsum). cbn [app] in *.
      assert (Hexact : total (rune_size pt enc) pre = padLen).
      { destruct Hsum as [Hx|[_ Hx]]; [lia|]. rewrite Htotal in Hx. lia. }
      assert (Hv : Forall (fun r => valid_rune r = true) pre)
        by (eapply Forall_valid_prefix; [exact Hpre | apply runes_valid]).
      exists (of_runes pre), (Z.to_nat k).
      assert (Hres : forall A (x : A), match pt with PaddingRuneCount => x | _ => x end = x)
        by (intros; now destruct pt).
      split; [destruct pt; [contradiction|reflexivity..]|]. split.
      * rewrite metric_join by exact Hv. lia.
      * now rewrite runes_of_runes_id.
    + right. split; [exact Hpt'|]. split; [destruct pt; [contradiction|reflexivity..]|].
      exists (Z.to_nat k). fold padding. split; [lia|].
      apply padding_loop_None; try exact Hrun; try lia.
      * intros r; apply rune_size_range.
      * unfold Int64.MaxInt64. lia.
Qed.

(** C4, as amended. LPAD and RPAD are [execStringsPadding] to the left
    and to the right. With the arguments converted, a string whose
    length in the metric of the padding type reaches the target is
    returned as the argument it came in. Otherwise, for a pad string
    that is well-formed UTF-8 and has a positive length in the metric,
    and for lengths in the feasible range: either the result is the
    string with, on the side of the direction, a prefix of the runes of
    the repeated pad string, and its length in the metric is the
    target; or, for BYTE and for WIDTH, the invalid-argument error is
    raised, and then no prefix of the repeated pad string has the
    missing length. *)
Theorem padding_reaches_target fn args dir str length padstr pt enc :
  padding_call fn args str length padstr pt enc ->
  Lpad fn args = execStringsPadding fn args LeftDirection /\
  Rpad fn args = execStringsPadding fn args RightDirection /\
  (length <= metric pt enc str ->
   execStringsPadding fn args dir = Ok (arg args 0)) /\
  (metric pt enc str < length -> Int64.in_range length ->
   0 < metric pt enc padstr -> valid_utf8 padstr ->
   feasible (length - metric pt enc str) (metric pt enc padstr) padstr ->
   (exists pad n,
       execStringsPadding fn args dir = Ok (String (join dir str pad)) /\
       metric pt enc (join dir str pad) = length /\
       runes pad `prefix_of` runes (repeat_nat padstr n)) \/
   (pt <> PaddingRuneCount /\
    execStringsPadding fn args dir =
      Err (FunctionInvalidArgumentError fn
             "cannot split pad string in a byte array of a character") /\
    exists n,
      length - metric pt enc str
        <= total (rune_size pt enc) (runes (repeat_nat padstr n)) /\
      forall pre, pre `prefix_of` runes (repeat_nat padstr n) ->
                  total (rune_size pt enc) pre <> length - metric pt enc str)).
Proof.
  intros Hcall. split; [reflexivity|]. split; [reflexivity|]. split.
  - intros Hle. exact (padding_unchanged fn args dir str length padstr pt enc Hcall Hle).
  - exact (padding_padded fn args dir str length padstr pt enc Hcall).
Qed.

End Padding.

Import Strict ToyText.

(** C4 on RPAD("abc", 7, "xy"): two repetitions of the pad string, cut
    to four runes. *)
Lemma padding_reaches_target_witness :
  Rpad "RPAD" [String "abc"; Integer 7; String "xy"] = Ok (String "abcxyxy") /\
  ((exists pad n,
       execStringsPadding "RPAD" [String "abc"; Integer 7; String "xy"] RightDirection
         = Ok (String (join RightDirection "abc" pad)) /\
       metric PaddingRuneCount UTF8 (join RightDirection "abc" pad) = 7 /\
       runes pad `prefix_of` runes (repeat_nat "xy" n)) \/
   (PaddingRuneCount <> PaddingRuneCount /\
    execStringsPadding "RPAD" [String "abc"; Integer 7; String "xy"] RightDirection =
      Err (FunctionInvalidArgumentError "RPAD"
             "cannot split pad string in a byte array of a character") /\
    exists n,
      7 - metric PaddingRuneCount UTF8 "abc"
        <= total (rune_size PaddingRuneCount UTF8) (runes (repeat_nat "xy" n)) /\
      forall pre, pre `prefix_of` runes (repeat_nat "xy" n) ->
                  total (rune_size PaddingRuneCount UTF8) pre
                  <> 7 - metric PaddingRuneCount UTF8 "abc")).
Proof.
  split; [vm_compute; reflexivity|].
  assert (Hcall : padding_call "RPAD" [String "abc"; Integer 7; String "xy"]
                    "abc" 7 "xy" PaddingRuneCount UTF8).
  { unfold padding_call. repeat split; try reflexivity; vm_compute; discriminate. }
  pose proof (@padding_reaches_target Strict.conversions ToyText.textlib
                "RPAD" _ RightDirection _ _ _ _ _ Hcall) as (_ & _ & _ & H).
  apply H.
  - vm_compute. reflexivity.
  - unfold Int64.in_range, Int64.MinInt64, Int64.MaxInt64. lia.
  - vm_compute. reflexivity.
  - reflexivity.
  - unfold feasible. repeat split; vm_compute; discriminate.
Defined.

(** C4 as stated fails for WIDTH: LPAD("a", 2, pad, "WIDTH") with the
    full-width U+3042 as pad string. The string has width 1, below the
    target, and the pad string is not empty, but the result is the
    error, not a string of width 2. *)
Lemma padding_width_splits :
  metric PaddingWidth UTF8 "a" = 1 /\
  hiragana_a <> "" /\
  Lpad "LPAD" [String "a"; Integer 2; String hiragana_a; String "WIDTH"]
    = Err (FunctionInvalidArgumentError "LPAD"
             "cannot split pad string in a byte array of a character") /\
  (forall res,
      Lpad "LPAD" [String "a"; Integer 2; String hiragana_a; String "WIDTH"]
      <> Ok (String res)).
Proof.
  split; [reflexivity|]. split; [discriminate|].
  assert (Hr : Lpad "LPAD" [String "a"; Integer 2; String hiragana_a; String "WIDTH"]
    = Err (FunctionInvalidArgumentError "LPAD"
             "cannot split pad string in a byte array of a character"))
    by (vm_compute; reflexivity).
  split; [exact Hr|]. intros res. rewrite Hr. discriminate.
Qed.

(** With a pad string of width 0, the repetition count is the
    conversion of +Inf to an integer, and [strings.Repeat] panics. *)
Lemma padding_zero_width_panics :
  metric PaddingWidth UTF8 acute = 0 /\
  Lpad "LPAD" [String "a"; Integer 3; String acute; String "WIDTH"]
    = Panic "strings: negative Repeat count".
Proof. split; vm_compute; reflexivity. Qed.

End PaddingFacts.

Module StrconvFacts.

Import GoString Strconv Utf8Facts.

Lemma digit_char_val d : 0 <= d < 36 -> digit_val (digit_char d) = Some d.
Proof.
  intros Hd. unfold digit_val, digit_char.
  destruct (Z.ltb_spec d 10).
  - rewrite byte_val_of by lia.
    destruct (Z.leb_spec 48 (48 + d)); [|lia].
    destruct (Z.leb_spec (48 + d) 57); [|lia]. cbn. f_equal. lia.
  - rewrite byte_val_of by lia.
    destruct (Z.leb_spec 48 (87 + d)); [|lia].
    destruct (Z.leb_spec (87 + d) 57); [lia|]. cbn.
    destruct (Z.leb_spec 97 (87 + d)); [|lia].
    destruct (Z.leb_spec (87 + d) 122); [|lia]. cbn. f_equal. lia.
Qed.

Lemma digit_char_byte d :
  0 <= d < 36 ->
  byte_val (digit_char d) = if d <? 10 then 48 + d else 87 + d.
Proof.
  intros Hd. unfold digit_char.
  destruct (Z.ltb_spec d 10); rewrite byte_val_of; lia.
Qed.

Lemma parse_uint_loop_app s t base n :
  parse_uint_loop (s +:+ t) base n =
  match parse_uint_loop s base n with
  | inl m => parse_uint_loop t base m
  | inr e => inr e
  end.
Proof.
  revert n. induction s as [|c s IH]; intros n; [reflexivity|].
  rewrite append_cons. cbn [parse_uint_loop].
  destruct (digit_val c) as [d|]; [|reflexivity].
  destruct (base <=? d); [reflexivity|].
  destruct (maxUint64 / base + 1 <=? n); [reflexivity|].
  destruct (maxUint64 <? n * base + d); [reflexivity|]. apply IH.
Qed.

Lemma format_bits_app fuel base : forall u acc,
  format_bits fuel u base acc = format_bits fuel u base "" +:+ acc.
Proof.
  induction fuel as [|fuel IH]; intros u acc; cbn [format_bits].
  - reflexivity.
  - destruct (u <? base); [reflexivity|].
    rewrite (IH _ (String _ acc)), (IH _ (String _ "")).
    rewrite append_assoc. reflexivity.
Qed.

(** The digits written are read back as the number. *)
Lemma parse_format_bits base : 2 <= base <= 36 ->
  forall fuel u,
    0 <= u <= maxUint64 -> u < base ^ Z.of_nat fuel ->
    parse_uint_loop (format_bits fuel u base "") base 0 = inl u.
Proof.
  intros Hb. unfold maxUint64.
  assert (Hcut : forall q, 0 <= q -> q * base <= 2 ^ 64 - 1 ->
                 ((2 ^ 64 - 1) / base + 1 <=? q) = false).
  { intros q Hq Hle. apply Z.leb_gt.
    assert (q <= (2 ^ 64 - 1) / base) by (apply Z.div_le_lower_bound; lia). lia. }
  induction fuel as [|fuel IH]; intros u Hu Hfuel.
  - cbn in Hfuel. assert (u = 0) by lia. subst u. reflexivity.
  - cbn [format_bits]. destruct (Z.ltb_spec u base) as [Hlt|Hge].
    + cbn [parse_uint_loop]. rewrite digit_char_val by lia.
      destruct (Z.leb_spec base u); [lia|].
      unfold maxUint64. rewrite Hcut by lia.
      replace (0 * base + u) with u by lia.
      destruct (Z.ltb_spec (2 ^ 64 - 1) u); [lia|]. reflexivity.
    + rewrite format_bits_app, parse_uint_loop_app.
      assert (Hq : 0 <= u / base) by (apply Z.div_pos; lia).
      assert (Hdm : u = base * (u / base) + u mod base) by (apply Z.div_mod; lia).
      assert (Hm : 0 <= u mod base < base) by (apply Z.mod_pos_bound; lia).
      rewrite IH.
      * cbn [parse_uint_loop]. rewrite digit_char_val by lia.
        destruct (Z.leb_spec base (u mod base)); [lia|].
        unfold maxUint64. rewrite Hcut by lia.
        replace (u / base * base + u mod base) with u by lia.
        destruct (Z.ltb_spec (2 ^ 64 - 1) u); [lia|]. reflexivity.
      * nia.
      * rewrite Nat2Z.inj_succ, Z.pow_succ_r in Hfuel by lia.
        apply Z.div_lt_upper_bound; lia.
Qed.

(** Sixty-four digits are enough for a [uint64]. *)
Lemma fuel_enough base u : 2 <= base -> u <= maxUint64 -> u < base ^ Z.of_nat 64.
Proof.
  intros Hb Hu. unfold maxUint64 in Hu.
  assert (2 ^ 64 <= base ^ 64) by (apply Z.pow_le_mono_l; lia).
  change (Z.of_nat 64) with 64. lia.
Qed.

(** With fuel left, the first character written is a digit; it is not
    the digit 0 when the number is not 0. *)
Lemma format_bits_head base : 2 <= base <= 36 ->
  forall fuel u acc,
    0 <= u -> u < base ^ Z.of_nat (S fuel) ->
    exists d rest,
      format_bits (S fuel) u base acc = String (digit_char d) rest /\
      0 <= d < base /\ (0 < u -> 0 < d).
Proof.
  intros Hb. induction fuel as [|fuel IH]; intros u acc Hu Hfuel.
  - cbn [format_bits]. change (Z.of_nat 1) with 1 in Hfuel. rewrite Z.pow_1_r in Hfuel.
    destruct (Z.ltb_spec u base); [|lia].
    exists u, acc. repeat split; lia.
  - cbn [format_bits]. destruct (Z.ltb_spec u base) as [Hlt|Hge].
    + exists u, acc. repeat split; lia.
    + assert (Hq : 0 < u / base) by (apply Z.div_str_pos; lia).
      destruct (IH (u / base) (String (digit_char (u mod base)) acc)) as (d & rest & Heq & Hd & Hpos).
      * lia.
      * rewrite Nat2Z.inj_succ, Z.pow_succ_r in Hfuel by lia.
        apply Z.div_lt_upper_bound; lia.
      * cbn [format_bits] in Heq. exists d, rest. split; [exact Heq|]. split; [exact Hd|].
        intros _. apply Hpos. exact Hq.
Qed.

Lemma digit_char_no_sign d :
  0 <= d < 36 -> digit_char d <> "-"%char /\ digit_char d <> "+"%char.
Proof.
  intros Hd. pose proof (digit_char_byte d Hd) as Hb.
  split; intros Heq; rewrite Heq in Hb;
    change (byte_val "-") with 45 in Hb; change (byte_val "+") with 43 in Hb;
    destruct (Z.ltb_spec d 10); lia.
Qed.

(** [ParseInt] reads back what [FormatInt] writes, for every [int64]. *)
Lemma ParseInt_FormatInt base i :
  2 <= base <= 36 -> Int64.in_range i ->
  ParseInt (FormatInt i base) base = inl i.
Proof.
  intros Hb Hi. unfold Int64.in_range, Int64.MinInt64, Int64.MaxInt64 in Hi.
  unfold FormatInt. destruct (Z.ltb_spec i 0) as [Hneg|Hpos].
  - unfold ParseInt.
    rewrite (bool_decide_eq_true_2 ("-"%char = "-"%char) eq_refl), orb_true_r.
    assert (Hu : 0 <= - i <= maxUint64) by (unfold maxUint64; lia).
    destruct (format_bits_head base Hb 63 (- i) "" ltac:(lia)
                (fuel_enough base (- i) ltac:(lia) ltac:(lia)))
      as (d & rest & Heq & Hd & _).
    pose proof (parse_format_bits base Hb 64 (- i) Hu
                  (fuel_enough base (- i) ltac:(lia) ltac:(lia))) as Hp.
    unfold ParseUint. rewrite Heq in *. rewrite Hp.
    cbn [negb andb].
    destruct (Z.ltb_spec (2 ^ 63) (- i)); [lia|]. f_equal. lia.
  - assert (Hu : 0 <= i <= maxUint64) by (unfold maxUint64; lia).
    destruct (format_bits_head base Hb 63 i "" ltac:(lia)
                (fuel_enough base i ltac:(lia) ltac:(lia)))
      as (d & rest & Heq & Hd & _).
    pose proof (parse_format_bits base Hb 64 i Hu
                  (fuel_enough base i ltac:(lia) ltac:(lia))) as Hp.
    rewrite Heq in *. unfold ParseInt.
    destruct (digit_char_no_sign d ltac:(lia)) as [Hm Hp'].
    rewrite (bool_decide_eq_false_2 _ Hm), (bool_decide_eq_false_2 _ Hp').
    cbn [orb]. unfold ParseUint. rewrite Hp. cbn [negb andb].
    destruct (Z.leb_spec (2 ^ 63) i); [lia|]. reflexivity.
Qed.

End StrconvFacts.

Module HexFacts.

Import GoString Strconv EncodingHex Utf8Facts StrconvFacts.

Lemma byte_of_val a : byte_of (byte_val a) = a.
Proof.
  unfold byte_of, byte_val. rewrite N2Z.id. apply ascii_N_embedding.
Qed.

Lemma fromHexChar_digit d : 0 <= d < 16 -> fromHexChar (digit_char d) = Some d.
Proof.
  intros Hd. unfold fromHexChar. rewrite digit_char_byte by lia.
  destruct (Z.ltb_spec d 10).
  - destruct (Z.leb_spec 48 (48 + d)); [|lia].
    destruct (Z.leb_spec (48 + d) 57); [|lia]. cbn. f_equal. lia.
  - destruct (Z.leb_spec 48 (87 + d)); [|lia].
    destruct (Z.leb_spec (87 + d) 57); [lia|]. cbn.
    destruct (Z.leb_spec 97 (87 + d)); [|lia].
    destruct (Z.leb_spec (87 + d) 102); [|lia]. cbn. f_equal. lia.
Qed.

(** What was encoded is decoded first, whatever follows it. *)
Lemma DecodeString_EncodeToString s t :
  DecodeString (EncodeToString s +:+ t) =
  (s +:+ fst (DecodeString t), snd (DecodeString t)).
Proof.
  induction s as [|a s IH].
  - cbn [EncodeToString]. rewrite append_nil. now destruct (DecodeString t).
  - cbn [EncodeToString]. rewrite !append_cons. cbn [DecodeString].
    pose proof (byte_val_range a) as Ha.
    assert (Hq : 0 <= byte_val a / 16 < 16) by (Z.div_mod_to_equations; lia).
    assert (Hr : 0 <= byte_val a mod 16 < 16) by (Z.div_mod_to_equations; lia).
    rewrite !fromHexChar_digit by assumption.
    rewrite IH.
    replace (byte_val a / 16 * 16 + byte_val a mod 16) with (byte_val a)
      by (Z.div_mod_to_equations; lia).
    rewrite byte_of_val. reflexivity.
Qed.

Lemma length_EncodeToString s :
  String.length (EncodeToString s) = (2 * String.length s)%nat.
Proof. induction s as [|a s IH]; cbn [EncodeToString String.length]; lia. Qed.

End HexFacts.

Module TrimFacts.

Import GoString Strings Utf8Facts.

Lemma TrimLeft_keep a rest cutset :
  byte_val a < 128 -> byte_val a ∉ runes cutset ->
  TrimLeft (String a rest) cutset = String a rest.
Proof.
  intros Ha Hn. unfold TrimLeft. destruct cutset; [reflexivity|].
  unfold TrimLeftFunc. cbn [trim_left_from decode_rune].
  destruct (Z.ltb_spec (byte_val a) 128); [|lia].
  now rewrite bool_decide_eq_false_2.
Qed.

Lemma TrimLeft_drop a rest cutset :
  byte_val a < 128 -> byte_val a ∈ runes cutset ->
  TrimLeft (String a rest) cutset = TrimLeft rest cutset.
Proof.
  intros Ha Hin. unfold TrimLeft. destruct cutset as [|c cs].
  - cbn in Hin. now apply elem_of_nil in Hin.
  - unfold TrimLeftFunc. cbn [trim_left_from decode_rune].
    destruct (Z.ltb_spec (byte_val a) 128); [|lia].
    rewrite bool_decide_eq_true_2 by exact Hin.
    cbn [Nat.sub]. now destruct rest.
Qed.

Lemma runes_ascii s : ascii_only s = true -> runes s = codes s.
Proof.
  induction s as [|a s IH]; [reflexivity|].
  cbn [ascii_only codes]. rewrite andb_true_iff, Z.ltb_lt. intros [Ha Hs].
  unfold runes in *. cbn [runes_from decode_rune].
  destruct (Z.ltb_spec (byte_val a) 128); [|lia].
  cbn [Nat.sub]. now rewrite IH.
Qed.

Lemma of_runes_codes s : ascii_only s = true -> of_runes (codes s) = s.
Proof.
  induction s as [|a s IH]; [reflexivity|].
  cbn [ascii_only codes of_runes]. rewrite andb_true_iff, Z.ltb_lt. intros [Ha Hs].
  rewrite IH by exact Hs. unfold encode_rune.
  pose proof (byte_val_range a) as Hr.
  assert (Hv : valid_rune (byte_val a) = true).
  { unfold valid_rune. apply orb_true_iff. left.
    rewrite andb_true_iff, Z.leb_le, Z.ltb_lt. lia. }
  rewrite Hv. destruct (Z.ltb_spec (byte_val a) 128); [|lia].
  rewrite HexFacts.byte_of_val. reflexivity.
Qed.

Lemma codes_app s t : codes (s +:+ t) = codes s ++ codes t.
Proof.
  induction s as [|a s IH]; [now rewrite append_nil|].
  rewrite append_cons. cbn [codes]. now rewrite IH.
Qed.

Lemma ascii_only_app s t :
  ascii_only (s +:+ t) = ascii_only s && ascii_only t.
Proof.
  induction s as [|a s IH]; [now rewrite append_nil|].
  rewrite append_cons. cbn [ascii_only]. now rewrite IH, andb_assoc.
Qed.

Lemma length_codes s : length (codes s) = String.length s.
Proof. induction s as [|a s IH]; cbn; congruence. Qed.

End TrimFacts.

Module BuiltinFacts.

Import F64 GoString Value Query Strconv Strings Builtin.
Import GoStringFacts Utf8Facts StrconvFacts HexFacts TrimFacts.

Section Functions.

Context {conv : Conversions} {cmp : Comparison}.

Lemma first_not_null_spec args :
  (exists pre a post,
      args = pre ++ a :: post /\ Forall (fun p => p = Null) pre /\
      a <> Null /\ first_not_null args = a) \/
  (Forall (fun p => p = Null) args /\ first_not_null args = Null).
Proof.
  induction args as [|a args IH].
  - right. split; [constructor | reflexivity].
  - cbn [first_not_null]. destruct a; cbn [IsNull];
      try (left; eexists [], _, args; repeat split; [constructor | discriminate]).
    destruct IH as [(pre & b & post & -> & Hpre & Hb & Hr)|[Hall Hr]].
    + left. exists (Null :: pre), b, post. repeat split; try assumption.
      constructor; [reflexivity | exact Hpre].
    + right. split; [constructor; [reflexivity | exact Hall] | exact Hr].
Qed.

(** X1. COALESCE without arguments is the argument-length error; with
    arguments it answers the first of them that is not Null, and Null
    when all of them are Null. *)
Theorem Coalesce_first_not_null fn :
  Coalesce fn [] =
    Err (FunctionArgumentLengthErrorWithCustomArgs fn "at least 1 argument") /\
  forall a rest,
    (exists pre b post,
        a :: rest = pre ++ b :: post /\ Forall (fun p => p = Null) pre /\
        b <> Null /\ Coalesce fn (a :: rest) = Ok b) \/
    (Forall (fun p => p = Null) (a :: rest) /\ Coalesce fn (a :: rest) = Ok Null).
Proof.
  split; [reflexivity|]. intros a rest.
  assert (Hc : Coalesce fn (a :: rest) = Ok (first_not_null (a :: rest))).
  { unfold Coalesce, nargs. cbn [length].
    destruct (Z.ltb_spec (Z.of_nat (S (length rest))) 1); [lia | reflexivity]. }
  rewrite Hc.
  destruct (first_not_null_spec (a :: rest)) as [(pre & b & post & He & Hp & Hb & Hr)|[Hall Hr]].
  - left. exists pre, b, post. rewrite Hr. now repeat split.
  - right. rewrite Hr. now split.
Qed.

(** X2. IFNULL(a, b) is COALESCE(a, b); and whatever the comparison of
    NULLIF answers, IFNULL(NULLIF(a, b), a) gives [a] back. *)
Theorem Ifnull_is_Coalesce fn a b :
  Ifnull fn [a; b] = Coalesce fn [a; b] /\
  exists v, Nullif fn [a; b] = Ok v /\ Ifnull fn [v; a] = Ok a.
Proof.
  split.
  - unfold Ifnull, Coalesce. cbn [nargs length arg nth Z.of_nat].
    change (negb (2 =? 2)) with false. change (2 <? 1) with false. cbv iota.
    cbn [first_not_null]. destruct a; cbn [IsNull]; try reflexivity.
    destruct b; reflexivity.
  - unfold Nullif, Ifnull. cbn [nargs length arg nth Z.of_nat].
    change (negb (2 =? 2)) with false. cbv iota.
    destruct (value_Equal a b).
    + exists Null. split; reflexivity.
    + exists a. split; [reflexivity|]. now destruct a.
    + exists a. split; [reflexivity|]. now destruct a.
Qed.

Lemma execFormatInt_spec fn a i base :
  ToInteger a = Some i ->
  execFormatInt fn [a] base = Ok (String (FormatInt i base)).
Proof.
  intros Ha. unfold execFormatInt. cbn [nargs length arg nth Z.of_nat].
  change (negb (1 =? 1)) with false. cbv iota. now rewrite Ha.
Qed.

Lemma execParseInt_spec fn s base :
  execParseInt fn [String s] base =
  match ParseInt (if base =? 16 then ltrim s "0x" else s) base with
  | inr _ => Ok Null
  | inl i => Ok (Integer i)
  end.
Proof.
  unfold execParseInt. cbn [nargs length arg nth Z.of_nat].
  change (negb (1 =? 1)) with false. cbv iota. now rewrite ToString_String.
Qed.

(** X3. BIN_TO_DEC reads back what BIN writes, and OCT_TO_DEC what OCT
    writes, for every 64-bit integer, the negative ones included. *)
Theorem BinToDec_Bin fn fn' a i :
  ToInteger a = Some i -> Int64.in_range i ->
  (exists s, Bin fn [a] = Ok (String s) /\
             BinToDec fn' [String s] = Ok (Integer i)) /\
  (exists s, Oct fn [a] = Ok (String s) /\
             OctToDec fn' [String s] = Ok (Integer i)).
Proof.
  intros Ha Hi. split.
  - exists (FormatInt i 2). split; [now apply execFormatInt_spec|].
    unfold BinToDec. rewrite execParseInt_spec. change (2 =? 16) with false.
    cbv iota. now rewrite ParseInt_FormatInt by (lia || assumption).
  - exists (FormatInt i 8). split; [now apply execFormatInt_spec|].
    unfold OctToDec. rewrite execParseInt_spec. change (8 =? 16) with false.
    cbv iota. now rewrite ParseInt_FormatInt by (lia || assumption).
Qed.

Lemma runes_0x : runes "0x" = [48; 120].
Proof. reflexivity. Qed.

Lemma ltrim_0x_keep a rest :
  byte_val a < 128 -> byte_val a <> 48 -> byte_val a <> 120 ->
  ltrim (String.String a rest) "0x" = String.String a rest.
Proof.
  intros Ha H0 Hx. unfold ltrim. change (len "0x" <? 1) with false. cbv iota.
  apply TrimLeft_keep; [exact Ha|]. rewrite runes_0x.
  rewrite !not_elem_of_cons. repeat split; try assumption. apply not_elem_of_nil.
Qed.

Lemma ltrim_0x_drop a rest :
  byte_val a = 48 \/ byte_val a = 120 ->
  ltrim (String.String a rest) "0x" = ltrim rest "0x".
Proof.
  intros Ha. unfold ltrim. change (len "0x" <? 1) with false. cbv iota.
  apply TrimLeft_drop; [lia|]. rewrite runes_0x.
  rewrite !elem_of_cons. destruct Ha as [-> | ->]; auto.
Qed.

(** What HEX writes for a number other than 0 starts with the sign or
    with a digit other than 0, which [ltrim] keeps. *)
Lemma ltrim_FormatInt_16 i :
  Int64.in_range i -> i <> 0 ->
  ltrim (FormatInt i 16) "0x" = FormatInt i 16.
Proof.
  intros Hi Hne. unfold Int64.in_range, Int64.MinInt64, Int64.MaxInt64 in Hi.
  unfold FormatInt. destruct (Z.ltb_spec i 0).
  - apply ltrim_0x_keep; change (byte_val "-"%char) with 45; lia.
  - destruct (format_bits_head 16 ltac:(lia) 63 i "" ltac:(lia)
                (fuel_enough 16 i ltac:(lia) ltac:(unfold maxUint64; lia)))
      as (d & rest & -> & Hd & Hpos).
    specialize (Hpos ltac:(lia)).
    apply ltrim_0x_keep; rewrite digit_char_byte by lia;
      destruct (Z.ltb_spec d 10); lia.
Qed.

(** X4. HEX_TO_DEC reads back what HEX writes for every 64-bit integer
    except 0: the text of 0 is the digit 0 alone, which is stripped as
    a prefix, and HEX_TO_DEC answers Null. *)
Theorem HexToDec_Hex fn fn' a i :
  ToInteger a = Some i -> Int64.in_range i ->
  exists s, Hex fn [a] = Ok (String s) /\
            HexToDec fn' [String s] = Ok (if i =? 0 then Null else Integer i).
Proof.
  intros Ha Hi. exists (FormatInt i 16). split; [now apply execFormatInt_spec|].
  unfold HexToDec. rewrite execParseInt_spec. change (16 =? 16) with true.
  cbv iota. destruct (Z.eqb_spec i 0) as [->|Hne].
  - reflexivity.
  - rewrite ltrim_FormatInt_16 by assumption.
    now rewrite ParseInt_FormatInt by (lia || assumption).
Qed.

(** X5. HEX_TO_DEC ignores every leading 0 and x of its argument, not
    one 0x prefix only. *)
Theorem HexToDec_prefix fn p s :
  Forall (fun r => r = 48 \/ r = 120) (codes p) ->
  HexToDec fn [String (p +:+ s)] = HexToDec fn [String s].
Proof.
  intros Hp. unfold HexToDec. rewrite !execParseInt_spec.
  change (16 =? 16) with true. cbv iota.
  assert (Hl : ltrim (p +:+ s) "0x" = ltrim s "0x"); [|now rewrite Hl].
  induction p as [|a p IH]; [now rewrite append_nil|].
  cbn [codes] in Hp. inversion Hp as [|? ? Ha Hrest]; subst.
  rewrite append_cons, ltrim_0x_drop by exact Ha. now apply IH.
Qed.

Lemma execStrings1Arg_spec fn a s f :
  ToString a = Some s -> execStrings1Arg fn [a] f = Ok (String (f s)).
Proof.
  intros Ha. unfold execStrings1Arg. cbn [nargs length arg nth Z.of_nat].
  change (negb (1 =? 1)) with false. cbv iota. now rewrite Ha.
Qed.

(** X6. HEX_DECODE gives back what HEX_ENCODE was given; followed by
    any other text, the encoded part is still decoded, and then as much
    of the rest as is well formed: HEX_DECODE never fails. *)
Theorem HexDecode_HexEncode fn fn' a s :
  ToString a = Some s ->
  exists e,
    HexEncode fn [a] = Ok (String e) /\
    HexDecode fn' [String e] = Ok (String s) /\
    len e = 2 * len s /\
    forall t, HexDecode fn' [String (e +:+ t)] = Ok (String (s +:+ hexDecode t)).
Proof.
  intros Ha. exists (hexEncode s).
  split; [now apply execStrings1Arg_spec|].
  assert (Ht : forall t, HexDecode fn' [String (hexEncode s +:+ t)]
                         = Ok (String (s +:+ hexDecode t))).
  { intros t. unfold HexDecode.
    rewrite (execStrings1Arg_spec _ _ _ _ (ToString_String _)).
    unfold hexDecode, hexEncode. now rewrite DecodeString_EncodeToString. }
  split; [|split; [|exact Ht]].
  - specialize (Ht ""). rewrite !append_nil_r in Ht. exact Ht.
  - unfold len, hexEncode. rewrite length_EncodeToString. lia.
Qed.

End Functions.

End BuiltinFacts.

Module ComposeFacts.

Import F64 GoString Value Query Strconv Strings Builtin.
Import GoStringFacts Utf8Facts TrimFacts.

Section Compose.

Context {conv : Conversions}.

Lemma Len_spec fn s : Len fn [String s] = Ok (Integer (RuneCountInString s)).
Proof.
  unfold Len, execStringsLen. cbn [nargs length arg nth Z.of_nat].
  change (negb (1 =? 1)) with false. cbv iota. now rewrite ToString_String.
Qed.

Lemma Forall_valid_take_drop (n k : nat) (rs : list rune) :
  Forall (fun r => valid_rune r = true) rs ->
  Forall (fun r => valid_rune r = true) (take n (drop k rs)).
Proof. intros Hv. apply Forall_take, Forall_drop, Hv. Qed.

(** X7. In a string of ASCII characters (of a length that fits an
    [int]), SUBSTR at the offset INSTR answers, for the length of the
    text searched, is that text. *)
Theorem Substr_at_Instr fn fn' s sub i :
  ascii_only s = true -> len s <= Int64.MaxInt64 -> sub <> "" ->
  Instr fn [String s; String sub] = Ok (Integer i) ->
  Substr fn' [String s; Integer i; Integer (len sub)] = Ok (String sub).
Proof.
  intros Hs Hfit Hsub Hi. rewrite InstrFacts.Instr_strings in Hi.
  destruct (Index_spec s sub) as [[Hr _]|(H0 & Hocc & _)].
  - rewrite Hr in Hi. discriminate Hi.
  - destruct (Z.ltb_spec (Index s sub) 0); [lia|].
    injection Hi as <-. set (i := Index s sub) in *.
    destruct Hocc as (pre & post & Heq & Hlen).
    pose proof Hs as Hs'. rewrite Heq, !ascii_only_app, !andb_true_iff in Hs'.
    destruct Hs' as (Hpre & Hsb & Hpost).
    assert (Hrunes : runes s = codes pre ++ codes sub ++ codes post).
    { rewrite runes_ascii by exact Hs. now rewrite Heq, !codes_app. }
    assert (Hlp : length (codes pre) = Z.to_nat i).
    { rewrite length_codes. unfold len in Hlen. lia. }
    assert (Hsl : (0 < String.length sub)%nat).
    { destruct sub; [congruence | cbn; lia]. }
    assert (Hw : wrapped_start s i = i).
    { unfold wrapped_start. destruct (Z.ltb_spec i 0); [lia | reflexivity]. }
    assert (Hout : start_outside s i = false).
    { unfold start_outside. rewrite Hw, Hrunes, !length_app, !length_codes.
      apply orb_false_iff. rewrite Z.ltb_ge, Z.leb_gt. unfold len in Hlen. lia. }
    rewrite SubstrFacts.Substr_three_len.
    + rewrite Hw, Hrunes. rewrite drop_app_length' by (symmetry; exact Hlp).
      unfold len. rewrite Nat2Z.id.
      rewrite take_app_length' by (symmetry; apply length_codes).
      now rewrite of_runes_codes.
    + exact Hout.
    + unfold len. lia.
    + rewrite Hw. rewrite Heq in Hfit. unfold len in *.
      rewrite !length_append in Hfit. lia.
Qed.

(** On runes of several bytes the two do not fit together: INSTR finds
    the second of three three-byte runes at byte 3, where SUBSTR, which
    counts runes, finds nothing. *)
Lemma Substr_at_Instr_bytes fn fn' :
  Instr fn [String Samples.nihongo; String Samples.hon] = Ok (Integer 3) /\
  Substr fn' [String Samples.nihongo; Integer 3; Integer 1] = Ok Null.
Proof.
  split.
  - rewrite InstrFacts.Instr_strings. reflexivity.
  - rewrite SubstrFacts.Substr_three. reflexivity.
Qed.


End Compose.

End ComposeFacts.

Module BuiltinExamples.

Import F64 GoString Value Query Strconv Strings Builtin.
Import Strict.

(** X3 on -5: BIN writes -101 and OCT writes -5. *)
Lemma BinToDec_Bin_witness :
  Bin "BIN" [Integer (-5)] = Ok (String "-101") /\
  (exists s, Bin "BIN" [Integer (-5)] = Ok (String s) /\
             BinToDec "BIN_TO_DEC" [String s] = Ok (Integer (-5))) /\
  (exists s, Oct "OCT" [Integer (-5)] = Ok (String s) /\
             OctToDec "OCT_TO_DEC" [String s] = Ok (Integer (-5))).
Proof.
  split; [reflexivity|].
  apply (@BuiltinFacts.BinToDec_Bin Strict.conversions
           "BIN" "BIN_TO_DEC" (Integer (-5)) (-5) eq_refl).
  unfold Int64.in_range, Int64.MinInt64, Int64.MaxInt64. lia.
Defined.

(** X4 on 255, which HEX writes as ff. *)
Lemma HexToDec_Hex_witness :
  Hex "HEX" [Integer 255] = Ok (String "ff") /\
  exists s, Hex "HEX" [Integer 255] = Ok (String s) /\
            HexToDec "HEX_TO_DEC" [String s] = Ok (Integer 255).
Proof.
  split; [reflexivity|].
  apply (@BuiltinFacts.HexToDec_Hex Strict.conversions
           "HEX" "HEX_TO_DEC" (Integer 255) 255 eq_refl).
  unfold Int64.in_range, Int64.MinInt64, Int64.MaxInt64. lia.
Defined.

(** X4 on 0: the text is stripped to nothing. *)
Lemma HexToDec_zero :
  Hex "HEX" [Integer 0] = Ok (String "0") /\
  HexToDec "HEX_TO_DEC" [String "0"] = Ok Null.
Proof. split; reflexivity. Qed.

(** X5 on x0x0ff. *)
Lemma HexToDec_prefix_witness :
  HexToDec "HEX_TO_DEC" [String "x0x0ff"] = HexToDec "HEX_TO_DEC" [String "ff"] /\
  HexToDec "HEX_TO_DEC" [String "ff"] = Ok (Integer 255).
Proof.
  split; [|reflexivity].
  apply (@BuiltinFacts.HexToDec_prefix Strict.conversions "HEX_TO_DEC" "x0x0" "ff").
  repeat constructor; (left; reflexivity) || (right; reflexivity).
Defined.

(** X6 on the text "csvq". *)
Lemma HexDecode_HexEncode_witness :
  HexEncode "HEX_ENCODE" [String "csvq"] = Ok (String "63737671") /\
  exists e,
    HexEncode "HEX_ENCODE" [String "csvq"] = Ok (String e) /\
    HexDecode "HEX_DECODE" [String e] = Ok (String "csvq") /\
    len e = 2 * len "csvq" /\
    forall t, HexDecode "HEX_DECODE" [String (e +:+ t)]
              = Ok (String ("csvq" +:+ hexDecode t)).
Proof.
  split; [reflexivity|].
  apply (@BuiltinFacts.HexDecode_HexEncode Strict.conversions
           "HEX_ENCODE" "HEX_DECODE" (String "csvq") "csvq" eq_refl).
Defined.

(** X7 on "chicken" and "ken". *)
Lemma Substr_at_Instr_witness :
  Instr "INSTR" [String "chicken"; String "ken"] = Ok (Integer 4) /\
  Substr "SUBSTR" [String "chicken"; Integer 4; Integer (len "ken")]
    = Ok (String "ken").
Proof.
  assert (Hi : Instr "INSTR" [String "chicken"; String "ken"] = Ok (Integer 4))
    by reflexivity.
  split; [exact Hi|].
  apply (@ComposeFacts.Substr_at_Instr Strict.conversions
           "INSTR" "SUBSTR" "chicken" "ken" 4 eq_refl).
  - vm_compute. discriminate.
  - discriminate.
  - exact Hi.
Defined.


End BuiltinExamples.

Module FlagElementFacts.

Import F64 GoString Value Statement FlagElement.

Lemma elem_of_by_decision (x : string) (l : list string) :
  bool_decide (x ∈ l) = true -> x ∈ l.
Proof. apply bool_decide_eq_true. Qed.

(** The flags ADD and REMOVE do not support are the flags of [SetFlag]
    other than DATETIME_FORMAT. *)
Lemma single_valued_flags_spec name :
  name ∈ single_valued_flags <-> name ∈ all_flags /\ name <> DatetimeFormatFlag.
Proof.
  split.
  - intros Hin. unfold single_valued_flags in Hin.
    repeat (apply elem_of_cons in Hin as [-> | Hin];
            [split; [apply elem_of_by_decision; vm_compute; reflexivity
                    | intros Heq; vm_compute in Heq; discriminate Heq]|]).
    now apply elem_of_nil in Hin.
  - intros [Hin Hne]. unfold all_flags, string_flags, boolean_flags in Hin.
    rewrite !elem_of_app in Hin.
    destruct Hin as [Hin|[Hin|Hin]];
      repeat (apply elem_of_cons in Hin as [-> | Hin];
              [first [now destruct Hne
                     | apply elem_of_by_decision; vm_compute; reflexivity]|]);
      now apply elem_of_nil in Hin.
Qed.

Lemma is_case_one name c : is_case name [c] = bool_decide (name = c).
Proof.
  unfold is_case. apply bool_decide_ext.
  rewrite elem_of_cons, elem_of_nil. tauto.
Qed.

Section Elements.

Context {Flags Filter Expr : Type} {conv : Conversions}
  {lib : @FlagsLib Flags Filter Expr} {elems : @FlagElements Flags Filter}.


Lemma remove_value_filter val l :
  remove_value val l = base.filter (fun v => val <> v) l.
Proof.
  induction l as [|v l IH]; [reflexivity|].
  cbn [remove_value]. rewrite filter_cons. case_bool_decide as Hv.
  - rewrite decide_True by exact Hv. now rewrite IH.
  - rewrite decide_False by (intros Hx; exact (Hx Hv)). exact IH.
Qed.

Lemma RemoveFlagElement_datetime expr w w1 p :
  evaluate (Value expr) w = (inl p, w1) ->
  ToUpper (Name expr) = DatetimeFormatFlag ->
  RemoveFlagElement expr w =
  let fl := flags w1 in
  match ToInteger p with
  | Some idx =>
      if (-1 <? idx) && (idx <? Z.of_nat (length (DatetimeFormat fl))) then
        (ElementReturned None,
         mkWorld (filter w1)
           (set_DatetimeFormat (remove_at idx (DatetimeFormat fl)) fl))
      else (ElementReturned None, w1)
  | None =>
      match ToString p with
      | Some val =>
          (ElementReturned None,
           mkWorld (filter w1)
             (set_DatetimeFormat (remove_value val (DatetimeFormat fl)) fl))
      | None => (ElementReturned (Some InvalidFlagValueToBeRemovedError), w1)
      end
  end.
Proof.
  intros Hev Hn. unfold RemoveFlagElement. rewrite Hev, is_case_one.
  now rewrite (bool_decide_eq_true_2 _ Hn).
Qed.

(** X10. REMOVE on DATETIME_FORMAT with a value that converts to an
    integer takes it as an index, also when the value is a string:
    inside the list, the format at the index is removed and the ones
    after it move up; outside the list, nothing is changed and no error
    is returned. *)
Theorem RemoveFlagElement_by_index expr w w1 p idx :
  evaluate (Value expr) w = (inl p, w1) ->
  ToUpper (Name expr) = DatetimeFormatFlag ->
  ToInteger p = Some idx ->
  exists w2,
    RemoveFlagElement expr w = (ElementReturned None, w2) /\
    filter w2 = filter w1 /\
    let l := DatetimeFormat (flags w1) in
    let l' := DatetimeFormat (flags w2) in
    (0 <= idx < Z.of_nat (length l) ->
     S (length l') = length l /\
     (forall j, (j < Z.to_nat idx)%nat -> l' !! j = l !! j) /\
     (forall j, (Z.to_nat idx <= j)%nat -> l' !! j = l !! S j)) /\
    (~ 0 <= idx < Z.of_nat (length l) -> w2 = w1).
Proof.
  intros Hev Hn Hi. rewrite (RemoveFlagElement_datetime _ _ _ _ Hev Hn), Hi.
  cbv zeta. set (l := DatetimeFormat (flags w1)).
  destruct ((-1 <? idx) && (idx <? Z.of_nat (length l))) eqn:Hin.
  - apply andb_true_iff in Hin as [H1 H2].
    apply Z.ltb_lt in H1. apply Z.ltb_lt in H2.
    eexists. split; [reflexivity|]. split; [reflexivity|].
    cbn [flags]. rewrite DatetimeFormat_set. split; [|lia].
    intros _. unfold remove_at.
    replace (Z.to_nat (idx + 1)) with (S (Z.to_nat idx)) by lia.
    set (k := Z.to_nat idx). assert (Hk : (k < length l)%nat) by lia.
    split; [|split].
    + rewrite length_app, length_take, length_drop. lia.
    + intros j Hj. rewrite lookup_app_l by (rewrite length_take; lia).
      now rewrite lookup_take_lt by exact Hj.
    + intros j Hj. rewrite lookup_app_r by (rewrite length_take; lia).
      rewrite length_take, lookup_drop. f_equal. lia.
  - exists w1. split; [reflexivity|]. split; [reflexivity|]. split; [|reflexivity].
    intros Hr. apply andb_false_iff in Hin as [H1|H2].
    + apply Z.ltb_ge in H1. lia.
    + apply Z.ltb_ge in H2. fold l in Hr. lia.
Qed.

(** X11. REMOVE on DATETIME_FORMAT with a value that converts to no
    integer but to a string removes every format equal to it and keeps
    the others in their order; a format that is not in the list changes
    nothing, and no error is returned. *)
Theorem RemoveFlagElement_by_value expr w w1 p val :
  evaluate (Value expr) w = (inl p, w1) ->
  ToUpper (Name expr) = DatetimeFormatFlag ->
  ToInteger p = None -> ToString p = Some val ->
  exists w2,
    RemoveFlagElement expr w = (ElementReturned None, w2) /\
    filter w2 = filter w1 /\
    let l := DatetimeFormat (flags w1) in
    let l' := DatetimeFormat (flags w2) in
    l' = base.filter (fun v => val <> v) l /\
    (val ∉ l') /\
    (forall v, v <> val -> (v ∈ l' <-> v ∈ l)) /\
    l' `sublist_of` l /\
    (val ∉ l -> l' = l).
Proof.
  intros Hev Hn Hi Hs. rewrite (RemoveFlagElement_datetime _ _ _ _ Hev Hn), Hi, Hs.
  cbv zeta. eexists. split; [reflexivity|]. split; [reflexivity|].
  cbn [flags]. rewrite DatetimeFormat_set, remove_value_filter.
  set (l := DatetimeFormat (flags w1)).
  split; [reflexivity|]. split; [|split; [|split]].
  - rewrite list_elem_of_filter. tauto.
  - intros v Hv. rewrite list_elem_of_filter. split; [tauto|].
    intros Hin. split; [congruence | exact Hin].
  - apply sublist_filter.
  - intros Hnot. induction l as [|v l IH]; [reflexivity|].
    rewrite not_elem_of_cons in Hnot. destruct Hnot as [Hv Hl].
    rewrite filter_cons, decide_True by exact Hv. f_equal. now apply IH.
Qed.


End Elements.

Import Strict ToyFormats.


(** X10 on the list of formats: REMOVE 1 takes out the second format. *)
Lemma RemoveFlagElement_by_index_witness :
  RemoveFlagElement (mkSetFlag "datetime_format" (Expression (Integer 1))) formats0
    = (ElementReturned None, mkWorld tt ["%Y-%m-%d"; "%H:%M"; "%d/%m/%Y"]) /\
  exists w2,
    RemoveFlagElement (mkSetFlag "datetime_format" (Expression (Integer 1))) formats0
      = (ElementReturned None, w2) /\
    S (length (DatetimeFormat (flags w2))) = length (DatetimeFormat (flags formats0)).
Proof.
  split; [reflexivity|].
  destruct (@RemoveFlagElement_by_index _ _ _ Strict.conversions
              ToyFormats.flagslib ToyFormats.elements
              (mkSetFlag "datetime_format" (Expression (Integer 1)))
              formats0 formats0 (Integer 1) 1 eq_refl eq_refl eq_refl)
    as (w2 & Hr & _ & Hin & _).
  exists w2. split; [exact Hr|]. apply Hin. cbn. lia.
Defined.

(** X11 on the list of formats: REMOVE of a format that is there twice
    takes out both. *)
Lemma RemoveFlagElement_by_value_witness :
  RemoveFlagElement (mkSetFlag "datetime_format" (Expression (String "%d/%m/%Y")))
    formats0
    = (ElementReturned None, mkWorld tt ["%Y-%m-%d"; "%H:%M"]) /\
  exists w2,
    RemoveFlagElement (mkSetFlag "datetime_format" (Expression (String "%d/%m/%Y")))
      formats0 = (ElementReturned None, w2) /\
    "%d/%m/%Y" ∉ DatetimeFormat (flags w2).
Proof.
  split; [reflexivity|].
  destruct (@RemoveFlagElement_by_value _ _ _ Strict.conversions
              ToyFormats.flagslib ToyFormats.elements
              (mkSetFlag "datetime_format" (Expression (String "%d/%m/%Y")))
              formats0 formats0 (String "%d/%m/%Y") "%d/%m/%Y"
              eq_refl eq_refl eq_refl eq_refl)
    as (w2 & Hr & _ & _ & Hnot & _).
  exists w2. split; [exact Hr | exact Hnot].
Defined.


End FlagElementFacts.

Module GoTimeFacts.

Import Value GoTime.

(** [Add] moves an instant by the duration, and keeps it well formed
    and in its location. *)
Lemma Add_spec t d :
  wf t ->
  wf (Add t d) /\ location (Add t d) = location t /\
  abs_nanoseconds (Add t d) = abs_nanoseconds t + d.
Proof.
  unfold wf, Add, abs_nanoseconds. intros Ht.
  pose proof (Z.quot_rem' d 1000000000) as Hqr.
  assert (Hr : - 1000000000 < Z.rem d 1000000000 < 1000000000).
  { pose proof (Z.rem_bound_abs d 1000000000 ltac:(lia)). lia. }
  destruct (Z.leb_spec 1000000000 (nsec t + Z.rem d 1000000000)).
  - cbn [unixSec nsec location]. repeat split; lia.
  - destruct (Z.ltb_spec (nsec t + Z.rem d 1000000000) 0);
      cbn [unixSec nsec location]; repeat split; lia.
Qed.

(** A well-formed instant is known by its nanoseconds and its location. *)
Lemma abs_nanoseconds_inj t u :
  wf t -> wf u -> location t = location u ->
  abs_nanoseconds t = abs_nanoseconds u -> t = u.
Proof.
  unfold wf, abs_nanoseconds. destruct t as [s1 n1 l1], u as [s2 n2 l2].
  cbn [unixSec nsec location]. intros H1 H2 -> Habs.
  assert (s1 = s2) by lia. subst s2. f_equal. lia.
Qed.

Lemma Truncate_spec t d :
  wf t -> 0 < d ->
  wf (Truncate t d) /\ location (Truncate t d) = location t /\
  abs_nanoseconds (Truncate t d) = d * (abs_nanoseconds t / d).
Proof.
  intros Ht Hd. unfold Truncate. destruct (Z.leb_spec d 0); [lia|].
  destruct (Add_spec t (- (abs_nanoseconds t mod d)) Ht) as (Hw & Hl & Ha).
  split; [exact Hw|]. split; [exact Hl|]. rewrite Ha.
  pose proof (Z.div_mod (abs_nanoseconds t) d ltac:(lia)). lia.
Qed.

(** Truncating by a duration and by a multiple of it, in either order,
    is truncating by the multiple. *)
Lemma Truncate_Truncate t d k :
  wf t -> 0 < d -> 0 < k ->
  Truncate (Truncate t d) (k * d) = Truncate t (k * d) /\
  Truncate (Truncate t (k * d)) d = Truncate t (k * d).
Proof.
  intros Ht Hd Hk.
  destruct (Truncate_spec t d Ht Hd) as (W1 & L1 & A1).
  destruct (Truncate_spec t (k * d) Ht ltac:(lia)) as (W2 & L2 & A2).
  destruct (Truncate_spec (Truncate t d) (k * d) W1 ltac:(lia)) as (W3 & L3 & A3).
  destruct (Truncate_spec (Truncate t (k * d)) d W2 Hd) as (W4 & L4 & A4).
  split; apply abs_nanoseconds_inj; try assumption; try congruence.
  - rewrite A3, A2, A1. f_equal.
    rewrite (Z.mul_comm k d), <- !Z.div_div by lia.
    f_equal. rewrite Z.mul_comm. apply Z.div_mul. lia.
  - rewrite A4, A2.
    replace (k * d * (abs_nanoseconds t / (k * d)))
      with (k * (abs_nanoseconds t / (k * d)) * d) by lia.
    rewrite Z.div_mul by lia. lia.
Qed.

Lemma Sub_Add t d :
  wf t -> Int64.in_range d -> Sub (Add t d) t = d.
Proof.
  intros Ht Hd. destruct (Add_spec t d Ht) as (_ & _ & Ha).
  unfold Sub. rewrite Ha.
  replace (abs_nanoseconds t + d - abs_nanoseconds t) with d by lia.
  unfold Int64.in_range, minDuration, maxDuration in *.
  destruct (Z.leb_spec Int64.MinInt64 d); [|lia].
  destruct (Z.leb_spec d Int64.MaxInt64); [reflexivity|lia].
Qed.

End GoTimeFacts.

Module TimeFunctionsFacts.

Import F64 GoString Value Query GoTime TimeFunctions GoTimeFacts.

Section Functions.

Context {conv : Conversions}.

Lemma truncateDuration_spec fn t dur :
  truncateDuration fn [Datetime t] dur = Ok (Datetime (Truncate t dur)).
Proof.
  unfold truncateDuration. cbn [nargs length arg nth Z.of_nat].
  change (negb (1 =? 1)) with false. cbv iota. now rewrite ToDatetime_Datetime.
Qed.

Lemma truncations_durations F d :
  (F, d) ∈ truncations ->
  (forall fn t, F fn [Datetime t] = Ok (Datetime (Truncate t d))) /\
  0 < d /\ In d [Microsecond; Millisecond; Second; Minute; Hour].
Proof.
  unfold truncations. intros Hin.
  repeat (apply elem_of_cons in Hin as [Heq | Hin];
          [injection Heq as -> ->;
           split; [intros fn t; apply truncateDuration_spec|];
           split; [reflexivity | cbn; tauto]|]).
  now apply elem_of_nil in Hin.
Qed.

(** X13. TRUNC_NANO, TRUNC_MICRO, TRUNC_MILLI, TRUNC_SECOND and
    TRUNC_MINUTE round a datetime down to a multiple of a microsecond,
    a millisecond, a second, a minute and an hour (counted from the
    zero time in UTC, whatever the location), less than that duration
    below it; and applying a coarser one of them after or before a
    finer one gives what the coarser one gives alone. *)
Theorem truncations_compose fn t :
  wf t ->
  (forall F d, (F, d) ∈ truncations ->
     exists t',
       F fn [Datetime t] = Ok (Datetime t') /\
       wf t' /\ location t' = location t /\
       abs_nanoseconds t' = d * (abs_nanoseconds t / d) /\
       abs_nanoseconds t' <= abs_nanoseconds t < abs_nanoseconds t' + d) /\
  (forall F1 d1 F2 d2 t1 t2,
     (F1, d1) ∈ truncations -> (F2, d2) ∈ truncations -> d1 <= d2 ->
     F1 fn [Datetime t] = Ok (Datetime t1) ->
     F2 fn [Datetime t] = Ok (Datetime t2) ->
     F2 fn [Datetime t1] = Ok (Datetime t2) /\
     F1 fn [Datetime t2] = Ok (Datetime t2)).
Proof.
  intros Ht. split.
  - intros F d Hin. destruct (truncations_durations F d Hin) as (HF & Hd & _).
    destruct (Truncate_spec t d Ht Hd) as (W & L & A).
    exists (Truncate t d). split; [apply HF|]. split; [exact W|].
    split; [exact L|]. split; [exact A|]. rewrite A.
    pose proof (Z.div_mod (abs_nanoseconds t) d ltac:(lia)).
    pose proof (Z.mod_pos_bound (abs_nanoseconds t) d Hd). lia.
  - intros F1 d1 F2 d2 t1 t2 Hin1 Hin2 Hle H1 H2.
    destruct (truncations_durations F1 d1 Hin1) as (HF1 & Hd1 & Hl1).
    destruct (truncations_durations F2 d2 Hin2) as (HF2 & Hd2 & Hl2).
    rewrite HF1 in H1. rewrite HF2 in H2.
    injection H1 as <-. injection H2 as <-. rewrite HF1, HF2.
    assert (Hk : exists k, 0 < k /\ d2 = k * d1).
    { cbn [In] in Hl1, Hl2.
      unfold Hour, Minute, Second, Millisecond, Microsecond, Nanosecond in *.
      destruct Hl1 as [<-|[<-|[<-|[<-|[<-|[]]]]]];
        destruct Hl2 as [<-|[<-|[<-|[<-|[<-|[]]]]]]; try lia;
        first [ exists 1; lia | exists 1000; lia | exists 1000000; lia
              | exists 60; lia | exists 60000; lia | exists 60000000; lia
              | exists 3600; lia | exists 3600000; lia | exists 3600000000; lia
              | exists 60000000000; lia ]. }
    destruct Hk as (k & Hk & ->).
    destruct (Truncate_Truncate t d1 k Ht Hd1 Hk) as [E1 E2].
    now rewrite E1, E2.
Qed.

Lemma execDatetimeAdd_spec fn t i timef :
  execDatetimeAdd fn [Datetime t; Integer i] timef = Ok (Datetime (timef t i)).
Proof.
  unfold execDatetimeAdd. cbn [nargs length arg nth Z.of_nat].
  change (negb (2 =? 2)) with false. cbv iota.
  now rewrite ToDatetime_Datetime, ToInteger_Integer.
Qed.

Lemma shifts_units F unit :
  (F, unit) ∈ shifts ->
  forall fn t n,
    F fn [Datetime t; Integer n] = Ok (Datetime (Add t (Int64.wrap (n * unit)))).
Proof.
  unfold shifts. intros Hin.
  repeat (apply elem_of_cons in Hin as [Heq | Hin];
          [injection Heq as -> ->; intros fn t n;
           cbv [AddHour AddMinute AddSecond AddMilli AddMicro AddNano];
           rewrite execDatetimeAdd_spec; reflexivity|]).
  now apply elem_of_nil in Hin.
Qed.

(** X14. ADD_HOUR, ADD_MINUTE, ADD_SECOND, ADD_MILLI, ADD_MICRO and
    ADD_NANO move a datetime by exactly the number of units given, as
    long as that many units are a duration of 64 bits in nanoseconds;
    two such shifts in a row are the shift by the sum. Beyond that the
    product wraps: ADD_HOUR by 2562048 hours answers a datetime before
    the one given. *)
Theorem shifts_exact fn t :
  wf t ->
  (forall F unit n,
     (F, unit) ∈ shifts -> Int64.in_range (n * unit) ->
     exists t',
       F fn [Datetime t; Integer n] = Ok (Datetime t') /\
       wf t' /\ location t' = location t /\
       abs_nanoseconds t' = abs_nanoseconds t + n * unit) /\
  (forall F unit a b t1,
     (F, unit) ∈ shifts ->
     Int64.in_range (a * unit) -> Int64.in_range (b * unit) ->
     Int64.in_range ((a + b) * unit) ->
     F fn [Datetime t; Integer a] = Ok (Datetime t1) ->
     F fn [Datetime t1; Integer b] = F fn [Datetime t; Integer (a + b)]) /\
  (exists t',
     AddHour fn [Datetime t; Integer 2562048] = Ok (Datetime t') /\
     abs_nanoseconds t' < abs_nanoseconds t).
Proof.
  intros Ht. split; [|split].
  - intros F unit n Hin Hr. rewrite (shifts_units F unit Hin).
    rewrite (RandFacts.wrap_in_range _ Hr).
    destruct (Add_spec t (n * unit) Ht) as (W & L & A).
    exists (Add t (n * unit)). split; [reflexivity|].
    split; [exact W|]. split; [exact L | exact A].
  - intros F unit a b t1 Hin Ha Hb Hab H1.
    rewrite (shifts_units F unit Hin) in H1.
    rewrite (RandFacts.wrap_in_range _ Ha) in H1. injection H1 as <-.
    rewrite !(shifts_units F unit Hin).
    rewrite (RandFacts.wrap_in_range _ Hb), (RandFacts.wrap_in_range _ Hab).
    destruct (Add_spec t (a * unit) Ht) as (W1 & L1 & A1).
    destruct (Add_spec (Add t (a * unit)) (b * unit) W1) as (W2 & L2 & A2).
    destruct (Add_spec t ((a + b) * unit) Ht) as (W3 & L3 & A3).
    do 2 f_equal. apply abs_nanoseconds_inj; try assumption; [congruence|]. lia.
  - unfold AddHour. rewrite execDatetimeAdd_spec. unfold addHour.
    destruct (Add_spec t (Int64.wrap (2562048 * Hour)) Ht) as (_ & _ & A).
    eexists. split; [reflexivity|]. rewrite A.
    assert (Int64.wrap (2562048 * Hour) < 0) by (vm_compute; reflexivity). lia.
Qed.

Lemma timeDiff_spec fn t u durf :
  timeDiff fn [Datetime t; Datetime u] durf = Ok (durf (Sub t u)).
Proof.
  unfold timeDiff. cbn [nargs length arg nth Z.of_nat].
  change (negb (2 =? 2)) with false. cbv iota.
  now rewrite !ToDatetime_Datetime.
Qed.

(** X15. TIME_NANO_DIFF is the difference in nanoseconds when that
    fits 64 bits, and the largest or smallest 64-bit integer when it
    does not; it undoes ADD_NANO: the difference between a datetime
    shifted by [n] nanoseconds and the datetime itself is [n]. *)
Theorem TimeNanoDiff_spec fn fn' t u :
  wf t ->
  (let d := abs_nanoseconds t - abs_nanoseconds u in
   TimeNanoDiff fn [Datetime t; Datetime u] =
   Ok (Integer (if (Int64.MinInt64 <=? d) && (d <=? Int64.MaxInt64) then d
                else if d <? 0 then Int64.MinInt64 else Int64.MaxInt64))) /\
  (forall n t1,
     Int64.in_range n ->
     AddNano fn' [Datetime t; Integer n] = Ok (Datetime t1) ->
     TimeNanoDiff fn [Datetime t1; Datetime t] = Ok (Integer n)).
Proof.
  intros Ht. split.
  - unfold TimeNanoDiff. rewrite timeDiff_spec. reflexivity.
  - intros n t1 Hn H1. unfold AddNano in H1.
    rewrite execDatetimeAdd_spec in H1. unfold addNano, Nanosecond in H1.
    rewrite Z.mul_1_r, (RandFacts.wrap_in_range _ Hn) in H1. injection H1 as <-.
    unfold TimeNanoDiff. rewrite timeDiff_spec. unfold durationNanoseconds.
    now rewrite Sub_Add.
Qed.

End Functions.

End TimeFunctionsFacts.

Module CalendarFacts.

Import F64 GoString Value Query UTCTime GoTime TimeFunctions CalendarFunctions.
Import DatetimeFacts.

(** The date of a day number is a date of the calendar, and the day
    number of that date. *)
Lemma civil_from_days_range z :
  let '(y, m, d) := civil_from_days z in
  days_from_civil y m d = z /\ 1 <= m <= 12 /\ 1 <= d <= 31.
Proof.
  pose proof (civil_roundtrip z) as Hrt. revert Hrt.
  unfold civil_from_days.
  set (era := (z + 719468) / 146097).
  set (doe := z + 719468 - era * 146097).
  assert (Hdoe : 0 <= doe < 146097)
    by (subst doe era; Z.div_mod_to_equations; lia).
  pose proof (year_of_era doe Hdoe) as Hy. cbv zeta in Hy.
  set (yoe := (doe - doe / 1460 + doe / 36524 - doe / 146096) / 365) in *.
  destruct Hy as [_ Hdoy].
  set (doy := doe - (365 * yoe + yoe / 4 - yoe / 100)) in *.
  pose proof (month_of_day doy Hdoy) as Hm. cbv zeta in Hm.
  set (mp := (5 * doy + 2) / 153) in *.
  destruct Hm as [_ Hd]. intros [H1 H2]. now repeat split.
Qed.

Lemma year_of_era_back yoe doy :
  0 <= yoe <= 399 -> 0 <= doy <= 364 ->
  let doe := yoe * 365 + yoe / 4 - yoe / 100 + doy in
  0 <= doe < 146097 /\
  (doe - doe / 1460 + doe / 36524 - doe / 146096) / 365 = yoe.
Proof.
  intros Hy Hd doe. subst doe.
  assert (Hc : yoe / 100 = 0 \/ yoe / 100 = 1 \/ yoe / 100 = 2 \/ yoe / 100 = 3)
    by (Z.div_mod_to_equations; lia).
  destruct Hc as [Hc|[Hc|[Hc|Hc]]]; rewrite Hc;
    (split; [Z.div_mod_to_equations; lia|]); Z.div_mod_to_equations; lia.
Qed.

Lemma month_of_day_back mp d :
  0 <= mp <= 11 -> 1 <= d <= 28 ->
  let doy := (153 * mp + 2) / 5 + d - 1 in
  0 <= doy <= 364 /\ (5 * doy + 2) / 153 = mp /\
  doy - (153 * mp + 2) / 5 + 1 = d.
Proof.
  intros Hm Hd doy. subst doy.
  assert (Hc : mp = 0 \/ mp = 1 \/ mp = 2 \/ mp = 3 \/ mp = 4 \/ mp = 5 \/
               mp = 6 \/ mp = 7 \/ mp = 8 \/ mp = 9 \/ mp = 10 \/ mp = 11) by lia.
  repeat (destruct Hc as [->|Hc]; [cbn; Z.div_mod_to_equations; lia|]).
  subst mp. cbn. Z.div_mod_to_equations. lia.
Qed.

(** The day number of a date up to the 28th of a month is the day
    number of that date alone. *)
Lemma civil_of_days y m d :
  1 <= m <= 12 -> 1 <= d <= 28 ->
  civil_from_days (days_from_civil y m d) = (y, m, d).
Proof.
  intros Hm Hd. unfold days_from_civil.
  set (y' := if m <=? 2 then y - 1 else y).
  set (era := y' / 400). set (yoe := y' - era * 400).
  assert (Hyoe : 0 <= yoe <= 399) by (subst yoe era; Z.div_mod_to_equations; lia).
  set (mp := (m + 9) mod 12).
  assert (Hmp : 0 <= mp <= 11) by (subst mp; Z.div_mod_to_equations; lia).
  destruct (month_of_day_back mp d Hmp Hd) as (Hdoy & Hmp' & Hd').
  set (doy := (153 * mp + 2) / 5 + d - 1) in *.
  destruct (year_of_era_back yoe doy Hyoe Hdoy) as (Hdoe & Hyoe').
  set (doe := yoe * 365 + yoe / 4 - yoe / 100 + doy) in *.
  unfold civil_from_days.
  replace (era * 146097 + doe - 719468 + 719468) with (doe + era * 146097) by lia.
  assert (He : (doe + era * 146097) / 146097 = era).
  { rewrite Z.div_add by lia. rewrite Z.div_small by lia. lia. }
  rewrite He.
  replace (doe + era * 146097 - era * 146097) with doe by lia.
  rewrite Hyoe'.
  replace (doe - (365 * yoe + yoe / 4 - yoe / 100)) with doy by (subst doe; lia).
  rewrite Hmp', Hd'.
  assert (Hy : yoe + era * 400 = y') by (subst yoe; lia).
  rewrite Hy. subst y' mp.
  destruct (Z.leb_spec m 2).
  - assert (Hmm : (m + 9) mod 12 = m + 9) by (apply Z.mod_small; lia).
    rewrite Hmm. destruct (Z.ltb_spec (m + 9) 10); [lia|].
    replace (m + 9 - 9) with m by lia.
    destruct (Z.leb_spec m 2); [|lia]. f_equal. f_equal. lia.
  - assert (Hmm : (m + 9) mod 12 = m - 3) by (Z.div_mod_to_equations; lia).
    rewrite Hmm. destruct (Z.ltb_spec (m - 3) 10); [|lia].
    replace (m - 3 + 3) with m by lia.
    destruct (Z.leb_spec m 2); [lia|]. reflexivity.
Qed.

Lemma days_from_civil_day y m d n :
  days_from_civil y m (d + n) = days_from_civil y m d + n.
Proof. unfold days_from_civil. lia. Qed.

(** The first day of the year is not after the first day of a month of
    that year. *)
Lemma first_of_year y m :
  1 <= m <= 12 -> days_from_civil y 1 1 <= days_from_civil y m 1.
Proof.
  intros Hm. unfold days_from_civil.
  change (1 <=? 2) with true. cbv iota. change ((1 + 9) mod 12) with 10.
  change ((153 * 10 + 2) / 5) with 306.
  destruct (Z.leb_spec m 2).
  - assert (Hmm : (m + 9) mod 12 = m + 9) by (apply Z.mod_small; lia).
    rewrite Hmm. Z.div_mod_to_equations. lia.
  - assert (Hmm : (m + 9) mod 12 = m - 3) by (Z.div_mod_to_equations; lia).
    rewrite Hmm. Z.div_mod_to_equations. lia.
Qed.

(** [time.Date] on a date up to the 28th and a time of day: the result
    shows that date and that time. *)
Lemma mkDate_shows y m d h mi s ns loc :
  1 <= m <= 12 -> 1 <= d <= 28 ->
  0 <= h < 24 -> 0 <= mi < 60 -> 0 <= s < 60 -> 0 <= ns < 1000000000 ->
  Date (mkDate y m d h mi s ns loc) = (y, m, d) /\
  Clock (mkDate y m d h mi s ns loc) = (h, mi, s, ns) /\
  unixSec (mkDate y m d h mi s ns loc)
    = days_from_civil y m d * 86400 + h * 3600 + mi * 60 + s.
Proof.
  intros Hm Hd Hh Hmi Hs Hns. unfold mkDate, Date, Clock. cbn [unixSec nsec].
  assert (E1 : (m - 1) / 12 = 0) by (Z.div_mod_to_equations; lia).
  assert (E2 : (m - 1) mod 12 + 1 = m) by (Z.div_mod_to_equations; lia).
  assert (E3 : ns / 1000000000 = 0) by (apply Z.div_small; lia).
  assert (E4 : ns mod 1000000000 = ns) by (apply Z.mod_small; lia).
  rewrite E1, E2, E3, E4. replace (y + 0) with y by lia.
  set (z := days_from_civil y m d).
  set (c := h * 3600 + mi * 60 + s).
  replace (z * 86400 + h * 3600 + mi * 60 + s + 0) with (c + z * 86400) by (subst c; lia).
  assert (Hc : 0 <= c < 86400) by (subst c; lia).
  rewrite Z.div_add, Z.mod_add by lia.
  rewrite (Z.div_small c), (Z.mod_small c), Z.add_0_l by lia.
  subst z. rewrite civil_of_days by assumption.
  split; [reflexivity|]. split; [|lia].
  assert (H1 : c / 3600 = h) by (subst c; Z.div_mod_to_equations; lia).
  assert (H2 : c mod 3600 / 60 = mi) by (subst c; Z.div_mod_to_equations; lia).
  assert (H3 : c mod 60 = s) by (subst c; Z.div_mod_to_equations; lia).
  now rewrite H1, H2, H3.
Qed.

Lemma Clock_range t :
  let '(h, mi, s, _) := Clock t in
  0 <= h < 24 /\ 0 <= mi < 60 /\ 0 <= s < 60 /\
  h * 3600 + mi * 60 + s = unixSec t mod 86400.
Proof. unfold Clock. Z.div_mod_to_equations. lia. Qed.

End CalendarFacts.

Module CalendarTheorems.

Import F64 GoString Value Query UTCTime GoTime TimeFunctions CalendarFunctions.
Import DatetimeFacts CalendarFacts.

Section UTC.

Context {conv : Conversions}.

Lemma truncateDate_Datetime `{TimeLib} fn t place :
  truncateDate fn [Datetime t] place =
  let '(y, m, d) := Time_Date t in
  let d' := if (place =? 1) || (place =? 2) then 1 else d in
  let m' := if place =? 2 then 1 else m in
  Ok (Datetime (time_Date y m' d' 0 0 0 0 (location t))).
Proof.
  unfold truncateDate. cbn [nargs length arg nth Z.of_nat].
  change (negb (1 =? 1)) with false. cbv iota. now rewrite ToDatetime_Datetime.
Qed.

(** X16. In the UTC calendar TRUNC_DAY answers the first day of the
    month of its argument at 00:00:00 and TRUNC_MONTH the first of
    January of its year; neither is after the argument, TRUNC_MONTH of
    what TRUNC_DAY answers is what TRUNC_MONTH answers, and TRUNC_DAY
    leaves that as it is. *)
Theorem TruncDay_TruncMonth_UTC fn t :
  let '(y, m, d) := UTCTime.Date t in
  exists td tm,
    @TruncDay conv UTCTime.timelib fn [Datetime t] = Ok (Datetime td) /\
    @TruncMonth conv UTCTime.timelib fn [Datetime t] = Ok (Datetime tm) /\
    UTCTime.Date td = (y, m, 1) /\ UTCTime.Clock td = (0, 0, 0, 0) /\
    UTCTime.Date tm = (y, 1, 1) /\ UTCTime.Clock tm = (0, 0, 0, 0) /\
    location td = location t /\ location tm = location t /\
    unixSec tm <= unixSec td <= unixSec t /\
    @TruncMonth conv UTCTime.timelib fn [Datetime td] = Ok (Datetime tm) /\
    @TruncDay conv UTCTime.timelib fn [Datetime tm] = Ok (Datetime tm).
Proof.
  pose proof (civil_from_days_range (unixSec t / 86400)) as Hr.
  destruct (UTCTime.Date t) as [[y m] d] eqn:Hdate.
  unfold UTCTime.Date in Hdate. rewrite Hdate in Hr.
  destruct Hr as (Hdays & Hm & Hd).
  destruct (mkDate_shows y m 1 0 0 0 0 (location t)) as (D1 & C1 & U1); try lia.
  destruct (mkDate_shows y 1 1 0 0 0 0 (location t)) as (D2 & C2 & U2); try lia.
  exists (mkDate y m 1 0 0 0 0 (location t)), (mkDate y 1 1 0 0 0 0 (location t)).
  assert (HD : forall u, @Time_Date UTCTime.timelib u = UTCTime.Date u) by reflexivity.
  assert (HT : forall a b c e f g h l,
             @time_Date UTCTime.timelib a b c e f g h l = mkDate a b c e f g h l)
    by reflexivity.
  unfold TruncDay, TruncMonth. rewrite !truncateDate_Datetime.
  rewrite !HD, D1, D2. unfold UTCTime.Date at 1 2. rewrite Hdate.
  cbn [Z.eqb orb]. rewrite !HT.
  repeat split; try assumption; try reflexivity.
  - rewrite U1, U2. pose proof (first_of_year y m Hm). lia.
  - rewrite U1.
    pose proof (days_from_civil_day y m 1 (d - 1)) as Hlin.
    replace (1 + (d - 1)) with d in Hlin by lia.
    assert (unixSec t / 86400 * 86400 <= unixSec t)
      by (Z.div_mod_to_equations; lia).
    lia.
  - rewrite HD, D1. reflexivity.
  - rewrite HD, D2. reflexivity.
Qed.

(** [time.Date] on the date and the clock of an instant is the
    instant. *)
Lemma mkDate_same t y m d h mi s ns0 :
  wf t -> UTCTime.Date t = (y, m, d) -> UTCTime.Clock t = (h, mi, s, ns0) ->
  mkDate y m d h mi s (nsec t) (location t) = t.
Proof.
  intros Ht Hdate Hclock.
  pose proof (civil_from_days_range (unixSec t / 86400)) as Hr.
  unfold UTCTime.Date in Hdate. rewrite Hdate in Hr.
  destruct Hr as (Hdays & Hm & _).
  pose proof (Clock_range t) as Hc. rewrite Hclock in Hc.
  destruct Hc as (_ & _ & _ & Hsum).
  unfold mkDate.
  assert (E1 : (m - 1) / 12 = 0) by (Z.div_mod_to_equations; lia).
  assert (E2 : (m - 1) mod 12 + 1 = m) by (Z.div_mod_to_equations; lia).
  unfold wf in Ht.
  assert (E3 : nsec t / 1000000000 = 0) by (apply Z.div_small; lia).
  assert (E4 : nsec t mod 1000000000 = nsec t) by (apply Z.mod_small; lia).
  rewrite E1, E2, E3, E4. replace (y + 0) with y by lia. rewrite Hdays.
  destruct t as [u n l]. cbn [unixSec nsec location] in *. f_equal.
  Z.div_mod_to_equations. lia.
Qed.

(** [time.Date] carries the months beyond the year into the year. *)
Lemma mkDate_month y m d h mi s ns loc :
  mkDate y m d h mi s ns loc =
  mkDate (y + (m - 1) / 12) ((m - 1) mod 12 + 1) d h mi s ns loc.
Proof.
  unfold mkDate.
  assert (Hr : 0 <= (m - 1) mod 12 < 12) by (apply Z.mod_pos_bound; lia).
  replace ((m - 1) mod 12 + 1 - 1) with ((m - 1) mod 12) by lia.
  rewrite Z.mod_mod by lia. rewrite (Z.div_small ((m - 1) mod 12)) by lia.
  now rewrite Z.add_0_r.
Qed.

Lemma AddDate_UTC t y m d h mi s ns0 years months days :
  UTCTime.Date t = (y, m, d) -> UTCTime.Clock t = (h, mi, s, ns0) ->
  @AddDate UTCTime.timelib utc_clock t years months days =
  mkDate (y + years) (m + months) (d + days) h mi s (nsec t) (location t).
Proof.
  intros Hdate Hclock. unfold AddDate.
  change (@Time_Date UTCTime.timelib t) with (UTCTime.Date t).
  rewrite Hdate. unfold Time_Clock, utc_clock. now rewrite Hclock.
Qed.

(** X17. In the UTC calendar ADD_DAY moves a datetime by 86400 seconds
    a day; ADD_YEAR by [n] is ADD_MONTH by [12 * n]; and from a day up
    to the 28th, ADD_MONTH keeps the day of the month and the time of
    day, counts the months over the years, and is undone by ADD_MONTH
    with the opposite number. *)
Theorem AddDate_in_UTC fn t :
  wf t ->
  let '(y, m, d) := UTCTime.Date t in
  (forall n, exists t',
      @AddDay conv UTCTime.timelib utc_clock fn [Datetime t; Integer n] = Ok (Datetime t') /\
      unixSec t' = unixSec t + 86400 * n /\ nsec t' = nsec t /\
      location t' = location t) /\
  (forall n, @AddYear conv UTCTime.timelib utc_clock fn [Datetime t; Integer n]
             = @AddMonth conv UTCTime.timelib utc_clock fn [Datetime t; Integer (12 * n)]) /\
  (d <= 28 ->
   forall n, exists t',
      @AddMonth conv UTCTime.timelib utc_clock fn [Datetime t; Integer n] = Ok (Datetime t') /\
      UTCTime.Date t' = (y + (m - 1 + n) / 12, (m - 1 + n) mod 12 + 1, d) /\
      UTCTime.Clock t' = UTCTime.Clock t /\
      @AddMonth conv UTCTime.timelib utc_clock fn [Datetime t'; Integer (- n)] = Ok (Datetime t)).
Proof.
  intros Ht.
  pose proof (civil_from_days_range (unixSec t / 86400)) as Hr.
  destruct (UTCTime.Date t) as [[y m] d] eqn:Hdate.
  pose proof Hdate as Hdate'. unfold UTCTime.Date in Hdate'. rewrite Hdate' in Hr.
  destruct Hr as (Hdays & Hm & Hd).
  pose proof (Clock_range t) as Hc.
  destruct (UTCTime.Clock t) as [[[h mi] s] ns0] eqn:Hclock.
  destruct Hc as (Hh & Hmi & Hs & Hsum).
  assert (Hns0 : ns0 = nsec t) by (unfold UTCTime.Clock in Hclock; congruence).
  unfold AddDay, AddMonth, AddYear. split; [|split].
  - intros n. rewrite TimeFunctionsFacts.execDatetimeAdd_spec.
    eexists. split; [reflexivity|]. unfold addDay.
    rewrite (AddDate_UTC _ _ _ _ _ _ _ _ _ _ _ Hdate Hclock).
    unfold mkDate. cbn [unixSec nsec location].
    assert (E1 : (m + 0 - 1) / 12 = 0) by (Z.div_mod_to_equations; lia).
    assert (E2 : (m + 0 - 1) mod 12 + 1 = m) by (Z.div_mod_to_equations; lia).
    unfold wf in Ht.
    assert (E3 : nsec t / 1000000000 = 0) by (apply Z.div_small; lia).
    assert (E4 : nsec t mod 1000000000 = nsec t) by (apply Z.mod_small; lia).
    rewrite E1, E2, E3, E4. replace (y + 0 + 0) with y by lia.
    rewrite days_from_civil_day, Hdays.
    split; [|split; reflexivity]. Z.div_mod_to_equations. lia.
  - intros n. rewrite !TimeFunctionsFacts.execDatetimeAdd_spec.
    unfold addYear, addMonth.
    rewrite !(AddDate_UTC _ _ _ _ _ _ _ _ _ _ _ Hdate Hclock).
    do 2 f_equal.
    rewrite (mkDate_month (y + n)), (mkDate_month (y + 0)).
    f_equal.
    + replace (m + 12 * n - 1) with (m + 0 - 1 + n * 12) by lia.
      rewrite Z.div_add by lia. lia.
    + replace (m + 12 * n - 1) with (m + 0 - 1 + n * 12) by lia.
      now rewrite Z.mod_add by lia.
  - intros Hd28 n. rewrite TimeFunctionsFacts.execDatetimeAdd_spec.
    eexists. split; [reflexivity|]. unfold addMonth.
    rewrite (AddDate_UTC _ _ _ _ _ _ _ _ _ _ _ Hdate Hclock).
    rewrite mkDate_month.
    replace (y + 0 + (m + n - 1) / 12) with (y + (m - 1 + n) / 12)
      by (do 2 f_equal; lia).
    replace ((m + n - 1) mod 12) with ((m - 1 + n) mod 12) by (f_equal; lia).
    replace (d + 0) with d by lia.
    set (Y := y + (m - 1 + n) / 12). set (M := (m - 1 + n) mod 12 + 1).
    assert (HM : 1 <= M <= 12)
      by (subst M; pose proof (Z.mod_pos_bound (m - 1 + n) 12); lia).
    unfold wf in Ht.
    destruct (mkDate_shows Y M d h mi s (nsec t) (location t))
      as (D1 & C1 & U1); try lia.
    split; [exact D1|]. split; [rewrite C1; congruence|].
    rewrite TimeFunctionsFacts.execDatetimeAdd_spec. do 2 f_equal.
    unfold addMonth.
    rewrite (AddDate_UTC _ _ _ _ _ _ _ _ _ _ _ D1 C1).
    assert (Hn : nsec (mkDate Y M d h mi s (nsec t) (location t)) = nsec t).
    { unfold mkDate. cbn [nsec]. apply Z.mod_small. lia. }
    assert (Hl : location (mkDate Y M d h mi s (nsec t) (location t)) = location t)
      by reflexivity.
    rewrite Hn, Hl, mkDate_month.
    replace (Y + 0 + (M + - n - 1) / 12) with y
      by (subst Y M; Z.div_mod_to_equations; lia).
    replace ((M + - n - 1) mod 12 + 1) with m
      by (subst M; Z.div_mod_to_equations; lia).
    replace (d + 0) with d by lia.
    apply (mkDate_same t y m d h mi s ns0 Ht Hdate Hclock).
Qed.

End UTC.

End CalendarTheorems.

Module TimeExamples.

Import F64 GoString Value Query UTCTime GoTime TimeFunctions CalendarFunctions.
Import Strict SampleTimes.

Lemma feb3_wf : wf feb3.
Proof. unfold wf. vm_compute. split; [discriminate | reflexivity]. Qed.

(** X13 on the sample: TRUNC_MINUTE answers 09:00:00, also after
    TRUNC_MILLI. *)
Lemma truncations_compose_witness :
  TruncMinute "TRUNC_MINUTE" [Datetime feb3]
    = Ok (Datetime (mkDate 2012 2 3 9 0 0 0 "UTC")) /\
  TruncMilli "TRUNC_MILLI" [Datetime feb3]
    = Ok (Datetime (mkDate 2012 2 3 9 18 15 0 "UTC")) /\
  TruncMinute "TRUNC_MINUTE" [Datetime (mkDate 2012 2 3 9 18 15 0 "UTC")]
    = Ok (Datetime (mkDate 2012 2 3 9 0 0 0 "UTC")).
Proof.
  assert (H1 : TruncMinute "TRUNC_MINUTE" [Datetime feb3]
               = Ok (Datetime (mkDate 2012 2 3 9 0 0 0 "UTC")))
    by (vm_compute; reflexivity).
  assert (H2 : TruncMilli "TRUNC_MILLI" [Datetime feb3]
               = Ok (Datetime (mkDate 2012 2 3 9 18 15 0 "UTC")))
    by (vm_compute; reflexivity).
  split; [exact H1|]. split; [exact H2|].
  destruct (@TimeFunctionsFacts.truncations_compose Strict.conversions
              "TRUNC_MINUTE" feb3 feb3_wf) as [_ H].
  refine (proj1 (H TruncMilli Second TruncMinute Hour _ _ _ _ _ H2 H1)).
  - unfold truncations. rewrite !elem_of_cons. auto.
  - unfold truncations. rewrite !elem_of_cons. auto 10.
  - vm_compute. discriminate.
Defined.

(** X14 on the sample: five hours later it is 14:18:15. *)
Lemma shifts_exact_witness :
  exists t',
    AddHour "ADD_HOUR" [Datetime feb3; Integer 5] = Ok (Datetime t') /\
    abs_nanoseconds t' = abs_nanoseconds feb3 + 5 * Hour /\
    t' = mkDate 2012 2 3 14 18 15 123456789 "UTC".
Proof.
  destruct (@TimeFunctionsFacts.shifts_exact Strict.conversions
              "ADD_HOUR" feb3 feb3_wf) as [H _].
  destruct (H AddHour Hour 5) as (t' & Ht' & _ & _ & Ha).
  - unfold shifts. rewrite !elem_of_cons. auto.
  - unfold Int64.in_range. vm_compute. split; discriminate.
  - exists t'. split; [exact Ht'|]. split; [exact Ha|].
    assert (He : AddHour "ADD_HOUR" [Datetime feb3; Integer 5]
                 = Ok (Datetime (mkDate 2012 2 3 14 18 15 123456789 "UTC")))
      by (vm_compute; reflexivity).
    congruence.
Defined.

(** X15 on the sample: 1500 nanoseconds added are 1500 nanoseconds of
    difference. *)
Lemma TimeNanoDiff_spec_witness :
  exists t1,
    AddNano "ADD_NANO" [Datetime feb3; Integer 1500] = Ok (Datetime t1) /\
    TimeNanoDiff "TIME_NANO_DIFF" [Datetime t1; Datetime feb3] = Ok (Integer 1500).
Proof.
  eexists. split; [reflexivity|].
  destruct (@TimeFunctionsFacts.TimeNanoDiff_spec Strict.conversions
              "TIME_NANO_DIFF" "ADD_NANO" feb3 feb3 feb3_wf) as [_ H].
  apply H; [|reflexivity].
  unfold Int64.in_range. vm_compute. split; discriminate.
Defined.

(** X16 on the sample: the first of February and the first of January
    2012. *)
Lemma TruncDay_TruncMonth_UTC_example :
  TruncDay "TRUNC_DAY" [Datetime feb3]
    = Ok (Datetime (mkDate 2012 2 1 0 0 0 0 "UTC")) /\
  TruncMonth "TRUNC_MONTH" [Datetime feb3]
    = Ok (Datetime (mkDate 2012 1 1 0 0 0 0 "UTC")).
Proof. split; vm_compute; reflexivity. Qed.

(** X17 on the sample: eleven months later it is January 3, 2013, and
    eleven months back from there it is the sample again. *)
Lemma AddDate_in_UTC_witness :
  exists t',
    AddMonth "ADD_MONTH" [Datetime feb3; Integer 11] = Ok (Datetime t') /\
    UTCTime.Date t' = (2013, 1, 3) /\
    AddMonth "ADD_MONTH" [Datetime t'; Integer (- 11)] = Ok (Datetime feb3).
Proof.
  pose proof (@CalendarTheorems.AddDate_in_UTC Strict.conversions
                "ADD_MONTH" feb3 feb3_wf) as H.
  change (UTCTime.Date feb3) with (2012, 2, 3) in H. cbv iota beta in H.
  destruct H as (_ & _ & H).
  destruct (H ltac:(lia) 11) as (t' & H1 & H2 & _ & H4).
  exists t'. split; [exact H1|]. split; [exact H2 | exact H4].
Defined.

(** From the 31st of January, ADD_MONTH by one month arrives in March:
    the 31st of February is carried over. *)
Lemma AddMonth_end_of_month :
  AddMonth "ADD_MONTH" [Datetime (mkDate 2013 1 31 12 0 0 0 "UTC"); Integer 1]
    = Ok (Datetime (mkDate 2013 3 3 12 0 0 0 "UTC")).
Proof. vm_compute. reflexivity. Qed.

End TimeExamples.


Module ShellFacts.

Import Action GoString Strings StringsRight Shell.

Section ShellFacts.

Context {Sess Stmt : Type} {col : @Collaborators Sess Stmt} {con : @Console Sess}.

Ltac loop_again IH :=
  match goal with
  | |- context [shell_loop ?rest ?lines ?s'] =>
      let evs := fresh "evs" in
      let Hc := fresh "Hc" in
      let Hr := fresh "Hr" in
      let He := fresh "He" in
      destruct (IH lines s') as (evs & Hc & Hr & He);
      eexists; split;
      [ rewrite Hc; cbn [scalls senv emit ShLogError_];
        rewrite <- ?List.app_assoc; reflexivity |];
      split;
      [ rewrite ?existsb_app; cbn [existsb is_ShRollback orb app]; exact Hr
      | let e := fresh "e" in
        let Hf := fresh "Hf" in
        let fl := fresh "fl" in
        let Hin := fresh "Hin" in
        let Hforced := fresh "Hforced" in
        intros e Hf;
        destruct (He e Hf) as [Hin | [Hforced [fl Hin]]];
        [ left; rewrite ?elem_of_cons; auto
        | right; split; [exact Hforced|]; exists fl;
          rewrite ?elem_of_app, ?elem_of_cons; auto 10 ] ]
  end.

(** What the loop adds to the calls, and which errors it can end with. *)
Lemma shell_loop_spec script : forall lines s,
  exists evs,
    scalls (snd (shell_loop script lines s)) = scalls s ++ evs /\
    existsb is_ShRollback evs = false /\
    (forall e, fst (shell_loop script lines s) = Some e ->
       ReadLine_error e ∈ script \/
       (is_ForcedExit e = true /\ exists flow, ShExecute flow (Some e) ∈ evs)).
Proof.
  induction script as [|r rest IH]; intros lines s.
  - cbn [shell_loop fst snd scalls emit].
    eexists. split; [rewrite <- List.app_assoc; reflexivity|].
    split; [reflexivity|]. discriminate.
  - cbn [shell_loop]. destruct r as [raw|e0].
    + destruct ((Z.of_nat (length lines) <? 1) && (len (TrimRightFunc raw IsSpace) <? 1)).
      { loop_again IH. }
      destruct ((0 <? len (TrimRightFunc raw IsSpace))
                && (last_byte (TrimRightFunc raw IsSpace) =? 92)).
      { loop_again IH. }
      destruct ((len (Join (save_lines (lines ++ [TrimRightFunc raw IsSpace])) " ") <? 1)
                || bool_decide (Join (save_lines (lines ++ [TrimRightFunc raw IsSpace])) " " = ";")).
      { loop_again IH. }
      destruct (parser_Parse _ "") as [statements|msg].
      * cbn [senv emit].
        destruct (proc_Execute statements (senv s)) as [[flow [e|]] env'].
        -- destruct (is_ForcedExit e) eqn:Hfe.
           ++ cbn [fst snd scalls senv emit].
              eexists. split; [rewrite <- ?List.app_assoc; reflexivity|].
              split; [reflexivity|].
              intros e' He'. injection He' as <-. right. split; [exact Hfe|].
              exists flow. rewrite ?elem_of_app, ?elem_of_cons. auto 10.
           ++ loop_again IH.
        -- destruct (bool_decide (flow = Exit)).
           ++ cbn [fst snd scalls senv emit].
              eexists. split; [rewrite <- ?List.app_assoc; reflexivity|].
              split; [reflexivity|]. discriminate.
           ++ loop_again IH.
      * loop_again IH.
    + cbn [fst snd scalls emit].
      eexists. split; [rewrite <- List.app_assoc; reflexivity|].
      split; [reflexivity|].
      intros e He. injection He as <-. left. apply elem_of_cons. now left.
Qed.

Lemma shell_cleanup_calls s :
  exists e post,
    scalls (shell_cleanup s) = scalls s ++ ShRollback e :: post /\
    existsb reads_or_runs post = false.
Proof.
  unfold shell_cleanup.
  destruct (query_Rollback (senv s)) as [[e1|] env1]; cbn [senv scalls ShLogError_];
    destruct (query_ReleaseResourcesWithErrors _) as [[e2|] env2];
    cbn [senv scalls ShLogError_]; rewrite <- ?List.app_assoc;
    eexists _, _; (split; [reflexivity|]); reflexivity.
Qed.

Lemma shell_cleanup_keeps s c : c ∈ scalls s -> c ∈ scalls (shell_cleanup s).
Proof.
  intros Hin. destruct (shell_cleanup_calls s) as (e & post & -> & _).
  apply elem_of_app. now left.
Qed.

(** Lines that go on are kept, one after the other. *)
Lemma shell_loop_continued rest cs : forall lines s,
  Forall continued cs ->
  shell_loop (map ReadLine_line cs ++ rest) lines s =
  shell_loop rest (lines ++ map kept cs)
    (mkShell (senv s) (scalls s ++ continued_calls cs)).
Proof.
  induction cs as [|c cs IH]; intros lines s Hcs.
  - cbn [map app continued_calls mbind list_bind]. rewrite !app_nil_r.
    now destruct s.
  - inversion Hcs as [|? ? [Hlen Hlast] Hrest]; subst.
    cbn [map app shell_loop].
    destruct (Z.ltb_spec (len (TrimRightFunc c IsSpace)) 1); [lia|].
    rewrite andb_false_r.
    destruct (Z.ltb_spec 0 (len (TrimRightFunc c IsSpace))); [|lia].
    rewrite Hlast. cbn [Z.eqb Pos.eqb andb].
    rewrite IH by exact Hrest. cbn [senv scalls emit].
    f_equal; [now rewrite <- List.app_assoc|].
    f_equal. unfold continued_calls. cbn [mbind list_bind app].
    now rewrite <- !List.app_assoc.
Qed.

(** X18. When the standard input is a pipe the shell returns an error and
    calls nothing. Otherwise, however the shell ends, the deferred
    Rollback is called, once, after the terminal is torn down if there
    is one, and no line is read and no statement parsed or executed
    after it. *)
Theorem shell_rollback_last script s :
  (cmd_IsReadableFromPipeOrRedirection (senv s) = true ->
   LaunchInteractiveShell script s =
   (Some (ErrorsNew
            "input from pipe or redirection cannot be used in interactive shell"),
    s)) /\
  (cmd_IsReadableFromPipeOrRedirection (senv s) = false ->
   exists pre e post,
     scalls (snd (LaunchInteractiveShell script s))
       = scalls s ++ pre ++ ShRollback e :: post /\
     existsb is_ShRollback pre = false /\
     existsb reads_or_runs post = false /\
     (query_NewTerminal (senv s) = None -> exists pre', pre = pre' ++ [ShTeardown])).
Proof.
  unfold LaunchInteractiveShell. split; intros Hpipe; rewrite Hpipe; [reflexivity|].
  destruct (query_NewTerminal (senv s)) as [err|].
  - cbn [snd].
    destruct (shell_cleanup_calls (emit (ShNewTerminal false) s)) as (e & post & Hc & Hp).
    exists [ShNewTerminal false], e, post. rewrite Hc. cbn [scalls emit].
    split; [now rewrite <- List.app_assoc|]. split; [reflexivity|].
    split; [exact Hp | discriminate].
  - set (s1 := mkShell _ _).
    destruct (shell_loop_spec script [] s1) as (evs & Hevs & Hr & _).
    destruct (shell_loop script [] s1) as [r s2]. cbn [snd] in *.
    destruct (shell_cleanup_calls (emit ShTeardown s2)) as (e & post & Hc & Hp).
    exists ([ShNewTerminal true; ShLog StartUpMessage] ++ evs ++ [ShTeardown]), e, post.
    rewrite Hc. cbn [scalls emit]. rewrite Hevs. subst s1. cbn [scalls emit].
    split; [now rewrite <- !List.app_assoc|].
    split.
    { rewrite !existsb_app, Hr. reflexivity. }
    split; [exact Hp|]. intros _.
    exists ([ShNewTerminal true; ShLog StartUpMessage] ++ evs).
    now rewrite <- List.app_assoc.
Qed.


(** X20. A statement typed over several lines, all but the last ending in a
    backslash, is parsed as one input: the lines without the white
    space at their ends and without the backslashes, joined by line
    feeds; the history keeps them joined by spaces. *)
Theorem shell_joins_lines cs f rest s :
  Forall continued cs -> ~ continued f ->
  cs <> [] \/ 0 < len (TrimRightFunc f IsSpace) ->
  let lines := map kept cs ++ [TrimRightFunc f IsSpace] in
  let q := Join (save_lines lines) " " in
  q <> "" -> q <> ";" ->
  exists ok post,
    scalls (snd (shell_loop (map ReadLine_line (cs ++ [f]) ++ rest) [] s)) =
    scalls s ++ continued_calls cs ++
      [ShUpdateCompleter; ShReadLine (Some (ReadLine_line f));
       ShSaveHistory q; ShParse (Join lines (String "010" "")) ok] ++ post.
Proof.
  intros Hcs Hf Hne lines q Hq1 Hq2.
  rewrite map_app, <- List.app_assoc, shell_loop_continued by exact Hcs.
  cbn [map app shell_loop]. fold lines. fold q.
  assert (C1 : (Z.of_nat (length (map kept cs)) <? 1)
               && (len (TrimRightFunc f IsSpace) <? 1) = false).
  { apply andb_false_iff. destruct Hne as [Hne|Hne].
    - left. apply Z.ltb_ge. destruct cs; [congruence | cbn; lia].
    - right. apply Z.ltb_ge. lia. }
  rewrite C1.
  assert (C2 : (0 <? len (TrimRightFunc f IsSpace))
               && (last_byte (TrimRightFunc f IsSpace) =? 92) = false).
  { destruct (Z.ltb_spec 0 (len (TrimRightFunc f IsSpace))); [|reflexivity].
    destruct (Z.eqb_spec (last_byte (TrimRightFunc f IsSpace)) 92); [|reflexivity].
    destruct Hf. now split. }
  rewrite C2.
  assert (C3 : (len q <? 1) || bool_decide (q = ";") = false).
  { apply orb_false_iff. split.
    - apply Z.ltb_ge. destruct q; [congruence | unfold len; cbn; lia].
    - now apply bool_decide_eq_false. }
  rewrite C3. cbn [senv scalls emit].
  destruct (parser_Parse (Join lines (String "010" "")) "") as [statements|msg].
  - destruct (proc_Execute statements (senv s)) as [[flow [e|]] env'].
    + destruct (is_ForcedExit e).
      * cbn [snd scalls]. exists true, [ShExecute flow (Some e)].
        now rewrite <- !List.app_assoc.
      * match goal with
        | |- context [shell_loop rest [] ?s'] =>
            destruct (shell_loop_spec rest [] s') as (evs & -> & _)
        end.
        cbn [scalls emit ShLogError_]. eexists true, _.
        rewrite <- !List.app_assoc. cbn [app]. reflexivity.
    + destruct (bool_decide (flow = Exit)).
      * cbn [snd scalls]. exists true, [ShExecute flow None].
        now rewrite <- !List.app_assoc.
      * match goal with
        | |- context [shell_loop rest [] ?s'] =>
            destruct (shell_loop_spec rest [] s') as (evs & -> & _)
        end.
        cbn [scalls emit ShLogError_]. eexists true, _.
        rewrite <- !List.app_assoc. cbn [app]. reflexivity.
  - match goal with
    | |- context [shell_loop rest [] ?s'] =>
        destruct (shell_loop_spec rest [] s') as (evs & -> & _)
    end.
    cbn [scalls emit ShLogError_]. eexists false, _.
    rewrite <- !List.app_assoc. cbn [app]. reflexivity.
Qed.

End ShellFacts.

End ShellFacts.


(** * The shell at the console of [ToyConsole] *)

Module ShellExamples.

Import Action GoString Strings StringsRight Shell ToyConsole.

Definition launch (script : list ReadResult) : option error * @ShellState Toy.Sess :=
  @LaunchInteractiveShell Toy.Sess string ToyConsole.collaborators
     ToyConsole.console script shell0.

(** X18 at the console: a statement, then EXIT: the terminal is torn down and then the
    transaction is rolled back. *)
Lemma shell_rollback_last_witness :
  exists pre e post,
    scalls (snd (launch [ReadLine_line "SELECT 1;"; ReadLine_line "EXIT;"]))
      = pre ++ ShRollback e :: post /\
    existsb is_ShRollback pre = false /\
    existsb reads_or_runs post = false /\
    exists pre', pre = pre' ++ [ShTeardown].
Proof.
  destruct (@ShellFacts.shell_rollback_last Toy.Sess string
              ToyConsole.collaborators ToyConsole.console
              [ReadLine_line "SELECT 1;"; ReadLine_line "EXIT;"] shell0)
    as [_ H].
  destruct (H eq_refl) as (pre & e & post & Hc & Hpre & Hpost & Ht).
  exists pre, e, post. split; [exact Hc|]. split; [exact Hpre|].
  split; [exact Hpost|]. exact (Ht eq_refl).
Defined.


(** X20 at the console: the two lines of [typed] and [typed_last] are parsed as one
    statement. *)
Lemma shell_joins_lines_witness :
  exists ok post,
    scalls (snd (@shell_loop Toy.Sess string ToyConsole.collaborators
                   ToyConsole.console
                   (map ReadLine_line (typed ++ [typed_last]) ++ []) []
                   shell0)) =
    scalls shell0 ++ continued_calls typed ++
      [ShUpdateCompleter; ShReadLine (Some (ReadLine_line typed_last));
       ShSaveHistory "SELECT id FROM users;";
       ShParse ("SELECT id " +:+ String "010" "FROM users;") ok] ++ post.
Proof.
  apply (@ShellFacts.shell_joins_lines Toy.Sess string
           ToyConsole.collaborators ToyConsole.console
           typed typed_last [] shell0).
  - repeat constructor.
  - intros [_ H]. vm_compute in H. discriminate H.
  - left. discriminate.
  - vm_compute. discriminate.
  - vm_compute. discriminate.
Defined.

End ShellExamples.
